(** * AEGISDNS: the DNS log normalisation and tunnelling-detection pipeline

    A shallow embedding of [utils/forensics.ts] (entropy, reputation, threat
    score, classifier, normaliser, multi-format parser, statistics) together
    with the properties its specification states about it.

    Conventions of the embedding.
    - A JavaScript string is the list of its UTF-16 code units ([jsstring]).
    - A JavaScript [number] is a rational ([Q]); [NaN] and the infinities are
      outside the model.  Arithmetic is exact, except where a definition of
      the module [Binary64] is used: there every operation rounds its exact
      result to the nearest binary64 number, as the engine does.  The threat
      score is given both ways, and the two are related.
    - [undefined] for an optional field is [None].
    - The loosely typed field map given to the normaliser is a finite map
      from keys to strings, as the CSV and free-text strategies build it; a
      parsed JSON item of another shape is reported as [IllTyped].
    - Engine services the code calls but does not define ([Math.log2],
      [Math.random], [JSON.parse], case mapping, the clock) are the fields of
      the class [Host]; the functions that use them are generic in the host. *)

From Stdlib Require Import ZArith NArith QArith Qround Qminmax Qpower Qabs Lqa Lia.
From Stdlib Require Import String Ascii List.
From stdpp Require Import gmap list.
Import ListNotations.

Set Warnings "-register-all".

(** ** JavaScript strings and numbers *)

Abbreviation jsstring := (list N).
Abbreviation number := Q.

(** An ASCII literal as a JavaScript string. *)
Definition js (s : string) : jsstring := map N_of_ascii (list_ascii_of_string s).

(** [a === b] on strings. *)
Definition strictEq (a b : jsstring) : bool := bool_decide (a = b).

(** [s.startsWith(p)]. *)
Fixpoint startsWith (s p : jsstring) {struct p} : bool :=
  match p with
  | [] => true
  | x :: p' =>
      match s with
      | [] => false
      | c :: s' => (c =? x)%N && startsWith s' p'
      end
  end.

(** [s.includes(x)]: [x] occurs in [s] as a substring. *)
Fixpoint includes (s x : jsstring) : bool :=
  startsWith s x ||
  match s with
  | [] => false
  | _ :: s' => includes s' x
  end.

(** [arr.includes(x)] on an array of strings. *)
Definition Array_includes (arr : list jsstring) (x : jsstring) : bool :=
  existsb (fun y => strictEq y x) arr.

(** Truthiness of an optional string: [undefined] and [''] are falsy. *)
Definition truthy (o : option jsstring) : bool :=
  match o with
  | Some (_ :: _) => true
  | _ => false
  end.

Open Scope Q_scope.

(** [x > y] on numbers. *)
Definition gt (x y : number) : bool := negb (Qle_bool x y).

Definition Math_min (x y : number) : number := Qmin x y.

(** [Math.round]: the nearest integer, a tie going up. *)
Definition Math_round (x : number) : number := inject_Z (Qfloor (x + (1 # 2))).

(** [parseFloat(x.toFixed(digits))]: [toFixed] takes the integer [n] with
    [n / 10^digits] nearest to the magnitude of [x], the larger one on a tie,
    and keeps the sign. *)
Definition parseFloat_toFixed (digits : nat) (x : number) : number :=
  let scale := inject_Z (10 ^ Z.of_nat digits) in
  let nearest (y : number) := inject_Z (Qfloor (y * scale + (1 # 2))) / scale in
  if Qlt_le_dec x 0 then - nearest (- x) else nearest x.

(** ** Data model ([types.ts]) *)

Inductive Reputation := CLEAN | SUSPICIOUS | MALICIOUS | UNKNOWN.

Inductive Label := Normal | Tunneling.

Module DNSQuery.
Record t := mk {
  id : jsstring;
  timestamp : jsstring;
  sourceIp : jsstring;
  query : jsstring;
  type : jsstring;
  responseCode : option jsstring;
  length : number;
  entropy : number;
  location : option jsstring;
  lat : option number;
  lng : option number;
  label : option Label;
  confidence : option number;
  threatScore : number;
  reputation : option Reputation;
  isNew : option bool;
  metadata : option (gmap jsstring jsstring)
}.

(** [q.reputation = r] and [q.threatScore = n], as functional updates. *)
Definition set_reputation (q : t) (r : Reputation) : t :=
  mk (id q) (timestamp q) (sourceIp q) (query q) (type q) (responseCode q)
     (length q) (entropy q) (location q) (lat q) (lng q) (label q)
     (confidence q) (threatScore q) (Some r) (isNew q) (metadata q).

Definition set_threatScore (q : t) (n : number) : t :=
  mk (id q) (timestamp q) (sourceIp q) (query q) (type q) (responseCode q)
     (length q) (entropy q) (location q) (lat q) (lng q) (label q)
     (confidence q) n (reputation q) (isNew q) (metadata q).
End DNSQuery.

Module FeatureStats.
Record t := mk {
  avgEntropy : number;
  avgLength : number;
  nxDomainRatio : number;
  totalQueries : number;
  uniqueSubdomains : number
}.
End FeatureStats.

(** ** Reputation Checker *)

Definition maliciousIps : list jsstring :=
  [js "192.168.1.105"; js "45.33.22.11"; js "103.22.11.55"; js "185.22.11.33"].

Definition suspiciousIps : list jsstring :=
  [js "192.168.1.200"; js "104.16.132.229"].

Definition checkIpReputation (ip : jsstring) : Reputation :=
  if Array_includes maliciousIps ip then MALICIOUS
  else if Array_includes suspiciousIps ip then SUSPICIOUS
  else if startsWith ip (js "192.168.") then CLEAN
  else UNKNOWN.

(** ** Threat Scorer *)

Definition highRiskLocations : list jsstring :=
  [js "Russia"; js "China"; js "North Korea"; js "Iran"; js "Unknown"].

(** [opt === 'lit'] for an optional string. *)
Definition optEq (o : option jsstring) (lit : jsstring) : bool :=
  match o with
  | Some s => strictEq s lit
  | None => false
  end.

Definition calculateThreatScore (query : DNSQuery.t) : number :=
  let score := 0 in
  (* 1. Entropy Factor *)
  let score :=
    if gt (DNSQuery.entropy query) 3.5
    then score + Math_min 40 ((DNSQuery.entropy query - 3.5) * 30)
    else score in
  (* 2. Length Factor *)
  let score :=
    if gt (DNSQuery.length query) 40
    then score + Math_min 20 ((DNSQuery.length query - 40) * 0.5)
    else score in
  (* 3. Response Code Factor *)
  let score :=
    if optEq (DNSQuery.responseCode query) (js "NXDOMAIN") then score + 15
    else if optEq (DNSQuery.responseCode query) (js "SERVFAIL") then score + 10
    else score in
  (* 4. Query Type Factor *)
  let score :=
    if strictEq (DNSQuery.type query) (js "TXT") then score + 10
    else if strictEq (DNSQuery.type query) (js "NULL") then score + 15
    else score in
  (* 5. Geo-location Factor *)
  let score :=
    if truthy (DNSQuery.location query) &&
       existsb (fun loc => includes (default [] (DNSQuery.location query)) loc)
               highRiskLocations
    then score + 15
    else if negb (truthy (DNSQuery.location query)) ||
            optEq (DNSQuery.location query) (js "Resolving...")
    then score + 5
    else score in
  (* 6. Reputation Factor *)
  let score :=
    match DNSQuery.reputation query with
    | Some MALICIOUS => score + 25
    | Some SUSPICIOUS => score + 15
    | _ => score
    end in
  Math_min 100 (Math_round score).

(** *** The six factors as the specification words them

    [ThreatSpec.threatScore] follows the text of the specification: each
    factor is a function of one field, the score is their sum, rounded and
    clamped.  The geolocation factor is given twice: [geoFactor] as the
    specification states it (the +5 case is "location absent or equal to the
    resolving sentinel") and [geoFactor_falsy], where the +5 case also covers
    the empty string. *)
Module ThreatSpec.
Definition entropyFactor (entropy : number) : number :=
  if Qle_bool entropy 3.5 then 0 else Qmin 40 ((entropy - 3.5) * 30).

Definition lengthFactor (length : number) : number :=
  if Qle_bool length 40 then 0 else Qmin 20 ((length - 40) * 0.5).

Definition responseCodeFactor (responseCode : option jsstring) : number :=
  if decide (responseCode = Some (js "NXDOMAIN")) then 15
  else if decide (responseCode = Some (js "SERVFAIL")) then 10
  else 0.

Definition queryTypeFactor (type : jsstring) : number :=
  if decide (type = js "TXT") then 10
  else if decide (type = js "NULL") then 15
  else 0.

(** The location string contains one of the high-risk names. *)
Definition highRisk (location : option jsstring) : bool :=
  match location with
  | Some s => existsb (includes s) highRiskLocations
  | None => false
  end.


Definition geoFactor_falsy (location : option jsstring) : number :=
  if highRisk location then 15
  else if decide (location = None ∨ location = Some [] ∨
                  location = Some (js "Resolving...")) then 5
  else 0.

Definition reputationFactor (reputation : option Reputation) : number :=
  match reputation with
  | Some MALICIOUS => 25
  | Some SUSPICIOUS => 15
  | _ => 0
  end.

Definition sumOfFactors (geo : option jsstring → number) (q : DNSQuery.t) : number :=
  entropyFactor (DNSQuery.entropy q) + lengthFactor (DNSQuery.length q) +
  responseCodeFactor (DNSQuery.responseCode q) + queryTypeFactor (DNSQuery.type q) +
  geo (DNSQuery.location q) + reputationFactor (DNSQuery.reputation q).

Definition threatScore (geo : option jsstring → number) (q : DNSQuery.t) : number :=
  Qmin 100 (inject_Z (Qfloor (sumOfFactors geo q + (1 # 2)))).
End ThreatSpec.

(** *** The threat score in binary64

    [calculateThreatScore] above adds the factors exactly.  The engine adds
    them in binary64, rounding after each operation;
    [Binary64.calculateThreatScore] is the function with that arithmetic. *)
Module Binary64.
(** The exponent of the binade of a positive number:
    [2^e <= x < 2^(e+1)]. *)
Definition exponent (x : number) : Z :=
  let d := (Z.log2 (Qnum x) - Z.log2 (Z.pos (Qden x)))%Z in
  if Qle_bool (2 ^ d) x then d else (d - 1)%Z.

(** The nearest integer, a tie going to the even one. *)
Definition nearestEven (x : number) : Z :=
  let f := Qfloor x in
  match Qcompare (x - inject_Z f) (1 # 2) with
  | Lt => f
  | Gt => (f + 1)%Z
  | Eq => if Z.even f then f else (f + 1)%Z
  end.

(** The distance between neighbouring binary64 numbers around [x]: 52 bits
    below the leading one, and never below the smallest subnormal. *)
Definition ulp (x : number) : number := 2 ^ Z.max (exponent x - 52) (-1074).

Definition roundPositive (x : number) : number :=
  inject_Z (nearestEven (x / ulp x)) * ulp x.

(** The binary64 number nearest to [x], ties to even.  The exponent is not
    bounded above: a result of 2^1024 or more, which the engine turns into
    an infinity, is outside the model. *)
Definition round (x : number) : number :=
  match Qcompare x 0 with
  | Eq => 0
  | Gt => roundPositive x
  | Lt => - roundPositive (- x)
  end.

(** [x + y], [x - y] and [x * y] as the engine computes them. *)
Definition add (x y : number) : number := round (x + y).
Definition sub (x y : number) : number := round (x - y).
Definition mul (x y : number) : number := round (x * y).

(** 2^-53, the largest relative error of one rounding, and 2^-1075, the
    largest absolute error of a rounding among the subnormals. *)
Definition unitRoundoff : number := 1 # 9007199254740992.
Definition tiny : number := 1 / 2 ^ 1075.

(** The variable [score] of [calculateThreatScore] when the function reaches
    its [return]: the factors are added one by one, each sum rounded.  Every
    literal of the function (3.5, 30, 40, 0.5, 20, ...) is a binary64 number.
    On finite binary64 inputs no result is subnormal, and the only product
    that can overflow is cut by [Math.min] to the same 40 or 20. *)
Definition score (query : DNSQuery.t) : number :=
  let score := 0 in
  (* 1. Entropy Factor *)
  let score :=
    if gt (DNSQuery.entropy query) 3.5
    then add score (Math_min 40 (mul (sub (DNSQuery.entropy query) 3.5) 30))
    else score in
  (* 2. Length Factor *)
  let score :=
    if gt (DNSQuery.length query) 40
    then add score (Math_min 20 (mul (sub (DNSQuery.length query) 40) 0.5))
    else score in
  (* 3. Response Code Factor *)
  let score :=
    if optEq (DNSQuery.responseCode query) (js "NXDOMAIN") then add score 15
    else if optEq (DNSQuery.responseCode query) (js "SERVFAIL") then add score 10
    else score in
  (* 4. Query Type Factor *)
  let score :=
    if strictEq (DNSQuery.type query) (js "TXT") then add score 10
    else if strictEq (DNSQuery.type query) (js "NULL") then add score 15
    else score in
  (* 5. Geo-location Factor *)
  let score :=
    if truthy (DNSQuery.location query) &&
       existsb (fun loc => includes (default [] (DNSQuery.location query)) loc)
               highRiskLocations
    then add score 15
    else if negb (truthy (DNSQuery.location query)) ||
            optEq (DNSQuery.location query) (js "Resolving...")
    then add score 5
    else score in
  (* 6. Reputation Factor *)
  let score :=
    match DNSQuery.reputation query with
    | Some MALICIOUS => add score 25
    | Some SUSPICIOUS => add score 15
    | _ => score
    end in
  score.

(** [Math.round] and [Math.min] are exact on binary64 numbers. *)
Definition calculateThreatScore (query : DNSQuery.t) : number :=
  Math_min 100 (Math_round (score query)).
End Binary64.

(** How far the running binary64 score can be from the exact sum: 2^-40. *)
Definition slack : number := 1 # 1099511627776.

(** [s] is a running binary64 score, [S] the exact sum it stands for: they
    differ by at most [eps], and [S] is at most [bound]. *)
Definition near (s S eps bound : number) : Prop :=
  S - eps <= s ∧ s <= S + eps ∧ 0 <= s ∧ 0 <= S ∧ S <= bound.

(** ** The host: engine services used by the pipeline *)

(** A value produced by [JSON.parse]. *)
Inductive JSON :=
| JNull
| JBool (b : bool)
| JNum (n : number)
| JStr (s : jsstring)
| JArr (items : list JSON)
| JObj (fields : list (jsstring * JSON)).

Class Host := {
  (** [Math.log2]. *)
  Math_log2 : number → number;
  (** The value returned by the [n]-th call of [Math.random()]. *)
  Math_random_at : nat → number;
  (** [x.toString(36).substr(2, 9)], the text of a fresh record id. *)
  base36_id : number → jsstring;
  (** [new Date().toISOString()]; one reading of the clock serves a whole
      run, no property here depends on it. *)
  Date_now : jsstring;
  (** [s.toUpperCase()] and [s.toLowerCase()]. *)
  toUpperCase : jsstring → jsstring;
  toLowerCase : jsstring → jsstring;
  (** [JSON.parse]; [None] stands for the [SyntaxError] it throws. *)
  JSON_parse : jsstring → option JSON
}.

(** Code that calls [Math.random()] threads the number of calls made so
    far. *)
Definition State (A : Type) : Type := nat → A * nat.

#[global] Instance State_ret : MRet State := λ A a n, (a, n).
#[global] Instance State_bind : MBind State :=
  λ A B f m n, let '(a, n') := m n in f a n'.

Definition Math_random `{Host} : State number := λ n, (Math_random_at n, S n).

(** ** Entropy Calculator *)

Definition isHighSurrogate (c : N) : bool := ((0xD800 <=? c) && (c <=? 0xDBFF))%N.
Definition isLowSurrogate (c : N) : bool := ((0xDC00 <=? c) && (c <=? 0xDFFF))%N.

(** The strings that [for (const char of str)] binds [char] to: the string
    iterator walks code points, so a surrogate pair comes as one string of
    two code units. *)
Fixpoint codePoints (str : jsstring) : list jsstring :=
  match str with
  | [] => []
  | c :: rest =>
      match rest with
      | d :: rest' =>
          if isHighSurrogate c && isLowSurrogate d
          then [c; d] :: codePoints rest'
          else [c] :: codePoints rest
      | [] => [[c]]
      end
  end.

(** [freq: Record<string, number>], its keys in insertion order. *)
Definition Freq : Type := list (jsstring * number).

(** [freq[char]]. *)
Fixpoint Freq_get (freq : Freq) (char : jsstring) : option number :=
  match freq with
  | [] => None
  | (k, v) :: freq' => if strictEq k char then Some v else Freq_get freq' char
  end.

(** [freq[char] = v]. *)
Fixpoint Freq_set (freq : Freq) (char : jsstring) (v : number) : Freq :=
  match freq with
  | [] => [(char, v)]
  | (k, w) :: freq' =>
      if strictEq k char then (k, v) :: freq' else (k, w) :: Freq_set freq' char v
  end.

(** [freq[char] = (freq[char] || 0) + 1]. *)
Definition bump (freq : Freq) (char : jsstring) : Freq :=
  Freq_set freq char (default 0 (Freq_get freq char) + 1).

(** The first loop of [calculateEntropy]: one count per code point. *)
Definition countChars (str : jsstring) : Freq :=
  fold_left bump (codePoints str) [].

(** [str.length], the number of code units. *)
Definition String_length (str : jsstring) : number := inject_Z (Z.of_nat (length str)).

(** The second loop visits the keys of [freq]; their order (index-like keys
    first, then insertion order) does not change an exact sum. *)
Definition calculateEntropy `{Host} (str : jsstring) : number :=
  let len := String_length str in
  if Qeq_bool len 0 then 0
  else
    let freq := countChars str in
    let entropy :=
      fold_left (fun entropy '(char, n) => let p := n / len in entropy - p * Math_log2 p)
                freq 0 in
    parseFloat_toFixed 3 entropy.

(** *** Notions used to state the properties of the entropy *)

(** A string without high surrogates: each code unit is a character of its
    own for the string iterator. *)
Definition unitString (s : jsstring) : Prop :=
  Forall (λ c, isHighSurrogate c = false) s.

(** How often [k] occurs in a list of keys. *)
Definition occurrences (k : jsstring) (l : list jsstring) : nat :=
  length (filter (λ x, x = k) l).

(** What one pass of the first loop does to the entry of its character. *)
Definition increment (o : option number) : option number := Some (default 0 o + 1).

(** The count stored after [m] increments. *)
Definition countValue (m : nat) : number := Nat.iter m (λ v, v + 1) 0.

(** The term one entry of [freq] contributes to the second loop. *)
Definition surprisal `{Host} (len : number) (entry : jsstring * number) : number :=
  let p := entry.2 / len in p * Math_log2 p.

Definition sumQ (l : list number) : number := fold_right Qplus 0 l.

(** ** Classifier *)

(** [Partial<DNSQuery>], with the fields [classifyQuery] reads. *)
Module PartialDNSQuery.
Record t := mk {
  query : option jsstring;
  length : option number;
  entropy : option number;
  threatScore : option number
}.
End PartialDNSQuery.

Module Classification.
Record t := mk { label : Label; confidence : number }.
End Classification.

Definition classifyQuery `{Host} (query : PartialDNSQuery.t) : State Classification.t :=
  let entropy :=
    match PartialDNSQuery.entropy query with
    | Some e => e
    | None => calculateEntropy (default [] (PartialDNSQuery.query query))
    end in
  let length :=
    match PartialDNSQuery.length query with
    | Some l => l
    | None =>
        match PartialDNSQuery.query query with
        | Some s => String_length s
        | None => 0
        end
    end in
  let entropyThreshold := 4.2 in
  let lengthThreshold := 55 in
  let isSuspicious := gt entropy entropyThreshold || gt length lengthThreshold in
  let score := default 0 (PartialDNSQuery.threatScore query) in
  let label := if isSuspicious || gt score 60 then Tunneling else Normal in
  match label with
  | Tunneling =>
      r ← Math_random;
      mret (Classification.mk label (Math_min 0.99 (0.7 + score / 200 + r * 0.1)))
  | Normal =>
      r ← Math_random;
      mret (Classification.mk label (Math_min 0.99 (0.8 + r * 0.15)))
  end.

(** The entropy, length and score the decision rule of [classifyQuery] is
    applied to: the supplied ones, with the fallbacks of the code. *)
Definition classifierEntropy `{Host} (query : PartialDNSQuery.t) : number :=
  match PartialDNSQuery.entropy query with
  | Some e => e
  | None => calculateEntropy (default [] (PartialDNSQuery.query query))
  end.

Definition classifierLength (query : PartialDNSQuery.t) : number :=
  match PartialDNSQuery.length query with
  | Some l => l
  | None =>
      match PartialDNSQuery.query query with
      | Some s => String_length s
      | None => 0
      end
  end.

Definition classifierScore (query : PartialDNSQuery.t) : number :=
  default 0 (PartialDNSQuery.threatScore query).

(** ** Log Normalizer *)

(** [a || b] where [a] is an optional string: [a] when it is truthy. *)
Definition orElse (a : option jsstring) (b : jsstring) : jsstring :=
  match a with
  | Some (c :: s) => c :: s
  | _ => b
  end.

Definition coreFields : list jsstring :=
  [js "id"; js "timestamp"; js "time"; js "sourceIp"; js "src_ip"; js "client_ip";
   js "query"; js "domain"; js "qname"; js "type"; js "qtype"; js "responseCode";
   js "rcode"].

(** [obj[key] = v] on an object created by a literal: an assignment to
    ["__proto__"] reaches the accessor of [Object.prototype], which ignores a
    string, and creates no property. *)
Definition Object_set (obj : gmap jsstring jsstring) (key v : jsstring) :
    gmap jsstring jsstring :=
  if strictEq key (js "__proto__") then obj else <[key := v]> obj.

(** [data] is the field map handed to the normaliser: the own properties of
    the object, all of them strings.  (A property set to [undefined] reads
    like a missing one and is left out of the map.)  [Math.random] is called
    for the id when [data.id] is falsy, then once by the classifier. *)
Definition normalizeDNSQuery `{Host} (data : gmap jsstring jsstring) : State DNSQuery.t :=
  let query :=
    orElse (data !! js "query") (orElse (data !! js "domain")
      (orElse (data !! js "qname") (orElse (data !! js "Question") []))) in
  let entropy := calculateEntropy query in
  let length := String_length query in
  (* Extract metadata - everything that isn't a core field *)
  let metadata :=
    map_fold (fun key v metadata =>
                if negb (Array_includes coreFields key)
                then Object_set metadata key v
                else metadata)
             ∅ data in
  id ← (if truthy (data !! js "id") then mret (default [] (data !! js "id"))
        else r ← Math_random; mret (base36_id r));
  classification ← classifyQuery
    {| PartialDNSQuery.query := Some query;
       PartialDNSQuery.length := Some length;
       PartialDNSQuery.entropy := Some entropy;
       PartialDNSQuery.threatScore := None |};
  let queryObj :=
    {| DNSQuery.id := id;
       DNSQuery.timestamp :=
         orElse (data !! js "timestamp") (orElse (data !! js "time")
           (orElse (data !! js "Timestamp") Date_now));
       DNSQuery.sourceIp :=
         orElse (data !! js "sourceIp") (orElse (data !! js "src_ip")
           (orElse (data !! js "client_ip") (orElse (data !! js "SourceIP")
             (js "192.168.1.1"))));
       DNSQuery.query := query;
       DNSQuery.type :=
         toUpperCase (orElse (data !! js "type") (orElse (data !! js "qtype")
           (orElse (data !! js "QueryType") (js "A"))));
       DNSQuery.responseCode :=
         Some (orElse (data !! js "responseCode") (orElse (data !! js "rcode")
           (orElse (data !! js "ResponseCode") (js "NOERROR"))));
       DNSQuery.length := length;
       DNSQuery.entropy := entropy;
       DNSQuery.location := None;
       DNSQuery.lat := None;
       DNSQuery.lng := None;
       DNSQuery.label := Some (Classification.label classification);
       DNSQuery.confidence := Some (Classification.confidence classification);
       DNSQuery.threatScore := 0; (* Will be updated after classification *)
       DNSQuery.reputation := Some UNKNOWN;
       DNSQuery.isNew := None;
       DNSQuery.metadata := Some metadata |} in
  (* Update reputation *)
  let queryObj :=
    DNSQuery.set_reputation queryObj (checkIpReputation (DNSQuery.sourceIp queryObj)) in
  (* Update threat score with full object *)
  let queryObj := DNSQuery.set_threatScore queryObj (calculateThreatScore queryObj) in
  mret queryObj.

(** The query name the normaliser resolves from a field map: the first
    non-empty value among the four aliases, the empty string when there is
    none. *)
Definition resolvedQuery (data : gmap jsstring jsstring) : jsstring :=
  orElse (data !! js "query") (orElse (data !! js "domain")
    (orElse (data !! js "qname") (orElse (data !! js "Question") []))).

(** The keys the specification lists as aliases of a core field. *)
Definition aliasKeys : list jsstring :=
  [js "query"; js "domain"; js "qname"; js "Question";
   js "sourceIp"; js "src_ip"; js "client_ip"; js "SourceIP";
   js "timestamp"; js "time"; js "Timestamp";
   js "type"; js "qtype"; js "QueryType";
   js "responseCode"; js "rcode"; js "ResponseCode";
   js "id"].

(** ** Stats Aggregator *)

(** [s.split(sep)] for a separator of one code unit. *)
Fixpoint split (s : jsstring) (sep : N) : list jsstring :=
  match s with
  | [] => [[]]
  | c :: s' =>
      if (c =? sep)%N then [] :: split s' sep
      else
        match split s' sep with
        | piece :: pieces => (c :: piece) :: pieces
        | [] => [[c]]
        end
  end.

Definition dot : N := 46.

Definition getStats (logs : list DNSQuery.t) : FeatureStats.t :=
  if (length logs =? 0)%nat then
    {| FeatureStats.avgEntropy := 0; FeatureStats.avgLength := 0;
       FeatureStats.nxDomainRatio := 0; FeatureStats.totalQueries := 0;
       FeatureStats.uniqueSubdomains := 0 |}
  else
    let totalQueries := inject_Z (Z.of_nat (length logs)) in
    let avgEntropy :=
      fold_left (fun acc curr => acc + DNSQuery.entropy curr) logs 0 / totalQueries in
    let avgLength :=
      fold_left (fun acc curr => acc + DNSQuery.length curr) logs 0 / totalQueries in
    let subdomains : gset jsstring :=
      list_to_set (map (fun l => hd [] (split (DNSQuery.query l) dot)) logs) in
    {| FeatureStats.avgEntropy := parseFloat_toFixed 3 avgEntropy;
       FeatureStats.avgLength := parseFloat_toFixed 1 avgLength;
       FeatureStats.nxDomainRatio := 0.12; (* Simulated for demo purposes *)
       FeatureStats.totalQueries := totalQueries;
       FeatureStats.uniqueSubdomains := inject_Z (Z.of_nat (size subdomains)) |}.

(** The proportion of records whose response code is NXDOMAIN, as the
    specification defines the NXDOMAIN ratio. *)
Definition nxDomainProportion (logs : list DNSQuery.t) : number :=
  let nxdomain :=
    filter (fun l => DNSQuery.responseCode l = Some (js "NXDOMAIN")) logs in
  inject_Z (Z.of_nat (length nxdomain)) / inject_Z (Z.of_nat (length logs)).

(** ** Multi-Format Parser *)

(** *** String primitives *)

(** White space and line terminators: what [trim] strips and [\s] matches. *)
Definition isWhiteSpace (c : N) : bool :=
  (((9 <=? c) && (c <=? 13)) || (c =? 32) || (c =? 0xA0) || (c =? 0x1680) ||
   ((0x2000 <=? c) && (c <=? 0x200A)) || (c =? 0x2028) || (c =? 0x2029) ||
   (c =? 0x202F) || (c =? 0x205F) || (c =? 0x3000) || (c =? 0xFEFF))%N.

Fixpoint trimStart (s : jsstring) : jsstring :=
  match s with
  | c :: s' => if isWhiteSpace c then trimStart s' else s
  | [] => []
  end.

(** [s.trim()]. *)
Definition trim (s : jsstring) : jsstring := rev (trimStart (rev (trimStart s))).

Definition isQuote (c : N) : bool := ((c =? 34) || (c =? 39))%N.

(** [s.replace(re, '')] where the global [re] matches a single or double
    quote at the start of the string, or one at its end: one quote is removed
    at the start, and one at the end of what is left. *)
Definition stripQuotes (s : jsstring) : jsstring :=
  let s1 := match s with
            | c :: s' => if isQuote c then s' else s
            | [] => []
            end in
  match rev s1 with
  | c :: r => if isQuote c then rev r else s1
  | [] => s1
  end.

(** [s.split(/[\t\s]+/)]: the pieces between maximal runs of white space;
    [inRun] tells that the previous code unit was white space. *)
Fixpoint splitWhiteSpace_from (inRun : bool) (s : jsstring) : list jsstring :=
  match s with
  | [] => [[]]
  | c :: s' =>
      if isWhiteSpace c then
        if inRun then splitWhiteSpace_from true s'
        else [] :: splitWhiteSpace_from true s'
      else
        match splitWhiteSpace_from false s' with
        | piece :: pieces => (c :: piece) :: pieces
        | [] => [[c]]
        end
  end.

Definition splitWhiteSpace (s : jsstring) : list jsstring := splitWhiteSpace_from false s.

Definition isDigit (c : N) : bool := ((48 <=? c) && (c <=? 57))%N.

(** [\w]. *)
Definition isWordChar (c : N) : bool :=
  (isDigit c || ((65 <=? c) && (c <=? 90)) || ((97 <=? c) && (c <=? 122)) || (c =? 95))%N.

(** [p.match(/^\d+$/)] is not null. *)
Definition matchesDigits (p : jsstring) : bool :=
  match p with
  | [] => false
  | _ => forallb isDigit p
  end.

(** What can remain of [s] after [\d{1,3}] has matched at its start, the
    longest match first. *)
Definition afterDigits1to3 (s : jsstring) : list jsstring :=
  match s with
  | a :: s1 =>
      if isDigit a then
        match s1 with
        | b :: s2 =>
            if isDigit b then
              match s2 with
              | c :: s3 => if isDigit c then [s3; s2; s1] else [s2; s1]
              | [] => [s2; s1]
              end
            else [s1]
        | [] => [s1]
        end
      else []
  | [] => []
  end.

(** [\d{1,3}\.] continued by [k]. *)
Definition octetDot (k : jsstring → bool) (s : jsstring) : bool :=
  existsb (fun r => match r with
                    | c :: r' => (c =? dot)%N && k r'
                    | [] => false
                    end)
          (afterDigits1to3 s).

(** [\d{1,3}\b]: the boundary needs the next code unit, if any, not to be a
    word character. *)
Definition octetEnd (s : jsstring) : bool :=
  existsb (fun r => match r with
                    | c :: _ => negb (isWordChar c)
                    | [] => true
                    end)
          (afterDigits1to3 s).

(** [/\b\d{1,3}\.\d{1,3}\.\d{1,3}\.\d{1,3}\b/] matches somewhere in the string
    of which [s] is a suffix and [prev] the code unit before [s]. *)
Fixpoint matchesIPv4_from (prev : option N) (s : jsstring) : bool :=
  (negb (from_option isWordChar false prev) &&
   octetDot (octetDot (octetDot octetEnd)) s) ||
  match s with
  | c :: s' => matchesIPv4_from (Some c) s'
  | [] => false
  end.

Definition matchesIPv4 (p : jsstring) : bool := matchesIPv4_from None p.

(** *** Field maps out of parsed JSON

    The normaliser is modelled on field maps whose values are strings.  A
    parsed item of another shape (not an object, or an object with a field
    that is not a string) is outside the model. *)
Definition asFieldMap (v : JSON) : option (gmap jsstring jsstring) :=
  match v with
  | JObj fields =>
      fold_left (fun acc '(k, x) =>
                   match acc, x with
                   | Some m, JStr s => Some (<[k := s]> m)
                   | _, _ => None
                   end)
                fields (Some ∅)
  | _ => None
  end.

(** How a call of the parser ends: it returns, it throws a [TypeError], or
    it meets a JSON item that is not a field map of strings. *)
Inductive outcome (A : Type) :=
| Return (a : A)
| TypeError
| IllTyped.
Arguments Return {A} a.
Arguments TypeError {A}.
Arguments IllTyped {A}.

Fixpoint State_mapM {A B : Type} (f : A → State B) (l : list A) : State (list B) :=
  match l with
  | [] => mret []
  | a :: l' => b ← f a; bs ← State_mapM f l'; mret (b :: bs)
  end.

(** *** The parsing strategies *)

Definition comma : N := 44.
Definition newline : N := 10.
Definition tab : N := 9.

Definition likelyHeaders : list jsstring :=
  [js "query"; js "domain"; js "qname"; js "ip"; js "src"; js "timestamp"; js "time"].

Definition defaultHeaders : list jsstring :=
  [js "timestamp"; js "sourceIp"; js "query"; js "type"; js "responseCode"].

Definition recordTypes : list jsstring :=
  [js "A"; js "AAAA"; js "TXT"; js "CNAME"; js "MX"; js "NS"].

(** The body of the CSV loop: the field map of one data line, when the line
    is accepted. *)
Definition csvFields (currentHeaders : list jsstring) (line : jsstring) :
    option (gmap jsstring jsstring) :=
  let parts := map (fun p => stripQuotes (trim p)) (split line comma) in
  let obj :=
    fold_left (fun obj '(i, h) =>
                 match parts !! i with
                 | Some v => Object_set obj h v
                 | None => obj
                 end)
              (imap pair currentHeaders) ∅ in
  if truthy (obj !! js "query") || truthy (obj !! js "domain") || (3 <=? length parts)%nat
  then Some obj
  else None.

(** The free-text fallback: the field map extracted from one line, when a
    query name is found. *)
Definition textFields `{Host} (line : jsstring) : option (gmap jsstring jsstring) :=
  let parts := splitWhiteSpace line in
  let queryStr := find (fun p => includes p [dot] && negb (matchesDigits p)) parts in
  let ipStr := find matchesIPv4 parts in
  let type :=
    orElse (find (fun p => Array_includes recordTypes (toUpperCase p)) parts) (js "A") in
  match queryStr with
  | Some (c :: q) =>
      let obj : gmap jsstring jsstring := {[ js "query" := c :: q ]} in
      let obj := match ipStr with
                 | Some ip => <[js "sourceIp" := ip]> obj
                 | None => obj
                 end in
      let obj := <[js "type" := type]> obj in
      let obj := if (10 <? length (hd [] parts))%nat (* Heuristic for timestamp *)
                 then <[js "timestamp" := hd [] parts]> obj
                 else obj in
      Some obj
  | _ => None
  end.

(** The query name of a line of free text, as the specification describes
    it: the first token that contains a dot and is not purely numeric. *)
Definition queryToken (line : jsstring) : option jsstring :=
  find (fun p => includes p [dot] && negb (matchesDigits p)) (splitWhiteSpace line).

(** The body of the line loop: the records one line adds to [queries]. *)
Definition parseLine `{Host} (line : jsstring) : State (outcome (list DNSQuery.t)) :=
  match JSON_parse line with
  | Some data =>
      match asFieldMap data with
      | Some fields => q ← normalizeDNSQuery fields; mret (Return [q])
      | None => mret IllTyped
      end
  | None =>
      match textFields line with
      | Some fields => q ← normalizeDNSQuery fields; mret (Return [q])
      | None => mret (Return [])
      end
  end.

Fixpoint parseLines `{Host} (lines : list jsstring) : State (outcome (list DNSQuery.t)) :=
  match lines with
  | [] => mret (Return [])
  | line :: lines' =>
      r ← parseLine line;
      match r with
      | Return qs =>
          r' ← parseLines lines';
          match r' with
          | Return qs' => mret (Return (qs ++ qs'))
          | e => mret e
          end
      | e => mret e
      end
  end.

(** [lines]: the trimmed lines that are neither empty nor comments. *)
Definition logLines (trimmed : jsstring) : list jsstring :=
  filter (fun l => negb (bool_decide (l = [])) && negb (startsWith l (js "#")) = true)
         (map trim (split trimmed newline)).

(** [isCSV]. *)
Definition isCSV (firstLine : jsstring) : bool :=
  includes firstLine [comma] && negb (includes firstLine [tab]).

(** The CSV strategy: the records of the accepted data lines. *)
Definition parseCSV `{Host} (lines : list jsstring) (firstLine : jsstring) :
    State (list DNSQuery.t) :=
  let headers := map (fun h => stripQuotes (trim h)) (split firstLine comma) in
  let hasHeaders :=
    existsb (fun h => existsb (fun lh => includes (toLowerCase h) lh) likelyHeaders)
            headers in
  let dataLines := if hasHeaders then drop 1 lines else lines in
  let currentHeaders := if hasHeaders then headers else defaultHeaders in
  State_mapM normalizeDNSQuery (omap (csvFields currentHeaders) dataLines).

Definition parseLogContent `{Host} (content : jsstring) : State (outcome (list DNSQuery.t)) :=
  let trimmed := trim content in
  match trimmed with
  | [] => mret (Return [])
  | _ =>
    (* 1. Try parsing as a single JSON array or object *)
    match JSON_parse trimmed with
    | Some parsed =>
        let items := match parsed with
                     | JArr items => items
                     | _ => [parsed]
                     end in
        match mapM asFieldMap items with
        | Some maps => qs ← State_mapM normalizeDNSQuery maps; mret (Return qs)
        | None => mret IllTyped
        end
    | None =>
        let lines := logLines trimmed in
        match lines with
        | [] => mret TypeError (* [lines[0]] is [undefined] *)
        | firstLine :: _ =>
            (* 2. Check for CSV *)
            queries ← (if isCSV firstLine then parseCSV lines firstLine else mret []);
            if isCSV firstLine && (0 <? length queries)%nat then mret (Return queries)
            else
              (* 3. Line-by-line JSON or Plain Text *)
              r ← parseLines lines;
              match r with
              | Return qs => mret (Return (queries ++ qs))
              | e => mret e
              end
        end
    end
  end.

(** The query names of the records of a result. *)
Definition queryNames (r : outcome (list DNSQuery.t)) : outcome (list jsstring) :=
  match r with
  | Return qs => Return (map DNSQuery.query qs)
  | TypeError => TypeError
  | IllTyped => IllTyped
  end.

(** ** A reference host

    An executable instance of [Host], used to run the pipeline on concrete
    inputs: a recursive-descent parser for the JSON grammar, the case mapping
    of ASCII letters, a base-2 logarithm that is exact on powers of two, and a
    random source that always draws 1/2. *)
Module RefHost.

(** *** JSON *)

Fixpoint skipWs (s : jsstring) : jsstring :=
  match s with
  | c :: s' => if ((c =? 32) || (c =? 9) || (c =? 10) || (c =? 13))%N then skipWs s' else s
  | [] => []
  end.

Definition hexDigit (c : N) : option N :=
  (if isDigit c then Some (c - 48)
   else if (97 <=? c) && (c <=? 102) then Some (c - 87)
   else if (65 <=? c) && (c <=? 70) then Some (c - 55)
   else None)%N.

(** The code unit an escape letter stands for. *)
Definition unescape (c : N) : option N :=
  (if c =? 34 then Some 34 else if c =? 92 then Some 92 else if c =? 47 then Some 47
   else if c =? 98 then Some 8 else if c =? 102 then Some 12
   else if c =? 110 then Some 10 else if c =? 114 then Some 13
   else if c =? 116 then Some 9 else None)%N.

Definition consChar (c : N) (r : option (jsstring * jsstring)) :
    option (jsstring * jsstring) :=
  match r with
  | Some (str, rest) => Some (c :: str, rest)
  | None => None
  end.

(** The characters of a string literal after its opening quote, up to the
    closing quote. *)
Fixpoint parseChars (s : jsstring) : option (jsstring * jsstring) :=
  match s with
  | [] => None
  | c :: s' =>
      if (c =? 34)%N then Some ([], s')
      else if (c =? 92)%N then
        match s' with
        | e :: s'' =>
            if (e =? 117)%N then
              match s'' with
              | h1 :: h2 :: h3 :: h4 :: s3 =>
                  match hexDigit h1, hexDigit h2, hexDigit h3, hexDigit h4 with
                  | Some a, Some b, Some c', Some d =>
                      consChar (((a * 16 + b) * 16 + c') * 16 + d)%N (parseChars s3)
                  | _, _, _, _ => None
                  end
              | _ => None
              end
            else
              match unescape e with
              | Some u => consChar u (parseChars s'')
              | None => None
              end
        | [] => None
        end
      else if (c <? 32)%N then None
      else consChar c (parseChars s')
  end.

Fixpoint takeDigits (s : jsstring) : jsstring * jsstring :=
  match s with
  | c :: s' =>
      if isDigit c then let '(ds, rest) := takeDigits s' in (c :: ds, rest)
      else ([], s)
  | [] => ([], [])
  end.

Definition digitsValue (ds : jsstring) : Z :=
  fold_left (fun acc d => acc * 10 + Z.of_N (d - 48))%Z ds 0%Z.

(** A number literal: [-? int frac? exp?], as the rational it denotes. *)
Definition parseNumber (s : jsstring) : option (number * jsstring) :=
  let '(negative, s1) := match s with
                         | 45%N :: t => (true, t)
                         | _ => (false, s)
                         end in
  match s1 with
  | d :: t =>
      if isDigit d then
        let '(int, s2) := if (d =? 48)%N then ([d], t) else takeDigits s1 in
        let fraction :=
          match s2 with
          | 46%N :: t2 =>
              match takeDigits t2 with
              | ([], _) => None
              | (fs, s3) => Some (fs, s3)
              end
          | _ => Some ([], s2)
          end in
        match fraction with
        | None => None
        | Some (fs, s3) =>
            let exponent :=
              match s3 with
              | e :: t3 =>
                  if ((e =? 101) || (e =? 69))%N then
                    let '(eneg, t4) := match t3 with
                                       | 45%N :: t' => (true, t')
                                       | 43%N :: t' => (false, t')
                                       | _ => (false, t3)
                                       end in
                    match takeDigits t4 with
                    | ([], _) => None
                    | (es, s4) =>
                        Some ((if eneg then - digitsValue es else digitsValue es)%Z, s4)
                    end
                  else Some (0%Z, s3)
              | [] => Some (0%Z, s3)
              end in
            match exponent with
            | None => None
            | Some (ex, s4) =>
                let mantissa :=
                  inject_Z (digitsValue (int ++ fs)) / inject_Z (10 ^ Z.of_nat (length fs)) in
                let value := mantissa * Qpower 10 ex in
                Some (if negative then - value else value, s4)
            end
        end
      else None
  | [] => None
  end.

Definition expect (lit : jsstring) (v : JSON) (s : jsstring) : option (JSON * jsstring) :=
  if startsWith s lit then Some (v, drop (length lit) s) else None.

(** [parseValue] reads a value at the start of [s]; [parseElements] and
    [parseMembers] read what follows an opening bracket or a comma.  Each
    call uses one unit of [fuel] and consumes at least one code unit before
    the next, so twice the length of the text is enough. *)
Fixpoint parseValue (fuel : nat) (s : jsstring) : option (JSON * jsstring) :=
  match fuel with
  | O => None
  | S fuel' =>
      match s with
      | [] => None
      | c :: s' =>
          if (c =? 123)%N then
            match skipWs s' with
            | 125%N :: rest => Some (JObj [], rest)
            | s1 => parseMembers fuel' s1 []
            end
          else if (c =? 91)%N then
            match skipWs s' with
            | 93%N :: rest => Some (JArr [], rest)
            | s1 => parseElements fuel' s1 []
            end
          else if (c =? 34)%N then
            match parseChars s' with
            | Some (str, rest) => Some (JStr str, rest)
            | None => None
            end
          else if (c =? 116)%N then expect (js "true") (JBool true) s
          else if (c =? 102)%N then expect (js "false") (JBool false) s
          else if (c =? 110)%N then expect (js "null") JNull s
          else
            match parseNumber s with
            | Some (n, rest) => Some (JNum n, rest)
            | None => None
            end
      end
  end
with parseElements (fuel : nat) (s : jsstring) (acc : list JSON) :
    option (JSON * jsstring) :=
  match fuel with
  | O => None
  | S fuel' =>
      match parseValue fuel' s with
      | Some (v, rest) =>
          match skipWs rest with
          | 44%N :: rest' => parseElements fuel' (skipWs rest') (acc ++ [v])
          | 93%N :: rest' => Some (JArr (acc ++ [v]), rest')
          | _ => None
          end
      | None => None
      end
  end
with parseMembers (fuel : nat) (s : jsstring) (acc : list (jsstring * JSON)) :
    option (JSON * jsstring) :=
  match fuel with
  | O => None
  | S fuel' =>
      match s with
      | 34%N :: s' =>
          match parseChars s' with
          | Some (key, rest) =>
              match skipWs rest with
              | 58%N :: rest' =>
                  match parseValue fuel' (skipWs rest') with
                  | Some (v, rest'') =>
                      match skipWs rest'' with
                      | 44%N :: r => parseMembers fuel' (skipWs r) (acc ++ [(key, v)])
                      | 125%N :: r => Some (JObj (acc ++ [(key, v)]), r)
                      | _ => None
                      end
                  | None => None
                  end
              | _ => None
              end
          | None => None
          end
      | _ => None
      end
  end.

Definition parse (text : jsstring) : option JSON :=
  match parseValue (2 * length text + 2) (skipWs text) with
  | Some (v, rest) =>
      match skipWs rest with
      | [] => Some v
      | _ => None
      end
  | None => None
  end.

(** *** Case mapping, logarithm, ids *)

Definition upper (s : jsstring) : jsstring :=
  map (fun c => if (97 <=? c) && (c <=? 122) then c - 32 else c)%N s.

Definition lower (s : jsstring) : jsstring :=
  map (fun c => if (65 <=? c) && (c <=? 90) then c + 32 else c)%N s.

(** Exact when [x] is a power of two. *)
Definition log2 (x : number) : number :=
  let r := Qred x in
  inject_Z (Z.log2 (Qnum r)) - inject_Z (Z.log2 (Z.pos (Qden r))).

(** The base-36 digits of a fraction, at most [n] of them, until nothing
    is left. *)
Fixpoint base36 (n : nat) (x : number) : jsstring :=
  match n with
  | O => []
  | S n' =>
      if Qeq_bool x 0 then []
      else
        let d := Qfloor (x * 36) in
        let c := (if (d <? 10)%Z then Z.to_N d + 48 else Z.to_N d + 87)%N in
        c :: base36 n' (x * 36 - inject_Z d)
  end.

#[export] Instance host : Host := {|
  Math_log2 := log2;
  Math_random_at := λ _, 1 # 2;
  base36_id := base36 9;
  Date_now := js "2024-01-01T00:00:00.000Z";
  toUpperCase := upper;
  toLowerCase := lower;
  JSON_parse := parse
|}.
End RefHost.

(** ** Sample inputs *)

(** The character U+1F600, a surrogate pair, and its two code units in the
    other order. *)
Definition grinningFace : jsstring := [0xD83D; 0xDE00]%N.
Definition loneSurrogates : jsstring := [0xDE00; 0xD83D]%N.


(** A record answered with NXDOMAIN. *)
Definition nxDomainQuery : DNSQuery.t :=
  {| DNSQuery.id := js "q1";
     DNSQuery.timestamp := js "2024-01-01T00:00:00.000Z";
     DNSQuery.sourceIp := js "192.168.50.1";
     DNSQuery.query := js "example.com";
     DNSQuery.type := js "A";
     DNSQuery.responseCode := Some (js "NXDOMAIN");
     DNSQuery.length := 11;
     DNSQuery.entropy := 3.096;
     DNSQuery.location := None;
     DNSQuery.lat := None;
     DNSQuery.lng := None;
     DNSQuery.label := Some Normal;
     DNSQuery.confidence := Some 0.85;
     DNSQuery.threatScore := 20;
     DNSQuery.reputation := Some CLEAN;
     DNSQuery.isNew := None;
     DNSQuery.metadata := None |}.

(** A field map whose query is 42 times the letter a, answered with NXDOMAIN
    to a NULL query from a blacklisted address. *)
Definition loudEntry : gmap jsstring jsstring :=
  {[ js "query" := replicate 42 97%N;
     js "rcode" := js "NXDOMAIN";
     js "type" := js "null";
     js "src_ip" := js "192.168.1.105" ]}.

(** A classifier input with a supplied score. *)
Definition borderlineQuery : PartialDNSQuery.t :=
  {| PartialDNSQuery.query := Some (js "example.com");
     PartialDNSQuery.length := Some 11;
     PartialDNSQuery.entropy := Some 3.096;
     PartialDNSQuery.threatScore := Some 75 |}.

(** A log entry that names the queried domain under the key [Question]. *)
Definition questionEntry : gmap jsstring jsstring :=
  {[ js "Question" := js "example.com" ]}.

(** A JSON text, written with an apostrophe for each double quote. *)
Definition json_text (s : string) : jsstring :=
  map (fun c => if (c =? 39)%N then 34%N else c) (js s).

(** A JSON document, a CSV file with a header row and two lines of JSON, in
    none of which a field is an alias of the query name; and two lines of free
    text, the second without a query token. *)
Definition hostDocument : jsstring := json_text "{'host':'example.com'}".

Definition hostCSV : jsstring :=
  js "timestamp,client_ip,hostname" ++ [newline] ++
  js "2024-01-01T00:00:00Z,10.0.0.1,example.com".

Definition hostLines : jsstring :=
  json_text "{'host':'a.example.com'}" ++ [newline] ++
  json_text "{'host':'b.example.com'}".

Definition textLog : jsstring :=
  js "2024-01-01T00:00:00Z 10.0.0.1 example.com TXT" ++ [newline] ++
  js "no query name here".

(* ================================================================== *)
(** * The callers: import handler, log view and geolocation service *)

(** ** Geolocation service ([services/geoService.ts]) *)

Module GeoData.
Record t := mk {
  location : jsstring;
  lat : option number;
  lng : option number
}.
End GeoData.

(** What the service reads of the body that [ipwho.is] answers:
    the truthiness of [data.success], the city and the country (strings when
    present) and the coordinates (numbers when present). *)
Module IpWhoIs.
Record t := mk {
  success : bool;
  city : option jsstring;
  country : option jsstring;
  latitude : option number;
  longitude : option number
}.
End IpWhoIs.

(** How the request of one lookup ends. *)
Inductive reply :=
| NetworkError                 (* [fetch] rejects *)
| HttpError                    (* [response.ok] is false *)
| BadBody                      (* [response.json()] rejects, or the body is [null] *)
| Body (data : IpWhoIs.t).

(** The names [geoCache], an object literal, inherits from
    [Object.prototype]: reading one of them gives a function (or the
    prototype itself), which is truthy. *)
Definition objectPrototypeKeys : list jsstring :=
  [js "constructor"; js "__defineGetter__"; js "__defineSetter__"; js "hasOwnProperty";
   js "__lookupGetter__"; js "__lookupSetter__"; js "isPrototypeOf";
   js "propertyIsEnumerable"; js "toString"; js "valueOf"; js "__proto__";
   js "toLocaleString"].

Definition geoCache : gmap jsstring GeoData.t :=
  {[ js "127.0.0.1" := GeoData.mk (js "Localhost") None None;
     js "192.168.1.1" := GeoData.mk (js "Local Network") None None ]}.

Definition privateNetwork : GeoData.t := GeoData.mk (js "Private Network") None None.
Definition unknownLocation : GeoData.t := GeoData.mk (js "Unknown") None None.

(** The template string of the location, with its fallback. *)
Definition locationText (data : IpWhoIs.t) : jsstring :=
  let text :=
    orElse (IpWhoIs.city data) [] ++
    (if truthy (IpWhoIs.city data) && truthy (IpWhoIs.country data) then js ", " else []) ++
    orElse (IpWhoIs.country data) [] in
  match text with
  | [] => js "Unknown"
  | _ => text
  end.

(** A call of [fetchGeolocation] up to its first [await]: it has answered, or
    it has answered with a member of [Object.prototype] (no geolocation data),
    or it waits for the reply to a request.  [resume] is the rest of the call:
    from the reply and the cache as it is by then, the answer and the cache
    it leaves. *)
Inductive lookup :=
| Answer (geo : GeoData.t)
| Inherited
| Await (url : jsstring)
        (resume : reply → gmap jsstring GeoData.t → GeoData.t * gmap jsstring GeoData.t).

(** The rest of a call of [fetchGeolocation] for [ip], from the reply on. *)
Definition fetchGeolocation_resume (ip : jsstring) (r : reply)
    (geoCache : gmap jsstring GeoData.t) : GeoData.t * gmap jsstring GeoData.t :=
  match r with
  | Body data =>
      if negb (IpWhoIs.success data) then (unknownLocation, geoCache)
      else
        let geoData :=
          GeoData.mk (locationText data) (IpWhoIs.latitude data) (IpWhoIs.longitude data) in
        (geoData, <[ip := geoData]> geoCache)
  | _ => (unknownLocation, geoCache)
  end.

(** [ip.startsWith('192.168.') || ip.startsWith('10.') || ip.startsWith('172.')]. *)
Definition privatePrefix (ip : jsstring) : bool :=
  startsWith ip (js "192.168.") || startsWith ip (js "10.") || startsWith ip (js "172.").

Definition fetchGeolocation (geoCache : gmap jsstring GeoData.t) (ip : jsstring) : lookup :=
  match geoCache !! ip with
  | Some geo => Answer geo
  | None =>
    if Array_includes objectPrototypeKeys ip then Inherited
    else
      (* Skip private IPs *)
      if privatePrefix ip then Answer privateNetwork
      else Await (js "https://ipwho.is/" ++ ip) (fetchGeolocation_resume ip)
  end.

(** A whole call against a network that answers [net url], nothing else
    touching the cache meanwhile: the answer, when there is one, and the new
    cache. *)
Definition lookupVia (net : jsstring → reply) (geoCache : gmap jsstring GeoData.t)
    (ip : jsstring) : option GeoData.t * gmap jsstring GeoData.t :=
  match fetchGeolocation geoCache ip with
  | Answer geo => (Some geo, geoCache)
  | Inherited => (None, geoCache)
  | Await url resume => let '(geo, geoCache') := resume (net url) geoCache in (Some geo, geoCache')
  end.

(** ** Enrichment of an imported record ([App.tsx], [onFileChange]) *)

(** [{ ...q, location }]. *)
Definition withLocation (q : DNSQuery.t) (location : jsstring) : DNSQuery.t :=
  DNSQuery.mk (DNSQuery.id q) (DNSQuery.timestamp q) (DNSQuery.sourceIp q)
    (DNSQuery.query q) (DNSQuery.type q) (DNSQuery.responseCode q)
    (DNSQuery.length q) (DNSQuery.entropy q) (Some location) (DNSQuery.lat q)
    (DNSQuery.lng q) (DNSQuery.label q) (DNSQuery.confidence q)
    (DNSQuery.threatScore q) (DNSQuery.reputation q) (DNSQuery.isNew q)
    (DNSQuery.metadata q).

(** [{ ...q, location: geo.location, lat: geo.lat, lng: geo.lng,
       threatScore: calculateThreatScore({ ...q, location: geo.location }) }]:
    the record the import handler stores once the lookup of its source address
    has answered [geo]. *)
Definition enrichWithGeo (q : DNSQuery.t) (geo : GeoData.t) : DNSQuery.t :=
  DNSQuery.mk (DNSQuery.id q) (DNSQuery.timestamp q) (DNSQuery.sourceIp q)
    (DNSQuery.query q) (DNSQuery.type q) (DNSQuery.responseCode q)
    (DNSQuery.length q) (DNSQuery.entropy q) (Some (GeoData.location geo))
    (GeoData.lat geo) (GeoData.lng geo) (DNSQuery.label q) (DNSQuery.confidence q)
    (calculateThreatScore (withLocation q (GeoData.location geo)))
    (DNSQuery.reputation q) (DNSQuery.isNew q) (DNSQuery.metadata q).

(** ** Alerts and application state ([types.ts], [App.tsx]) *)

Module AlertType.
Inductive t := TUNNELING_DETECTED | HIGH_ENTROPY | C2_PATTERN.
End AlertType.

Module Severity.
Inductive t := MEDIUM | HIGH | CRITICAL.
End Severity.

Module Alert.
Record t := mk {
  id : jsstring;
  timestamp : jsstring;
  type : AlertType.t;
  severity : Severity.t;
  message : jsstring;
  queryId : jsstring;
  isRead : bool
}.
End Alert.

Module ThreatLevel.
Inductive t := LOW | MEDIUM | HIGH | CRITICAL.
End ThreatLevel.

Module ForensicReport.
Record t := mk {
  summary : jsstring;
  threatLevel : ThreatLevel.t;
  indicators : list jsstring;
  timeline : list (jsstring * jsstring);
  recommendation : jsstring;
  detectedTunnels : list jsstring
}.
End ForensicReport.

Module View.
Inductive t := dashboard | logs | forensics | reports | live | alerts | map.
End View.

Module AppState.
Record t := mk {
  logs : list DNSQuery.t;
  liveLogs : list DNSQuery.t;
  alerts : list Alert.t;
  isAnalyzing : bool;
  isLive : bool;
  activeView : View.t;
  stats : option FeatureStats.t;
  report : option ForensicReport.t
}.
End AppState.

(** [log.threatScore > 80 ? 'C2_PATTERN'
      : (log.entropy > 4.5 ? 'HIGH_ENTROPY' : 'TUNNELING_DETECTED')]. *)
Definition alertType (log : DNSQuery.t) : AlertType.t :=
  if gt (DNSQuery.threatScore log) 80 then AlertType.C2_PATTERN
  else if gt (DNSQuery.entropy log) 4.5 then AlertType.HIGH_ENTROPY
  else AlertType.TUNNELING_DETECTED.

(** [log.threatScore > 85 ? 'CRITICAL' : (log.threatScore > 60 ? 'HIGH' : 'MEDIUM')]. *)
Definition alertSeverity (log : DNSQuery.t) : Severity.t :=
  if gt (DNSQuery.threatScore log) 85 then Severity.CRITICAL
  else if gt (DNSQuery.threatScore log) 60 then Severity.HIGH
  else Severity.MEDIUM.

(** [log.label === 'Tunneling']. *)
Definition isTunneling (log : DNSQuery.t) : bool :=
  match DNSQuery.label log with
  | Some Tunneling => true
  | _ => false
  end.

(** The alert the import handler builds for a record of an imported log. *)
Definition importedAlert `{Host} (log : DNSQuery.t) : State Alert.t :=
  r ← Math_random;
  mret {| Alert.id := base36_id r;
          Alert.timestamp := DNSQuery.timestamp log;
          Alert.type := alertType log;
          Alert.severity := alertSeverity log;
          Alert.message :=
            js "Suspicious activity detected in imported logs from " ++ DNSQuery.sourceIp log;
          Alert.queryId := DNSQuery.id log;
          Alert.isRead := false |}.

(** [parsedWithGeo.forEach(log => { if (log.label === 'Tunneling')
      newAlerts.unshift({ ... }) })]. *)
Fixpoint raiseAlerts `{Host} (parsedWithGeo : list DNSQuery.t) (newAlerts : list Alert.t) :
    State (list Alert.t) :=
  match parsedWithGeo with
  | [] => mret newAlerts
  | log :: rest =>
      if isTunneling log
      then a ← importedAlert log; raiseAlerts rest (a :: newAlerts)
      else raiseAlerts rest newAlerts
  end.

(** The state update of the import handler once the records are enriched. *)
Definition importLogs `{Host} (parsedWithGeo : list DNSQuery.t) (prev : AppState.t) :
    State AppState.t :=
  let newLogs := parsedWithGeo ++ AppState.logs prev in
  newAlerts ← raiseAlerts parsedWithGeo (AppState.alerts prev);
  mret {| AppState.logs := newLogs;
          AppState.liveLogs := AppState.liveLogs prev;
          AppState.alerts := take 100 newAlerts;
          AppState.isAnalyzing := false;
          AppState.isLive := AppState.isLive prev;
          AppState.activeView := AppState.activeView prev;
          AppState.stats := Some (getStats newLogs);
          AppState.report := AppState.report prev |}.

(** ** The filters of the log view ([App.tsx], [filteredLogs]) *)

Definition Reputation_string (r : Reputation) : jsstring :=
  match r with
  | CLEAN => js "CLEAN"
  | SUSPICIOUS => js "SUSPICIOUS"
  | MALICIOUS => js "MALICIOUS"
  | UNKNOWN => js "UNKNOWN"
  end.

Definition matchesThreat (filterThreat : jsstring) (log : DNSQuery.t) : bool :=
  strictEq filterThreat (js "ALL") ||
  (if strictEq filterThreat (js "CRITICAL") then gt (DNSQuery.threatScore log) 80
   else if strictEq filterThreat (js "HIGH") then gt (DNSQuery.threatScore log) 50
   else if strictEq filterThreat (js "MEDIUM") then gt (DNSQuery.threatScore log) 20
   else Qle_bool (DNSQuery.threatScore log) 20).

Definition filteredLogs `{Host} (logs : list DNSQuery.t)
    (searchTerm filterType filterRCode filterThreat filterReputation : jsstring) :
    list DNSQuery.t :=
  filter (fun log =>
            let matchesSearch :=
              includes (toLowerCase (DNSQuery.query log)) (toLowerCase searchTerm) ||
              includes (DNSQuery.sourceIp log) searchTerm ||
              includes (toLowerCase (DNSQuery.id log)) (toLowerCase searchTerm) in
            let matchesType :=
              strictEq filterType (js "ALL") || strictEq (DNSQuery.type log) filterType in
            let matchesRCode :=
              strictEq filterRCode (js "ALL") || optEq (DNSQuery.responseCode log) filterRCode in
            let matchesReputation :=
              strictEq filterReputation (js "ALL") ||
              optEq (Reputation_string <$> DNSQuery.reputation log) filterReputation in
            matchesSearch && matchesType && matchesRCode && matchesThreat filterThreat log &&
            matchesReputation = true)
         logs.

(** ** Notions used to state the further properties *)

(** [Array.isArray(parsed) ? parsed : [parsed]]. *)
Definition documentItems (parsed : JSON) : list JSON :=
  match parsed with
  | JArr items => items
  | _ => [parsed]
  end.

(** A cell of a CSV line: trimmed, one surrounding quote removed on each
    side. *)
Definition csvCell (p : jsstring) : jsstring := stripQuotes (trim p).

(** A group of one to three decimal digits. *)
Definition digitGroup (g : jsstring) : bool := matchesDigits g && (length g <=? 3)%nat.

(** The part of a name before its first dot. *)
Fixpoint leadingLabel (s : jsstring) : jsstring :=
  match s with
  | [] => []
  | c :: s' => if (c =? dot)%N then [] else c :: leadingLabel s'
  end.

(** The reply is no successful body. *)
Definition failed (r : reply) : bool :=
  match r with
  | Body data => negb (IpWhoIs.success data)
  | _ => true
  end.

(** ** Further sample inputs *)

(** A record without a location whose factors add up to just below 56.5. *)
Definition tippingQuery : DNSQuery.t :=
  {| DNSQuery.id := js "q7";
     DNSQuery.timestamp := js "2024-01-01T00:00:00.000Z";
     DNSQuery.sourceIp := js "45.33.22.11";
     DNSQuery.query := js "example.com";
     DNSQuery.type := js "NULL";
     DNSQuery.responseCode := Some (js "SERVFAIL");
     DNSQuery.length := 11;
     DNSQuery.entropy := Binary64.round 3.55;
     DNSQuery.location := None;
     DNSQuery.lat := None;
     DNSQuery.lng := None;
     DNSQuery.label := Some Normal;
     DNSQuery.confidence := Some 0.9;
     DNSQuery.threatScore := 0;
     DNSQuery.reputation := Some MALICIOUS;
     DNSQuery.isNew := None;
     DNSQuery.metadata := None |}.

(** A record of length 48 without a location, from a clean local source, for
    a given entropy. *)
Definition longerQuery (entropy : number) : DNSQuery.t :=
  {| DNSQuery.id := js "q8";
     DNSQuery.timestamp := js "2024-01-01T00:00:00.000Z";
     DNSQuery.sourceIp := js "192.168.1.1";
     DNSQuery.query := js "example.com";
     DNSQuery.type := js "A";
     DNSQuery.responseCode := Some (js "NOERROR");
     DNSQuery.length := 48;
     DNSQuery.entropy := entropy;
     DNSQuery.location := None;
     DNSQuery.lat := None;
     DNSQuery.lng := None;
     DNSQuery.label := Some Normal;
     DNSQuery.confidence := Some 0.9;
     DNSQuery.threatScore := 0;
     DNSQuery.reputation := Some CLEAN;
     DNSQuery.isNew := None;
     DNSQuery.metadata := None |}.

(** [nxDomainQuery] with a longer, more random name. *)
Definition noisierQuery : DNSQuery.t :=
  DNSQuery.mk (DNSQuery.id nxDomainQuery) (DNSQuery.timestamp nxDomainQuery)
    (DNSQuery.sourceIp nxDomainQuery) (DNSQuery.query nxDomainQuery)
    (DNSQuery.type nxDomainQuery) (DNSQuery.responseCode nxDomainQuery)
    62 4.4 (DNSQuery.location nxDomainQuery) (DNSQuery.lat nxDomainQuery)
    (DNSQuery.lng nxDomainQuery) (DNSQuery.label nxDomainQuery)
    (DNSQuery.confidence nxDomainQuery) (DNSQuery.threatScore nxDomainQuery)
    (DNSQuery.reputation nxDomainQuery) (DNSQuery.isNew nxDomainQuery)
    (DNSQuery.metadata nxDomainQuery).

(** [nxDomainQuery] asked for another name. *)
Definition askedFor (query : jsstring) : DNSQuery.t :=
  DNSQuery.mk (DNSQuery.id nxDomainQuery) (DNSQuery.timestamp nxDomainQuery)
    (DNSQuery.sourceIp nxDomainQuery) query
    (DNSQuery.type nxDomainQuery) (DNSQuery.responseCode nxDomainQuery)
    (DNSQuery.length nxDomainQuery) (DNSQuery.entropy nxDomainQuery)
    (DNSQuery.location nxDomainQuery) (DNSQuery.lat nxDomainQuery)
    (DNSQuery.lng nxDomainQuery) (DNSQuery.label nxDomainQuery)
    (DNSQuery.confidence nxDomainQuery) (DNSQuery.threatScore nxDomainQuery)
    (DNSQuery.reputation nxDomainQuery) (DNSQuery.isNew nxDomainQuery)
    (DNSQuery.metadata nxDomainQuery).

(** Log entries: one with a query name only, one sent by a public resolver
    and one by a host of a private network. *)
Definition queryOnly : gmap jsstring jsstring :=
  {[ js "query" := js "example.com" ]}.

Definition fromResolver : gmap jsstring jsstring :=
  {[ js "query" := js "example.com"; js "sourceIp" := js "8.8.8.8" ]}.

Definition fromGateway : gmap jsstring jsstring :=
  {[ js "query" := js "example.com"; js "sourceIp" := js "10.0.0.5" ]}.

(** Two comment lines around a blank one; a JSON array of two entries, the
    second without any alias of the query name. *)
Definition commentsOnly : jsstring :=
  js "# exported by the resolver" ++ [newline] ++ js "   " ++ [newline] ++ js "# no entries".

Definition documentOfTwo : jsstring :=
  json_text "[{'query':'a.example.com'},{'host':'b.example.com'}]".

(** A body of the geolocation API. *)
Definition moscow : IpWhoIs.t :=
  IpWhoIs.mk true (Some (js "Moscow")) (Some (js "Russia")) (Some 55.75) (Some 37.62).

(* ================================================================== *)
(** * Properties *)

(** ** Strings and numbers *)

Lemma strictEq_true (a b : jsstring) : strictEq a b = true ↔ a = b.
Proof. unfold strictEq. apply bool_decide_eq_true. Qed.

Lemma startsWith_prefix (s p : jsstring) : startsWith s p = true ↔ p `prefix_of` s.
Proof.
  revert s. induction p as [|x p IH]; intros s; simpl.
  - split; [intros _; apply prefix_nil | reflexivity].
  - destruct s as [|c s].
    + split; [discriminate | intros Hp; apply prefix_nil_inv in Hp; discriminate].
    + rewrite andb_true_iff, N.eqb_eq, IH. split.
      * intros [-> Hp]. by apply prefix_cons.
      * intros Hp. split; [symmetry; by eapply prefix_cons_inv_1 | by eapply prefix_cons_inv_2].
Qed.

Lemma Array_includes_elem_of (arr : list jsstring) (x : jsstring) :
  Array_includes arr x = true ↔ x ∈ arr.
Proof.
  unfold Array_includes. rewrite existsb_exists. split.
  - intros (y & Hy & Heq). apply strictEq_true in Heq. subst. by apply list_elem_of_In.
  - intros Hx. exists x. split; [by apply list_elem_of_In | by apply strictEq_true].
Qed.

Lemma gt_true (x y : number) : gt x y = true ↔ y < x.
Proof.
  unfold gt. rewrite negb_true_iff, <- not_true_iff_false, Qle_bool_iff. split.
  - apply Qnot_le_lt.
  - apply Qlt_not_le.
Qed.

Lemma gt_false (x y : number) : gt x y = false ↔ x <= y.
Proof.
  unfold gt. rewrite negb_false_iff, Qle_bool_iff. reflexivity.
Qed.

(** ** Reputation Checker *)

(** C7: the lookup order of [checkIpReputation] (malicious list, then
    suspicious list, then the private prefix, then UNKNOWN), and its value at
    the three addresses the specification names. *)
Theorem checkIpReputation_lookup_order :
  (∀ ip : jsstring,
      checkIpReputation ip =
        if decide (ip ∈ maliciousIps) then MALICIOUS
        else if decide (ip ∈ suspiciousIps) then SUSPICIOUS
        else if decide (js "192.168." `prefix_of` ip) then CLEAN
        else UNKNOWN)
  ∧ checkIpReputation (js "192.168.1.105") = MALICIOUS
  ∧ checkIpReputation (js "192.168.50.1") = CLEAN
  ∧ checkIpReputation (js "8.8.8.8") = UNKNOWN.
Proof.
  split; [| repeat split; vm_compute; reflexivity].
  intros ip. unfold checkIpReputation.
  destruct (Array_includes maliciousIps ip) eqn:Hm.
  { apply Array_includes_elem_of in Hm. by rewrite decide_True. }
  rewrite decide_False by (rewrite <- Array_includes_elem_of; congruence).
  destruct (Array_includes suspiciousIps ip) eqn:Hs.
  { apply Array_includes_elem_of in Hs. by rewrite decide_True. }
  rewrite decide_False by (rewrite <- Array_includes_elem_of; congruence).
  destruct (startsWith ip (js "192.168.")) eqn:Hp.
  { apply startsWith_prefix in Hp. by rewrite decide_True. }
  rewrite decide_False by (rewrite <- startsWith_prefix; congruence).
  reflexivity.
Qed.

(** ** Threat Scorer *)

Section ThreatScore.
Import ThreatSpec.

Lemma optEq_decide (o : option jsstring) (lit : jsstring) :
  optEq o lit = bool_decide (o = Some lit).
Proof.
  destruct o as [s|]; simpl.
  - unfold strictEq. apply bool_decide_ext. split; congruence.
  - reflexivity.
Qed.

Lemma entropy_step (score e : number) :
  (if gt e 3.5 then score + Math_min 40 ((e - 3.5) * 30) else score)
  == score + entropyFactor e.
Proof.
  unfold gt, entropyFactor, Math_min. destruct (Qle_bool e 3.5); simpl; ring.
Qed.

Lemma length_step (score l : number) :
  (if gt l 40 then score + Math_min 20 ((l - 40) * 0.5) else score)
  == score + lengthFactor l.
Proof.
  unfold gt, lengthFactor, Math_min. destruct (Qle_bool l 40); simpl; ring.
Qed.

Lemma responseCode_step (score : number) (rc : option jsstring) :
  (if optEq rc (js "NXDOMAIN") then score + 15
   else if optEq rc (js "SERVFAIL") then score + 10 else score)
  == score + responseCodeFactor rc.
Proof.
  unfold responseCodeFactor. rewrite !optEq_decide.
  repeat case_bool_decide; repeat case_decide; try congruence; ring.
Qed.

Lemma queryType_step (score : number) (ty : jsstring) :
  (if strictEq ty (js "TXT") then score + 10
   else if strictEq ty (js "NULL") then score + 15 else score)
  == score + queryTypeFactor ty.
Proof.
  unfold queryTypeFactor, strictEq.
  repeat case_bool_decide; repeat case_decide; try congruence; ring.
Qed.

Lemma highRisk_code (loc : option jsstring) :
  truthy loc && existsb (fun l => includes (default [] loc) l) highRiskLocations
  = highRisk loc.
Proof. by destruct loc as [[|c s]|]. Qed.

Lemma geo_step (score : number) (loc : option jsstring) :
  (if truthy loc && existsb (fun l => includes (default [] loc) l) highRiskLocations
   then score + 15
   else if negb (truthy loc) || optEq loc (js "Resolving...") then score + 5
   else score)
  == score + geoFactor_falsy loc.
Proof.
  rewrite highRisk_code. unfold geoFactor_falsy.
  destruct (highRisk loc); [ring|].
  rewrite optEq_decide.
  case_decide as Hd.
  - replace (negb (truthy loc) || bool_decide (loc = Some (js "Resolving...")))
      with true; [ring|].
    symmetry. destruct Hd as [-> | [-> | ->]]; reflexivity.
  - replace (negb (truthy loc) || bool_decide (loc = Some (js "Resolving...")))
      with false; [ring|].
    symmetry. apply orb_false_iff. split.
    + destruct loc as [[|c s]|]; [exfalso; auto | reflexivity | exfalso; auto].
    + apply bool_decide_eq_false. auto.
Qed.

Lemma reputation_step (score : number) (rep : option Reputation) :
  match rep with
  | Some MALICIOUS => score + 25
  | Some SUSPICIOUS => score + 15
  | _ => score
  end == score + reputationFactor rep.
Proof. destruct rep as [[]|]; simpl; ring. Qed.

Lemma entropyFactor_nonneg (e : number) : 0 <= entropyFactor e.
Proof.
  unfold entropyFactor. destruct (Qle_bool e 3.5) eqn:He; [lra|].
  assert (3.5 < e) by (apply gt_true; unfold gt; by rewrite He).
  apply Q.min_glb; lra.
Qed.

Lemma lengthFactor_nonneg (l : number) : 0 <= lengthFactor l.
Proof.
  unfold lengthFactor. destruct (Qle_bool l 40) eqn:Hl; [lra|].
  assert (40 < l) by (apply gt_true; unfold gt; by rewrite Hl).
  apply Q.min_glb; lra.
Qed.

Lemma sumOfFactors_nonneg (q : DNSQuery.t) : 0 <= sumOfFactors geoFactor_falsy q.
Proof.
  unfold sumOfFactors.
  pose proof (entropyFactor_nonneg (DNSQuery.entropy q)).
  pose proof (lengthFactor_nonneg (DNSQuery.length q)).
  assert (0 <= responseCodeFactor (DNSQuery.responseCode q))
    by (unfold responseCodeFactor; repeat case_decide; lra).
  assert (0 <= queryTypeFactor (DNSQuery.type q))
    by (unfold queryTypeFactor; repeat case_decide; lra).
  assert (0 <= geoFactor_falsy (DNSQuery.location q))
    by (unfold geoFactor_falsy; destruct (highRisk _); repeat case_decide; lra).
  assert (0 <= reputationFactor (DNSQuery.reputation q))
    by (destruct (DNSQuery.reputation q) as [[]|]; simpl; lra).
  lra.
Qed.

(** The running [score] of the code is the sum of the six factors. *)
Lemma calculateThreatScore_sum (q : DNSQuery.t) :
  calculateThreatScore q = threatScore geoFactor_falsy q.
Proof.
  unfold calculateThreatScore, threatScore, Math_round, Math_min at 3.
  f_equal. f_equal. apply Qfloor_comp. apply Qplus_comp; [|reflexivity].
  rewrite reputation_step, geo_step, queryType_step, responseCode_step,
    length_step, entropy_step.
  unfold sumOfFactors. ring.
Qed.
End ThreatScore.

(** *** Binary64 rounding *)

Lemma Qdiv_le_cross (A B a b : Z) :
  (0 < B)%Z → (0 < b)%Z → (A * b ≤ a * B)%Z →
  inject_Z A / inject_Z B <= inject_Z a / inject_Z b.
Proof.
  intros HB Hb Hle.
  assert (0 < inject_Z B) as HB' by (change 0 with (inject_Z 0); by rewrite <- Zlt_Qlt).
  assert (0 < inject_Z b) as Hb' by (change 0 with (inject_Z 0); by rewrite <- Zlt_Qlt).
  apply Qle_shift_div_l; [done|]. 
  assert (inject_Z A / inject_Z B * inject_Z b == inject_Z A * inject_Z b / inject_Z B) as ->
    by (field; lra).
  apply Qle_shift_div_r; [done|].
  rewrite <- !inject_Z_mult, <- Zle_Qle. done.
Qed.

Lemma pow2_pos (e : Z) : 0 < 2 ^ e.
Proof. apply Qpower_0_lt. reflexivity. Qed.

Lemma pow2_inject (n : Z) : (0 ≤ n)%Z → 2 ^ n == inject_Z (2 ^ n).
Proof. intros Hn. by rewrite Zpower_Qpower. Qed.

(** The exponent found is that of a power of two below the number. *)
Lemma exponent_lower (x : number) : 0 < x → 2 ^ Binary64.exponent x <= x.
Proof.
  intros Hx. unfold Binary64.exponent.
  destruct (Qle_bool _ x) eqn:Hd; [by apply Qle_bool_iff|].
  destruct x as [a b]. cbn [Qnum Qden].
  assert (0 < a)%Z as Ha by (unfold Qlt in Hx; simpl in Hx; lia).
  destruct (Z.log2_spec a Ha) as [Ha1 _].
  destruct (Z.log2_spec (Z.pos b) ltac:(lia)) as [_ Hb2].
  pose proof (Z.log2_nonneg a). pose proof (Z.log2_nonneg (Z.pos b)).
  replace (Z.log2 a - Z.log2 (Z.pos b) - 1)%Z
    with (Z.log2 a - Z.succ (Z.log2 (Z.pos b)))%Z by lia.
  rewrite Qpower_minus by discriminate.
  rewrite !pow2_inject by lia. rewrite (Qmake_Qdiv a b).
  apply Qdiv_le_cross; [apply Z.pow_pos_nonneg; lia | lia |].
  assert (0 < 2 ^ Z.log2 a)%Z by (apply Z.pow_pos_nonneg; lia).
  nia.
Qed.

(** Rounding to an integer moves a number by at most one half. *)
Lemma nearestEven_error (z : number) :
  inject_Z (Binary64.nearestEven z) - (1 # 2) <= z
  ∧ z <= inject_Z (Binary64.nearestEven z) + (1 # 2).
Proof.
  unfold Binary64.nearestEven.
  pose proof (Qfloor_le z) as Hlo. pose proof (Qlt_floor z) as Hhi.
  rewrite inject_Z_plus in Hhi. change (inject_Z 1) with 1 in Hhi.
  destruct (Qcompare_spec (z - inject_Z (Qfloor z)) (1 # 2)) as [Heq|Hlt|Hgt].
  - destruct (Z.even (Qfloor z)).
    + split; lra.
    + rewrite inject_Z_plus. change (inject_Z 1) with 1. split; lra.
  - split; lra.
  - rewrite inject_Z_plus. change (inject_Z 1) with 1. split; lra.
Qed.

Lemma nearestEven_nonneg (z : number) : 0 <= z → (0 ≤ Binary64.nearestEven z)%Z.
Proof.
  intros Hz. unfold Binary64.nearestEven.
  assert (0 ≤ Qfloor z)%Z by (change 0%Z with (Qfloor 0); by apply Qfloor_resp_le).
  destruct (Qcompare _ _); [destruct (Z.even _)| |]; lia.
Qed.

Lemma ulp_pos (x : number) : 0 < Binary64.ulp x.
Proof. apply pow2_pos. Qed.

(** Half the spacing around [x] is at most [x * 2^-53], or 2^-1075 among
    the subnormals. *)
Lemma ulp_half (x : number) :
  0 < x → Binary64.ulp x / 2 <= x * Binary64.unitRoundoff + Binary64.tiny.
Proof.
  intros Hx. unfold Binary64.ulp, Binary64.tiny.
  assert (Binary64.unitRoundoff == 1 / 2 ^ 53) as -> by reflexivity.
  pose proof (exponent_lower x Hx) as He.
  pose proof (pow2_pos (Binary64.exponent x)) as Hp.
  assert (0 < 2 ^ 53) as H53 by apply pow2_pos.
  assert (0 < 2 ^ 1075) as H1075 by apply pow2_pos.
  assert (0 <= x * (1 / 2 ^ 53)) by (apply Qmult_le_0_compat; [lra | apply Qlt_le_weak, Qlt_shift_div_l; lra]).
  assert (0 <= 1 / 2 ^ 1075) by (apply Qlt_le_weak, Qlt_shift_div_l; lra).
  destruct (Z.max_spec (Binary64.exponent x - 52) (-1074)) as [[_ ->]|[_ ->]].
  - assert (2 ^ (-1074) / 2 == 1 / 2 ^ 1075) as -> by reflexivity. lra.
  - rewrite Qpower_minus by discriminate.
    assert (2 ^ 53 == 2 ^ 52 * 2) as H5253 by reflexivity.
    assert (0 < 2 ^ 52) as H52 by apply pow2_pos.
    rewrite H5253 in *. set (P := 2 ^ 52) in *. set (E := 2 ^ Binary64.exponent x) in *.
    assert (E / P / 2 == E * (1 / (P * 2))) as -> by (field; lra).
    assert (E * (1 / (P * 2)) <= x * (1 / (P * 2))); [|lra].
    apply Qmult_le_compat_r; [done|]. apply Qlt_le_weak, Qlt_shift_div_l; lra.
Qed.

Lemma roundPositive_error (x : number) :
  0 < x →
  x - (x * Binary64.unitRoundoff + Binary64.tiny) <= Binary64.roundPositive x
  ∧ Binary64.roundPositive x <= x + (x * Binary64.unitRoundoff + Binary64.tiny).
Proof.
  intros Hx. unfold Binary64.roundPositive.
  pose proof (ulp_pos x) as HU. pose proof (ulp_half x Hx) as Hhalf.
  destruct (nearestEven_error (x / Binary64.ulp x)) as [Hlo Hhi].
  set (n := inject_Z (Binary64.nearestEven (x / Binary64.ulp x))) in *.
  set (U := Binary64.ulp x) in *.
  assert (x == x / U * U) as Hx' by (field; lra).
  assert ((n - (1 # 2)) * U <= x / U * U) by (apply Qmult_le_compat_r; lra).
  assert (x / U * U <= (n + (1 # 2)) * U) by (apply Qmult_le_compat_r; lra).
  set (y := x / U * U) in *. clearbody n U y.
  set (err := x * Binary64.unitRoundoff + Binary64.tiny) in *. clearbody err.
  assert ((n - (1 # 2)) * U == n * U - U / 2) as E1 by (field).
  assert ((n + (1 # 2)) * U == n * U + U / 2) as E2 by (field).
  rewrite E1 in H. rewrite E2 in H0. set (p := n * U) in *. clearbody p.
  split; lra.
Qed.

(** The error of one rounding. *)
Lemma round_error (x : number) :
  0 <= x →
  x - (x * Binary64.unitRoundoff + Binary64.tiny) <= Binary64.round x
  ∧ Binary64.round x <= x + (x * Binary64.unitRoundoff + Binary64.tiny).
Proof.
  intros Hx. unfold Binary64.round.
  destruct (Qcompare_spec x 0) as [Heq|Hlt|Hgt].
  - rewrite Heq. split; vm_compute; discriminate.
  - lra.
  - by apply roundPositive_error.
Qed.

Lemma round_nonneg (x : number) : 0 <= x → 0 <= Binary64.round x.
Proof.
  intros Hx. unfold Binary64.round.
  destruct (Qcompare_spec x 0) as [Heq|Hlt|Hgt]; [lra | lra |].
  unfold Binary64.roundPositive. apply Qmult_le_0_compat; [|apply Qlt_le_weak, ulp_pos].
  change 0 with (inject_Z 0). rewrite <- Zle_Qle. apply nearestEven_nonneg.
  apply Qle_shift_div_l; [apply ulp_pos | lra].
Qed.

Lemma tiny_small : 0 <= Binary64.tiny ∧ Binary64.tiny <= 1 # 1267650600228229401496703205376.
Proof. split; vm_compute; discriminate. Qed.

(** A sum below 256 is rounded by less than 2^-44. *)
Lemma add_near (s f : number) :
  0 <= s → 0 <= f → s + f <= 256 →
  s + f - (1 # 17592186044416) <= Binary64.add s f
  ∧ Binary64.add s f <= s + f + (1 # 17592186044416)
  ∧ 0 <= Binary64.add s f.
Proof.
  intros Hs Hf Hb. unfold Binary64.add.
  destruct (round_error (s + f) ltac:(lra)) as [Hlo Hhi].
  pose proof (round_nonneg (s + f) ltac:(lra)).
  destruct tiny_small. unfold Binary64.unitRoundoff in *.
  set (r := Binary64.round (s + f)) in *. clearbody r.
  set (t := Binary64.tiny) in *. clearbody t.
  repeat split; lra.
Qed.

(** The entropy and length factors, [Math.min(cap, (v - threshold) * c)],
    computed in binary64 and exactly. *)
Lemma scaled_factor_near (x c cap : number) :
  0 < x → 0 < c → c <= 30 → 0 < cap → cap <= 40 →
  Qmin cap (x * c) - (1 # 17592186044416)
    <= Math_min cap (Binary64.mul (Binary64.round x) c)
  ∧ Math_min cap (Binary64.mul (Binary64.round x) c)
    <= Qmin cap (x * c) + (1 # 17592186044416)
  ∧ 0 <= Math_min cap (Binary64.mul (Binary64.round x) c).
Proof.
  intros Hx Hc Hc30 Hcap Hcap40. unfold Math_min, Binary64.mul.
  destruct (round_error x ltac:(lra)) as [H1lo H1hi].
  pose proof (round_nonneg x ltac:(lra)) as H1nn.
  set (t1 := Binary64.round x) in *. clearbody t1.
  assert (0 <= t1 * c) as Hprod by (apply Qmult_le_0_compat; lra).
  destruct (round_error (t1 * c) Hprod) as [H2lo H2hi].
  pose proof (round_nonneg (t1 * c) Hprod) as H2nn.
  set (t2 := Binary64.round (t1 * c)) in *. clearbody t2.
  destruct tiny_small as [Ht0 Ht1]. unfold Binary64.unitRoundoff in *.
  set (t := Binary64.tiny) in *. clearbody t.
  set (p := t1 * c) in *.
  assert (p <= (x + (x * (1 # 9007199254740992) + t)) * c) as Hp1
    by (apply Qmult_le_compat_r; lra).
  assert ((x - (x * (1 # 9007199254740992) + t)) * c <= p) as Hp2
    by (apply Qmult_le_compat_r; lra).
  clearbody p.
  set (X := x * c) in *.
  assert ((x + (x * (1 # 9007199254740992) + t)) * c == X + X * (1 # 9007199254740992) + t * c)
    as E1 by (unfold X; ring).
  assert ((x - (x * (1 # 9007199254740992) + t)) * c == X - X * (1 # 9007199254740992) - t * c)
    as E2 by (unfold X; ring).
  rewrite E1 in Hp1. rewrite E2 in Hp2.
  assert (0 <= t * c) by (apply Qmult_le_0_compat; lra).
  assert (t * c <= t * 30)
    by (rewrite (Qmult_comm t c), (Qmult_comm t 30); apply Qmult_le_compat_r; lra).
  assert (0 < X) by (unfold X; apply Qmult_lt_0_compat; lra).
  set (tc := t * c) in *. clearbody tc X.
  destruct (Q.min_spec cap t2) as [[Hm1 Em1]|[Hm1 Em1]],
           (Q.min_spec cap X) as [[Hm2 Em2]|[Hm2 Em2]];
    rewrite Em1, Em2; repeat split; try lra.
Qed.

Lemma add_step_near (s S eps bound k : number) :
  near s S eps bound → 0 <= k → k <= 40 → eps <= 1 → bound <= 200 →
  near (Binary64.add s k) (S + k) (eps + (1 # 17592186044416)) (bound + k).
Proof.
  unfold near. intros (H1 & H2 & H3 & H4 & H5) Hk Hk40 Heps Hb.
  destruct (add_near s k H3 Hk ltac:(lra)) as (Ha1 & Ha2 & Ha3).
  set (a := Binary64.add s k) in *. clearbody a. repeat split; lra.
Qed.

Lemma near_weaken (s S eps eps' bound bound' : number) :
  near s S eps bound → eps <= eps' → bound <= bound' → near s S eps' bound'.
Proof. unfold near. intros (H1 & H2 & H3 & H4 & H5) He Hb. repeat split; lra. Qed.

Lemma near_comp (s S S' eps bound : number) :
  S == S' → near s S eps bound → near s S' eps bound.
Proof. unfold near. intros HS (H1 & H2 & H3 & H4 & H5). repeat split; lra. Qed.

Lemma entropy_step_near (e : number) :
  near (if gt e 3.5
        then Binary64.add 0 (Math_min 40 (Binary64.mul (Binary64.sub e 3.5) 30))
        else 0)
       (ThreatSpec.entropyFactor e) (2 # 17592186044416) 40.
Proof.
  unfold ThreatSpec.entropyFactor, gt.
  destruct (Qle_bool e 3.5) eqn:He; cbn [negb].
  - unfold near. repeat split; lra.
  - assert (3.5 < e) as Hgt by (apply gt_true; unfold gt; by rewrite He).
    destruct (scaled_factor_near (e - 3.5) 30 40) as (F1 & F2 & F3); try lra.
    fold (Binary64.sub e 3.5) in F1, F2, F3.
    set (f := Math_min 40 (Binary64.mul (Binary64.sub e 3.5) 30)) in *.
    assert (f <= 40) as Hf40 by (unfold f, Math_min; apply Q.le_min_l).
    destruct (add_near 0 f ltac:(lra) F3 ltac:(lra)) as (Ha1 & Ha2 & Ha3).
    assert (0 <= Qmin 40 ((e - 3.5) * 30)) by (apply Q.min_glb; lra).
    assert (Qmin 40 ((e - 3.5) * 30) <= 40) by apply Q.le_min_l.
    set (a := Binary64.add 0 f) in *. clearbody a f.
    set (F := Qmin 40 ((e - 3.5) * 30)) in *. clearbody F.
    unfold near. repeat split; lra.
Qed.

Lemma length_step_near (s S eps bound l : number) :
  near s S eps bound → eps <= 1 → bound <= 200 →
  near (if gt l 40
        then Binary64.add s (Math_min 20 (Binary64.mul (Binary64.sub l 40) 0.5))
        else s)
       (S + ThreatSpec.lengthFactor l) (eps + (2 # 17592186044416)) (bound + 20).
Proof.
  intros Hs Heps Hb. unfold ThreatSpec.lengthFactor, gt.
  destruct (Qle_bool l 40) eqn:Hl; cbn [negb].
  - eapply near_comp; [|eapply near_weaken; [exact Hs | lra | lra]]. ring.
  - assert (40 < l) as Hgt by (apply gt_true; unfold gt; by rewrite Hl).
    destruct (scaled_factor_near (l - 40) 0.5 20) as (F1 & F2 & F3); try lra.
    fold (Binary64.sub l 40) in F1, F2, F3.
    set (f := Math_min 20 (Binary64.mul (Binary64.sub l 40) 0.5)) in *.
    assert (f <= 20) as Hf by (unfold f, Math_min; apply Q.le_min_l).
    unfold near in Hs. destruct Hs as (H1 & H2 & H3 & H4 & H5).
    destruct (add_near s f H3 F3 ltac:(lra)) as (Ha1 & Ha2 & Ha3).
    assert (0 <= Qmin 20 ((l - 40) * 0.5)) by (apply Q.min_glb; lra).
    assert (Qmin 20 ((l - 40) * 0.5) <= 20) by apply Q.le_min_l.
    set (a := Binary64.add s f) in *. clearbody a f.
    set (F := Qmin 20 ((l - 40) * 0.5)) in *. clearbody F.
    unfold near. repeat split; lra.
Qed.

Lemma responseCode_step_near (s S eps bound : number) (rc : option jsstring) :
  near s S eps bound → eps <= 1 → bound <= 200 →
  near (if optEq rc (js "NXDOMAIN") then Binary64.add s 15
        else if optEq rc (js "SERVFAIL") then Binary64.add s 10 else s)
       (S + ThreatSpec.responseCodeFactor rc) (eps + (1 # 17592186044416)) (bound + 15).
Proof.
  intros Hs Heps Hb. unfold ThreatSpec.responseCodeFactor. rewrite !optEq_decide.
  repeat case_bool_decide; repeat case_decide; try congruence.
  - eapply near_weaken; [apply add_step_near; [exact Hs | lra..] | lra | lra].
  - eapply near_weaken; [apply add_step_near; [exact Hs | lra..] | lra | lra].
  - eapply near_comp; [|eapply near_weaken; [exact Hs | lra | lra]]. ring.
Qed.

Lemma queryType_step_near (s S eps bound : number) (ty : jsstring) :
  near s S eps bound → eps <= 1 → bound <= 200 →
  near (if strictEq ty (js "TXT") then Binary64.add s 10
        else if strictEq ty (js "NULL") then Binary64.add s 15 else s)
       (S + ThreatSpec.queryTypeFactor ty) (eps + (1 # 17592186044416)) (bound + 15).
Proof.
  intros Hs Heps Hb. unfold ThreatSpec.queryTypeFactor, strictEq.
  repeat case_bool_decide; repeat case_decide; try congruence.
  - eapply near_weaken; [apply add_step_near; [exact Hs | lra..] | lra | lra].
  - eapply near_weaken; [apply add_step_near; [exact Hs | lra..] | lra | lra].
  - eapply near_comp; [|eapply near_weaken; [exact Hs | lra | lra]]. ring.
Qed.

Lemma geo_step_near (s S eps bound : number) (loc : option jsstring) :
  near s S eps bound → eps <= 1 → bound <= 200 →
  near (if truthy loc && existsb (fun l => includes (default [] loc) l) highRiskLocations
        then Binary64.add s 15
        else if negb (truthy loc) || optEq loc (js "Resolving...") then Binary64.add s 5
        else s)
       (S + ThreatSpec.geoFactor_falsy loc) (eps + (1 # 17592186044416)) (bound + 15).
Proof.
  intros Hs Heps Hb. rewrite highRisk_code. unfold ThreatSpec.geoFactor_falsy.
  destruct (ThreatSpec.highRisk loc).
  { eapply near_weaken; [apply add_step_near; [exact Hs | lra..] | lra | lra]. }
  rewrite optEq_decide. case_decide as Hd.
  - replace (negb (truthy loc) || bool_decide (loc = Some (js "Resolving...")))
      with true by (symmetry; destruct Hd as [-> | [-> | ->]]; reflexivity).
    eapply near_weaken; [apply add_step_near; [exact Hs | lra..] | lra | lra].
  - replace (negb (truthy loc) || bool_decide (loc = Some (js "Resolving...")))
      with false.
    + eapply near_comp; [|eapply near_weaken; [exact Hs | lra | lra]]. ring.
    + symmetry. apply orb_false_iff. split.
      * destruct loc as [[|c l]|]; [exfalso; auto | reflexivity | exfalso; auto].
      * apply bool_decide_eq_false. auto.
Qed.

Lemma reputation_step_near (s S eps bound : number) (rep : option Reputation) :
  near s S eps bound → eps <= 1 → bound <= 200 →
  near (match rep with
        | Some MALICIOUS => Binary64.add s 25
        | Some SUSPICIOUS => Binary64.add s 15
        | _ => s
        end)
       (S + ThreatSpec.reputationFactor rep) (eps + (1 # 17592186044416)) (bound + 25).
Proof.
  intros Hs Heps Hb. destruct rep as [[]|]; cbn [ThreatSpec.reputationFactor].
  - eapply near_comp; [|eapply near_weaken; [exact Hs | lra | lra]]. ring.
  - eapply near_weaken; [apply add_step_near; [exact Hs | lra..] | lra | lra].
  - eapply near_weaken; [apply add_step_near; [exact Hs | lra..] | lra | lra].
  - eapply near_comp; [|eapply near_weaken; [exact Hs | lra | lra]]. ring.
  - eapply near_comp; [|eapply near_weaken; [exact Hs | lra | lra]]. ring.
Qed.

(** The running score of the binary64 computation stays within 2^-40 of the
    exact sum of the six factors. *)
Lemma score_near (q : DNSQuery.t) :
  near (Binary64.score q) (ThreatSpec.sumOfFactors ThreatSpec.geoFactor_falsy q) slack 130.
Proof.
  unfold Binary64.score, ThreatSpec.sumOfFactors. cbv zeta.
  eapply near_weaken.
  - apply reputation_step_near; [|shelve..].
    apply geo_step_near; [|shelve..].
    apply queryType_step_near; [|shelve..].
    apply responseCode_step_near; [|shelve..].
    apply length_step_near; [|shelve..].
    apply entropy_step_near.
  - unfold slack. vm_compute. discriminate.
  - vm_compute. discriminate.
  Unshelve. all: vm_compute; discriminate.
Qed.

(** *** [Math.round] of numbers that are near each other *)

Lemma Qfloor_between (x : number) (m : Z) :
  inject_Z m <= x → x < inject_Z m + 1 → Qfloor x = m.
Proof.
  intros Hlo Hhi.
  pose proof (Qfloor_le x) as H1. pose proof (Qlt_floor x) as H2.
  rewrite inject_Z_plus in H2. change (inject_Z 1) with 1 in H2.
  assert (inject_Z (Qfloor x) < inject_Z (m + 1)) as Ha
    by (rewrite inject_Z_plus; change (inject_Z 1) with 1; lra).
  assert (inject_Z m < inject_Z (Qfloor x + 1)) as Hb
    by (rewrite inject_Z_plus; change (inject_Z 1) with 1; lra).
  rewrite <- Zlt_Qlt in Ha, Hb. lia.
Qed.

Lemma Qfloor_shift (x : number) (k : Z) : Qfloor (x + inject_Z k) = (Qfloor x + k)%Z.
Proof.
  pose proof (Qfloor_le x). pose proof (Qlt_floor x) as H2.
  rewrite inject_Z_plus in H2. change (inject_Z 1) with 1 in H2.
  apply Qfloor_between; rewrite inject_Z_plus; lra.
Qed.

(** Rounding two numbers that differ by at most [lo] downwards and [hi]
    upwards, both whole, moves the result by at most as much. *)
Lemma Math_round_shift (a b : number) (lo hi : Z) :
  a - inject_Z lo <= b → b <= a + inject_Z hi →
  Math_round a - inject_Z lo <= Math_round b ∧ Math_round b <= Math_round a + inject_Z hi.
Proof.
  intros Hlo Hhi. unfold Math_round.
  assert (Qfloor (a + (1 # 2)) + - lo ≤ Qfloor (b + (1 # 2)))%Z as H1.
  { rewrite <- Qfloor_shift. apply Qfloor_resp_le. rewrite inject_Z_opp. lra. }
  assert (Qfloor (b + (1 # 2)) ≤ Qfloor (a + (1 # 2)) + hi)%Z as H2.
  { rewrite <- Qfloor_shift. apply Qfloor_resp_le. lra. }
  rewrite Zle_Qle in H1, H2. rewrite inject_Z_plus in H1, H2. rewrite inject_Z_opp in H1.
  split; lra.
Qed.

Lemma Math_min_shift (x y d : number) :
  0 <= d → x <= y + d → Math_min 100 x <= Math_min 100 y + d.
Proof.
  intros Hd Hxy. unfold Math_min.
  destruct (Q.min_spec 100 x) as [[? ->]|[? ->]], (Q.min_spec 100 y) as [[? ->]|[? ->]]; lra.
Qed.




(** The numbers of a record are the binary64 values the engine holds.  A
    record whose entropy prints as 3.65 holds the double nearest to it, just
    below, and scores 13; the decimal 3.65 itself would make the factors add
    up to 13.5 and give 14. *)
Example calculateThreatScore_stored_decimal :
  Binary64.calculateThreatScore (longerQuery (Binary64.round 3.65)) == 13
  ∧ ThreatSpec.threatScore ThreatSpec.geoFactor_falsy (longerQuery (Binary64.round 3.65)) == 13
  ∧ ThreatSpec.sumOfFactors ThreatSpec.geoFactor_falsy (longerQuery 3.65) == 13.5
  ∧ calculateThreatScore (longerQuery 3.65) == 14.
Proof. repeat split; vm_compute; reflexivity. Qed.


(** ** Entropy Calculator *)

Lemma parseFloat_toFixed_eq (digits : nat) (x y : number) (k : Z) :
  x == y →
  0 <= y →
  Qfloor (y * inject_Z (10 ^ Z.of_nat digits) + (1 # 2)) = k →
  parseFloat_toFixed digits x = inject_Z k / inject_Z (10 ^ Z.of_nat digits).
Proof.
  intros Hxy Hy Hk. unfold parseFloat_toFixed.
  destruct (Qlt_le_dec x 0) as [Hneg|_]; [lra|].
  rewrite (Qfloor_comp _ (y * inject_Z (10 ^ Z.of_nat digits) + (1 # 2)))
    by (by rewrite Hxy).
  by rewrite Hk.
Qed.

Lemma parseFloat_toFixed_comp (digits : nat) (x y : number) :
  x == y → parseFloat_toFixed digits x = parseFloat_toFixed digits y.
Proof.
  intros Hxy. unfold parseFloat_toFixed.
  destruct (Qlt_le_dec x 0), (Qlt_le_dec y 0); try lra.
  - rewrite (Qfloor_comp (- x * _ + _) (- y * inject_Z (10 ^ Z.of_nat digits) + (1 # 2)));
      [done | by rewrite Hxy].
  - rewrite (Qfloor_comp (x * _ + _) (y * inject_Z (10 ^ Z.of_nat digits) + (1 # 2)));
      [done | by rewrite Hxy].
Qed.

(** The result has at most [digits] decimal places. *)
Lemma parseFloat_toFixed_decimals (digits : nat) (x : number) :
  ∃ k : Z, parseFloat_toFixed digits x == inject_Z k / inject_Z (10 ^ Z.of_nat digits).
Proof.
  unfold parseFloat_toFixed. destruct (Qlt_le_dec x 0).
  - eexists (- _)%Z. rewrite inject_Z_opp. unfold Qdiv. ring.
  - eexists. reflexivity.
Qed.

Lemma calculateEntropy_empty `{Host} : calculateEntropy [] = 0.
Proof. reflexivity. Qed.

Lemma calculateEntropy_three_decimals `{Host} (str : jsstring) :
  ∃ k : Z, calculateEntropy str == inject_Z k / 1000.
Proof.
  unfold calculateEntropy. destruct (Qeq_bool _ 0).
  - exists 0%Z. reflexivity.
  - apply (parseFloat_toFixed_decimals 3).
Qed.

Lemma surrogates_disjoint (c : N) : isHighSurrogate c && isLowSurrogate c = false.
Proof.
  unfold isHighSurrogate, isLowSurrogate.
  destruct (N.leb_spec c 0xDBFF), (N.leb_spec 0xDC00 c); rewrite ?andb_false_r; try done.
  lia.
Qed.

Lemma codePoints_replicate (c : N) (k : nat) :
  codePoints (replicate k c) = replicate k [c].
Proof.
  induction k as [|k IH]; [done|].
  destruct k as [|k]; [done|].
  change (codePoints (replicate (S (S k)) c))
    with (if isHighSurrogate c && isLowSurrogate c
          then [c; c] :: codePoints (replicate k c)
          else [c] :: codePoints (replicate (S k) c)).
  by rewrite surrogates_disjoint, IH.
Qed.

Section EntropyOfUnits.
Context `{Host}.

Lemma codePoints_units (s : jsstring) :
  unitString s → codePoints s = map (λ c, [c]) s.
Proof.
  induction 1 as [|c s Hc Hs IH]; [done|].
  destruct s as [|d s']; [done|].
  change (codePoints (c :: d :: s'))
    with (if isHighSurrogate c && isLowSurrogate d
          then [c; d] :: codePoints s'
          else [c] :: codePoints (d :: s')).
  rewrite Hc. cbn [andb]. by rewrite IH.
Qed.

Lemma Freq_get_set (freq : Freq) (char k : jsstring) (v : number) :
  Freq_get (Freq_set freq char v) k =
    if decide (char = k) then Some v else Freq_get freq k.
Proof.
  induction freq as [|[k' w] freq IH]; simpl; unfold strictEq.
  - case_bool_decide; case_decide; congruence.
  - case_bool_decide as Hk'; simpl; unfold strictEq.
    + subst k'. case_bool_decide; case_decide; congruence.
    + case_bool_decide; [|done]. subst k'. by rewrite decide_False.
Qed.

Lemma Freq_set_keys (freq : Freq) (char : jsstring) (v : number) :
  (Freq_set freq char v).*1 =
    if decide (char ∈ freq.*1) then freq.*1 else freq.*1 ++ [char].
Proof.
  induction freq as [|[k' w] freq IH].
  - destruct (decide (char ∈ ([] : Freq).*1)) as [Hin|_]; [|done].
    by apply not_elem_of_nil in Hin.
  - cbn [Freq_set]. unfold strictEq. case_bool_decide as Hk'.
    + subst k'. rewrite decide_True; [done|]. apply list_elem_of_here.
    + rewrite fmap_cons, IH. cbn [fst]. rewrite (fmap_cons fst).
      destruct (decide (char ∈ freq.*1)) as [Hin|Hin].
      * rewrite decide_True; [done|]. by apply list_elem_of_further.
      * rewrite decide_False; [done|].
        intros Hin'. apply elem_of_cons in Hin' as [?|?]; simpl in *; congruence.
Qed.

Lemma Freq_set_NoDup (freq : Freq) (char : jsstring) (v : number) :
  NoDup freq.*1 → NoDup (Freq_set freq char v).*1.
Proof.
  intros Hnd. rewrite Freq_set_keys. case_decide as Hin; [done|].
  apply NoDup_app. split; [done|]. split; [|apply NoDup_singleton].
  intros x Hx Hx'. apply list_elem_of_singleton in Hx'. by subst.
Qed.

Lemma Freq_get_elem_of (freq : Freq) (k : jsstring) (v : number) :
  NoDup freq.*1 → (k, v) ∈ freq ↔ Freq_get freq k = Some v.
Proof.
  induction freq as [|[k' w] freq IH]; simpl; intros Hnd.
  - split; [intros Hin; by apply not_elem_of_nil in Hin | done].
  - apply NoDup_cons in Hnd as [Hk' Hnd]. unfold strictEq.
    rewrite elem_of_cons. case_bool_decide as Heq.
    + subst k'. split.
      * intros [[= ->]|Hin]; [done|]. exfalso. apply Hk'.
        apply list_elem_of_fmap. by exists (k, v).
      * intros [= ->]. by left.
    + rewrite <- IH by done. split; [|tauto]. intros [[= ? ?]|?]; [congruence | done].
Qed.

Lemma Freq_ext (freq freq' : Freq) :
  NoDup freq.*1 → NoDup freq'.*1 →
  (∀ k, Freq_get freq k = Freq_get freq' k) → freq ≡ₚ freq'.
Proof.
  intros Hnd Hnd' Hget. apply NoDup_Permutation.
  - by eapply NoDup_fmap_1.
  - by eapply NoDup_fmap_1.
  - intros [k v]. rewrite !Freq_get_elem_of by done. by rewrite Hget.
Qed.

Lemma Freq_get_bump (freq : Freq) (char k : jsstring) :
  Freq_get (bump freq char) k =
    if decide (char = k) then increment (Freq_get freq k) else Freq_get freq k.
Proof.
  unfold bump. rewrite Freq_get_set. by case_decide; subst.
Qed.

Lemma Freq_get_count (l : list jsstring) (acc : Freq) (k : jsstring) :
  Freq_get (fold_left bump l acc) k =
    Nat.iter (occurrences k l) increment (Freq_get acc k).
Proof.
  revert acc. induction l as [|char l IH]; intros acc; [done|].
  cbn [fold_left]. rewrite IH, Freq_get_bump. unfold occurrences.
  case_decide as Heq.
  - subst char. rewrite filter_cons_True by done. cbn [length].
    by rewrite Nat.iter_succ_r.
  - by rewrite filter_cons_False by done.
Qed.

Lemma bump_all_NoDup (l : list jsstring) (acc : Freq) :
  NoDup acc.*1 → NoDup (fold_left bump l acc).*1.
Proof.
  revert acc. induction l as [|char l IH]; intros acc Hnd; [done|].
  cbn [fold_left]. apply IH. by apply Freq_set_NoDup.
Qed.

Lemma bump_all_Permutation (l l' : list jsstring) :
  l ≡ₚ l' → fold_left bump l [] ≡ₚ fold_left bump l' [].
Proof.
  intros Hperm. apply Freq_ext; try (apply bump_all_NoDup; constructor).
  intros k. rewrite !Freq_get_count.
  assert (occurrences k l = occurrences k l') as ->; [|done].
  unfold occurrences. apply Permutation_length. by rewrite Hperm.
Qed.

Lemma entropy_fold_sum (len : number) (freq : Freq) (a : number) :
  fold_left (fun entropy '(char, n) => let p := n / len in entropy - p * Math_log2 p)
            freq a
  == a - sumQ (map (surprisal len) freq).
Proof.
  revert a. induction freq as [|[k n] freq IH]; intros a; simpl.
  - ring.
  - rewrite IH. unfold surprisal at 2. simpl. ring.
Qed.

Lemma sumQ_Permutation (l l' : list number) : l ≡ₚ l' → sumQ l == sumQ l'.
Proof.
  induction 1 as [|x l l' _ IH|x y l|l l' l'' _ IH1 _ IH2]; simpl.
  - reflexivity.
  - by rewrite IH.
  - ring.
  - by rewrite IH1.
Qed.

(** Entropy is invariant under permutation of the code units, for strings
    without high surrogates. *)
Lemma calculateEntropy_Permutation (s t : jsstring) :
  unitString s → s ≡ₚ t → calculateEntropy s = calculateEntropy t.
Proof.
  intros Hs Hperm.
  assert (unitString t) as Ht by (unfold unitString; by rewrite <- Hperm).
  unfold calculateEntropy, String_length. rewrite <- (Permutation_length Hperm).
  destruct (Qeq_bool _ 0); [done|].
  apply parseFloat_toFixed_comp. rewrite !entropy_fold_sum.
  apply Qplus_comp; [reflexivity|]. apply Qopp_comp. apply sumQ_Permutation.
  apply Permutation_map. unfold countChars. rewrite !codePoints_units by done.
  apply bump_all_Permutation. by apply Permutation_map.
Qed.

(** *** Equally frequent characters *)






Lemma countValue_eq (m : nat) : countValue m == inject_Z (Z.of_nat m).
Proof.
  induction m as [|m IH]; [reflexivity|].
  change (countValue (S m)) with (countValue m + 1).
  rewrite IH, Nat2Z.inj_succ, <- Z.add_1_r, inject_Z_plus. reflexivity.
Qed.

Lemma iter_increment (m : nat) :
  Nat.iter (S m) increment None = Some (countValue (S m)).
Proof.
  induction m as [|m IH]; [done|].
  rewrite Nat.iter_succ, IH. reflexivity.
Qed.





End EntropyOfUnits.

(** A string that repeats one code unit has entropy 0. *)
Lemma calculateEntropy_repeated_unit `{Host} (c : N) (k : nat) :
  (∀ p : number, p == 1 → Math_log2 p == 0) →
  calculateEntropy (replicate (S k) c) == 0.
Proof.
  intros Hlog. unfold calculateEntropy, countChars.
  rewrite codePoints_replicate.
  set (len := String_length (replicate (S k) c)).
  assert (len == inject_Z (Z.of_nat (S k))) as Hlen
    by (unfold len, String_length; by rewrite length_replicate).
  assert (0 < len) as Hpos.
  { rewrite Hlen. change 0 with (inject_Z 0). rewrite <- Zlt_Qlt. lia. }
  destruct (Qeq_bool len 0) eqn:Hz.
  { apply Qeq_bool_iff in Hz. lra. }
  assert (fold_left bump (replicate (S k) [c]) [] = [([c], countValue (S k))]) as ->.
  { assert (∀ j v, fold_left bump (replicate j [c]) [([c], v)]
                   = [([c], Nat.iter j (λ v, v + 1) v)]) as Hfold.
    { induction j as [|j IH]; intros v; [done|].
      cbn [replicate fold_left]. unfold bump at 2. cbn [Freq_set Freq_get]. unfold strictEq.
      rewrite bool_decide_eq_true_2 by done. cbn [default from_option id].
      by rewrite IH, Nat.iter_succ_r. }
    cbn [replicate fold_left]. unfold bump at 2. cbn [Freq_set Freq_get default from_option id].
    rewrite Hfold. unfold countValue. by rewrite Nat.iter_succ_r. }
  cbn [fold_left].
  assert (countValue (S k) / len == 1) as Hp.
  { rewrite countValue_eq, Hlen. field.
    rewrite Hlen in Hpos. lra. }
  rewrite (parseFloat_toFixed_eq 3 _ 0 0); [reflexivity | | lra | reflexivity].
  rewrite (Hlog _ Hp). ring.
Qed.

(** C6 fails on the code.  The loop counts code points while the
    probabilities are taken over [str.length], which counts code units: the
    character U+1F600 alone, or twice (a string of identical characters),
    gets entropy 0.5 instead of 0, and its two code units in the other order
    (the same multiset of code units) get entropy 1. *)
Theorem calculateEntropy_astral_not_zero `{Host} :
  (∀ p : number, p == 1 # 2 → Math_log2 p == - (1)) →
  calculateEntropy grinningFace == 1 # 2
  ∧ calculateEntropy (grinningFace ++ grinningFace) == 1 # 2
  ∧ calculateEntropy loneSurrogates == 1.
Proof.
  intros Hlog. unfold calculateEntropy. simpl. repeat split.
  - rewrite (parseFloat_toFixed_eq 3 _ (1 # 2) 500); [reflexivity | | lra | reflexivity].
    rewrite Hlog; reflexivity.
  - rewrite (parseFloat_toFixed_eq 3 _ (1 # 2) 500); [reflexivity | | lra | reflexivity].
    rewrite Hlog; reflexivity.
  - rewrite (parseFloat_toFixed_eq 3 _ 1 1000); [reflexivity | | lra | reflexivity].
    rewrite Hlog; reflexivity.
Qed.

Lemma calculateEntropy_astral_not_zero_witness :
  (∀ p : number, p == 1 # 2 → Math_log2 (Host := RefHost.host) p == - (1))
  ∧ calculateEntropy (H := RefHost.host) grinningFace == 1 # 2
  ∧ calculateEntropy (H := RefHost.host) (grinningFace ++ grinningFace) == 1 # 2
  ∧ calculateEntropy (H := RefHost.host) loneSurrogates == 1.
Proof.
  assert (∀ p : number, p == 1 # 2 → Math_log2 (Host := RefHost.host) p == - (1)) as Hlog.
  { intros p Hp. simpl. unfold RefHost.log2.
    rewrite (Qred_complete _ _ Hp). reflexivity. }
  split; [exact Hlog|].
  apply (calculateEntropy_astral_not_zero (H := RefHost.host) Hlog).
Defined.

(** ** Classifier *)

Ltac run_state :=
  unfold mbind, mret, State_bind, State_ret, Math_random; simpl.

Lemma classifyQuery_label `{Host} (query : PartialDNSQuery.t) (n : nat) :
  Classification.label (classifyQuery query n).1 =
    if gt (classifierEntropy query) 4.2 || gt (classifierLength query) 55
       || gt (classifierScore query) 60
    then Tunneling else Normal.
Proof.
  unfold classifyQuery.
  fold (classifierEntropy query) (classifierLength query) (classifierScore query).
  by destruct (gt (classifierEntropy query) 4.2 || gt (classifierLength query) 55
               || gt (classifierScore query) 60).
Qed.

Lemma classifyQuery_draws_once `{Host} (query : PartialDNSQuery.t) (n : nat) :
  (classifyQuery query n).2 = S n.
Proof.
  unfold classifyQuery.
  by destruct (gt _ 4.2 || gt _ 55 || gt _ 60).
Qed.

Lemma thresholds_true (e l s : number) :
  gt e 4.2 || gt l 55 || gt s 60 = true ↔ 4.2 < e ∨ 55 < l ∨ 60 < s.
Proof. rewrite !orb_true_iff, !gt_true. tauto. Qed.

(** C2: the label is Tunneling exactly when the entropy exceeds 4.2, or the
    length exceeds 55, or the supplied score (0 when absent) exceeds 60, and
    Normal otherwise. *)
Theorem classifyQuery_decision_rule `{Host} (query : PartialDNSQuery.t) (n : nat) :
  let label := Classification.label (classifyQuery query n).1 in
  let suspicious :=
    4.2 < classifierEntropy query ∨ 55 < classifierLength query ∨
    60 < classifierScore query in
  (label = Tunneling ↔ suspicious) ∧ (label = Normal ↔ ¬ suspicious).
Proof.
  cbv zeta. rewrite classifyQuery_label, <- thresholds_true.
  destruct (gt _ 4.2 || gt _ 55 || gt _ 60); split; split; done.
Qed.

(** C8: with a score in [0, 100] and a draw of [Math.random] in [0, 1), the
    confidence is min(0.99, 0.7 + score/200 + jitter) with jitter in [0, 0.1)
    for Tunneling, min(0.99, 0.8 + jitter) with jitter in [0, 0.15) for
    Normal, and lies in (0, 0.99]. *)
Theorem classifyQuery_confidence `{Host} (query : PartialDNSQuery.t) (n : nat) :
  0 <= classifierScore query <= 100 →
  0 <= Math_random_at n < 1 →
  let c := (classifyQuery query n).1 in
  ∃ jitter : number,
    Classification.confidence c =
      match Classification.label c with
      | Tunneling => Qmin 0.99 (0.7 + classifierScore query / 200 + jitter)
      | Normal => Qmin 0.99 (0.8 + jitter)
      end
    ∧ 0 <= jitter
    ∧ match Classification.label c with
      | Tunneling => jitter < 0.1
      | Normal => jitter < 0.15
      end
    ∧ 0 < Classification.confidence c <= 0.99.
Proof.
  intros Hscore Hr. unfold classifyQuery.
  fold (classifierEntropy query) (classifierLength query) (classifierScore query).
  destruct (gt (classifierEntropy query) 4.2 || gt (classifierLength query) 55
            || gt (classifierScore query) 60); run_state.
  - exists (Math_random_at n * 0.1). unfold Math_min.
    repeat split; try lra.
    + apply Q.min_glb_lt; [lra|].
      assert (0 <= classifierScore query / 200) by (apply Qle_shift_div_l; lra).
      lra.
    + apply Q.le_min_l.
  - exists (Math_random_at n * 0.15). unfold Math_min.
    repeat split; try lra.
    + apply Q.min_glb_lt; lra.
    + apply Q.le_min_l.
Qed.

Lemma classifyQuery_confidence_witness :
  0 <= classifierScore borderlineQuery <= 100
  ∧ 0 <= Math_random_at (Host := RefHost.host) 0 < 1
  ∧ ∃ jitter : number,
      Classification.confidence (classifyQuery (H := RefHost.host) borderlineQuery 0%nat).1 =
        Qmin 0.99 (0.7 + 75 / 200 + jitter)
      ∧ 0 <= jitter ∧ jitter < 0.1
      ∧ 0 < Classification.confidence
              (classifyQuery (H := RefHost.host) borderlineQuery 0%nat).1 <= 0.99.
Proof.
  assert (0 <= classifierScore borderlineQuery <= 100) as Hscore
    by (vm_compute; split; discriminate).
  assert (0 <= Math_random_at (Host := RefHost.host) 0 < 1) as Hr
    by (vm_compute; split; [discriminate | reflexivity]).
  split; [exact Hscore|]. split; [exact Hr|].
  exact (classifyQuery_confidence (H := RefHost.host) borderlineQuery 0%nat Hscore Hr).
Defined.

(** ** Log Normalizer *)

(** The fields of the record that [normalizeDNSQuery] returns. *)
Lemma normalizeDNSQuery_fields `{Host} (data : gmap jsstring jsstring) (n : nat) :
  let q := (normalizeDNSQuery data n).1 in
  ∃ n' : nat,
    DNSQuery.query q = resolvedQuery data
    ∧ DNSQuery.entropy q = calculateEntropy (resolvedQuery data)
    ∧ DNSQuery.length q = String_length (resolvedQuery data)
    ∧ DNSQuery.location q = None
    ∧ DNSQuery.label q =
        Some (Classification.label
                (classifyQuery
                   {| PartialDNSQuery.query := Some (resolvedQuery data);
                      PartialDNSQuery.length := Some (String_length (resolvedQuery data));
                      PartialDNSQuery.entropy := Some (calculateEntropy (resolvedQuery data));
                      PartialDNSQuery.threatScore := None |} n').1)
    ∧ DNSQuery.threatScore q = calculateThreatScore (DNSQuery.set_threatScore q 0).
Proof.
  unfold normalizeDNSQuery. fold (resolvedQuery data).
  destruct (truthy (data !! js "id")); run_state.
  - destruct (classifyQuery _ n) as [c n1] eqn:Hc. simpl.
    exists n. rewrite Hc. repeat split.
  - destruct (classifyQuery _ (S n)) as [c n1] eqn:Hc. simpl.
    exists (S n). rewrite Hc. repeat split.
Qed.


(** A record whose final score exceeds 60 and whose label is Normal. *)
Example normalizeDNSQuery_high_score_normal_label :
  let q := (normalizeDNSQuery (H := RefHost.host) loudEntry 0%nat).1 in
  DNSQuery.threatScore q == 61 ∧ DNSQuery.label q = Some Normal.
Proof. split; vm_compute; reflexivity. Qed.

Lemma calculateThreatScore_at_least (q : DNSQuery.t) (b : Z) :
  (b ≤ 100)%Z →
  inject_Z b <= ThreatSpec.sumOfFactors ThreatSpec.geoFactor_falsy q →
  inject_Z b <= calculateThreatScore q.
Proof.
  intros Hb Hsum. rewrite calculateThreatScore_sum. unfold ThreatSpec.threatScore.
  apply Q.min_glb.
  - change 100 with (inject_Z 100). by rewrite <- Zle_Qle.
  - rewrite <- Zle_Qle. rewrite <- (Qfloor_Z b). apply Qfloor_resp_le. lra.
Qed.

(** C10: every record produced by [normalizeDNSQuery] has a threat score of
    at least 5: its location is not set, so the geolocation factor is the +5
    of the absent case, and no factor is negative. *)
Theorem normalizeDNSQuery_threatScore_at_least_5 `{Host}
    (data : gmap jsstring jsstring) (n : nat) :
  let q := (normalizeDNSQuery data n).1 in
  DNSQuery.location q = None ∧ 5 <= DNSQuery.threatScore q.
Proof.
  cbv zeta.
  destruct (normalizeDNSQuery_fields data n) as (n' & _ & _ & _ & Hloc & _ & ->).
  split; [exact Hloc|].
  apply (calculateThreatScore_at_least _ 5); [lia|].
  unfold ThreatSpec.sumOfFactors. simpl. rewrite Hloc.
  set (q := (normalizeDNSQuery data n).1).
  pose proof (entropyFactor_nonneg (DNSQuery.entropy q)).
  pose proof (lengthFactor_nonneg (DNSQuery.length q)).
  assert (0 <= ThreatSpec.responseCodeFactor (DNSQuery.responseCode q))
    by (unfold ThreatSpec.responseCodeFactor; repeat case_decide; lra).
  assert (0 <= ThreatSpec.queryTypeFactor (DNSQuery.type q))
    by (unfold ThreatSpec.queryTypeFactor; repeat case_decide; lra).
  assert (0 <= ThreatSpec.reputationFactor (DNSQuery.reputation q))
    by (destruct (DNSQuery.reputation q) as [[]|]; simpl; lra).
  assert (ThreatSpec.geoFactor_falsy None = 5) as -> by reflexivity.
  change (inject_Z 5) with 5. lra.
Qed.

(** The metadata of the produced record: the input keys outside
    [coreFields] (and other than [__proto__]), with their values. *)
Lemma normalizeDNSQuery_metadata `{Host} (data : gmap jsstring jsstring) (n : nat) :
  ∃ metadata : gmap jsstring jsstring,
    DNSQuery.metadata (normalizeDNSQuery data n).1 = Some metadata
    ∧ ∀ key : jsstring,
        metadata !! key =
          if decide (key ∈ coreFields ∨ key = js "__proto__") then None
          else data !! key.
Proof.
  unfold normalizeDNSQuery.
  set (f := fun key v metadata => if negb (Array_includes coreFields key)
                                  then Object_set metadata key v else metadata).
  exists (map_fold f ∅ data). split.
  - destruct (truthy (data !! js "id")); run_state.
    + by destruct (classifyQuery _ n).
    + by destruct (classifyQuery _ (S n)).
  - apply (map_fold_weak_ind
             (fun (r m : gmap jsstring jsstring) =>
                ∀ key, r !! key =
                  if decide (key ∈ coreFields ∨ key = js "__proto__") then None
                  else m !! key)).
    + intros key. rewrite lookup_empty. by case_decide.
    + intros k v m r Hk IH key. unfold f, Object_set, strictEq.
      destruct (Array_includes coreFields k) eqn:Hcore; simpl.
      * apply Array_includes_elem_of in Hcore. rewrite IH.
        case_decide as Hd; [done|].
        rewrite lookup_insert_ne; [done|]. intros ->. tauto.
      * case_bool_decide as Hproto.
        -- rewrite IH. case_decide as Hd; [done|].
           rewrite lookup_insert_ne; [done|]. intros ->. tauto.
        -- destruct (decide (k = key)) as [->|Hne].
           ++ rewrite !lookup_insert_eq. rewrite decide_False; [done|].
              intros [Hin|?]; [|done].
              apply Array_includes_elem_of in Hin. congruence.
           ++ rewrite !lookup_insert_ne by done. apply IH.
Qed.

(** The aliases that [coreFields] does not list. *)
Example aliasKeys_outside_coreFields :
  List.filter (fun key => negb (Array_includes coreFields key)) aliasKeys =
    [js "Question"; js "SourceIP"; js "Timestamp"; js "QueryType"; js "ResponseCode"].
Proof. vm_compute. reflexivity. Qed.

(** C5 fails on the code: [Question] is consumed as the query name, yet it
    is also copied into the metadata ([coreFields] lacks the capitalised
    aliases). *)
Theorem normalizeDNSQuery_alias_in_metadata `{Host} (n : nat) :
  let q := (normalizeDNSQuery questionEntry n).1 in
  js "Question" ∈ aliasKeys
  ∧ DNSQuery.query q = js "example.com"
  ∧ DNSQuery.metadata q ≫= (.!! js "Question") = Some (js "example.com").
Proof.
  cbv zeta. split; [|split].
  - unfold aliasKeys. set_solver.
  - destruct (normalizeDNSQuery_fields questionEntry n) as (_ & -> & _).
    vm_compute. reflexivity.
  - destruct (normalizeDNSQuery_metadata questionEntry n) as (m & -> & Hm).
    simpl. rewrite Hm. vm_compute. reflexivity.
Qed.

(** ** Stats Aggregator *)

(** C9 (as the specification states it) fails: for a batch of one record
    whose response code is NXDOMAIN the proportion is 1, and [getStats]
    reports 0.12. *)
Lemma getStats_nxDomainRatio_counterexample :
  nxDomainProportion [nxDomainQuery] == 1
  ∧ FeatureStats.nxDomainRatio (getStats [nxDomainQuery]) == 0.12
  ∧ ¬ FeatureStats.nxDomainRatio (getStats [nxDomainQuery])
      == nxDomainProportion [nxDomainQuery].
Proof. repeat split; vm_compute; congruence. Qed.

(** C9 (amended): for every non-empty sequence of records the
    [nxDomainRatio] of [getStats] is the constant 0.12, whatever the response
    codes of the records. *)
Theorem getStats_nxDomainRatio_constant (logs : list DNSQuery.t) :
  logs ≠ [] → FeatureStats.nxDomainRatio (getStats logs) = 0.12.
Proof.
  intros Hne. unfold getStats. destruct logs as [|l logs]; [done|]. reflexivity.
Qed.

Lemma getStats_nxDomainRatio_constant_witness :
  [nxDomainQuery] ≠ [] ∧ FeatureStats.nxDomainRatio (getStats [nxDomainQuery]) = 0.12.
Proof.
  split; [discriminate|].
  apply (getStats_nxDomainRatio_constant [nxDomainQuery]). discriminate.
Defined.

(** ** Multi-Format Parser *)

Ltac js_neq := let E := fresh in intros E; vm_compute in E; discriminate E.

Lemma normalizeDNSQuery_query `{Host} (data : gmap jsstring jsstring) (n : nat) :
  DNSQuery.query (normalizeDNSQuery data n).1 = resolvedQuery data.
Proof. by destruct (normalizeDNSQuery_fields data n) as (_ & -> & _). Qed.

Lemma includes_nil (x : jsstring) : x ≠ [] → includes [] x = false.
Proof. by destruct x. Qed.

Lemma queryToken_nonempty (line token : jsstring) :
  queryToken line = Some token → token ≠ [].
Proof.
  unfold queryToken. intros Hfind. apply find_some in Hfind as [_ Hp].
  intros ->. by rewrite includes_nil in Hp.
Qed.

(** The field map of the free-text fallback carries the query token of the
    line, and there is one exactly when the line has such a token. *)
Lemma textFields_query `{Host} (line : jsstring) :
  match textFields line with
  | Some fields => queryToken line = Some (resolvedQuery fields)
  | None => queryToken line = None
  end.
Proof.
  unfold textFields. fold (queryToken line).
  destruct (queryToken line) as [[|c q]|] eqn:Htoken; [|  |done].
  { by apply queryToken_nonempty in Htoken. }
  f_equal. unfold resolvedQuery.
  set (obj0 := ({[ js "query" := c :: q ]} : gmap jsstring jsstring)).
  set (obj1 := match find matchesIPv4 (splitWhiteSpace line) with
               | Some ip => <[js "sourceIp" := ip]> obj0
               | None => obj0
               end).
  assert (obj1 !! js "query" = Some (c :: q)) as H1.
  { unfold obj1. destruct (find matchesIPv4 _).
    - rewrite lookup_insert_ne by js_neq. apply lookup_singleton_eq.
    - apply lookup_singleton_eq. }
  match goal with
  | |- _ = orElse (?m !! _) _ => assert (m !! js "query" = Some (c :: q)) as ->
  end; [|done].
  destruct (10 <? length (hd [] (splitWhiteSpace line)))%nat.
  - rewrite lookup_insert_ne by js_neq. by rewrite lookup_insert_ne by js_neq.
  - by rewrite lookup_insert_ne by js_neq.
Qed.

Lemma parseLine_text `{Host} (line : jsstring) (n : nat) :
  JSON_parse line = None →
  ∃ qs, (parseLine line n).1 = Return qs
        ∧ map DNSQuery.query qs = option_list (queryToken line).
Proof.
  intros Hparse. unfold parseLine. rewrite Hparse.
  pose proof (textFields_query line) as Hfields.
  destruct (textFields line) as [fields|]; run_state.
  - destruct (normalizeDNSQuery fields n) as [q n'] eqn:Hq. simpl.
    exists [q]. split; [done|]. rewrite Hfields. simpl. f_equal.
    replace q with (normalizeDNSQuery fields n).1 by (by rewrite Hq).
    apply normalizeDNSQuery_query.
  - exists []. split; [done|]. by rewrite Hfields.
Qed.

Lemma parseLines_text `{Host} (lines : list jsstring) :
  Forall (λ line, JSON_parse line = None) lines →
  ∀ n, ∃ qs, (parseLines lines n).1 = Return qs
             ∧ map DNSQuery.query qs = omap queryToken lines.
Proof.
  induction 1 as [|line lines Hline _ IH]; intros n; simpl.
  - by exists [].
  - run_state.
    destruct (parseLine_text line n Hline) as (qs & Hqs & Hnames).
    destruct (parseLine line n) as [r n1]. simpl in Hqs. subst r.
    destruct (IH n1) as (qs' & Hqs' & Hnames').
    destruct (parseLines lines n1) as [r' n2]. simpl in Hqs'. subst r'. simpl.
    exists (qs ++ qs'). split; [done|].
    rewrite map_app, Hnames, Hnames'. by destruct (queryToken line).
Qed.

Lemma omap_queryToken_nonempty (lines : list jsstring) :
  Forall (λ name : jsstring, name ≠ []) (omap queryToken lines).
Proof.
  apply Forall_forall. intros name Hin.
  apply list_elem_of_omap in Hin as (line & _ & Htoken).
  by eapply queryToken_nonempty.
Qed.

(** C4 (as the specification states it) fails: a JSON document, a CSV file
    and line-delimited JSON whose entries name the host under a key that is
    no alias of the query are parsed into records with an empty query. *)
Lemma parseLogContent_empty_query_counterexample :
  queryNames (parseLogContent (H := RefHost.host) hostDocument 0%nat).1 = Return [[]]
  ∧ queryNames (parseLogContent (H := RefHost.host) hostCSV 0%nat).1 = Return [[]]
  ∧ queryNames (parseLogContent (H := RefHost.host) hostLines 0%nat).1 = Return [[]; []].
Proof. repeat split; vm_compute; reflexivity. Qed.

(** C4 (amended): on the free-text fallback (neither the content nor any of
    its lines parses as JSON, and the first line is not taken for CSV) the
    records returned by [parseLogContent] are, in order, those of the lines
    that have a query token; a line without one produces no record, and every
    record has a non-empty query. *)
Theorem parseLogContent_free_text_query_nonempty `{Host} (content : jsstring) (n : nat) :
  JSON_parse (trim content) = None →
  Forall (λ line, JSON_parse line = None) (logLines (trim content)) →
  from_option isCSV false (head (logLines (trim content))) = false →
  logLines (trim content) ≠ [] →
  ∃ qs, (parseLogContent content n).1 = Return qs
        ∧ map DNSQuery.query qs = omap queryToken (logLines (trim content))
        ∧ Forall (λ q, DNSQuery.query q ≠ []) qs.
Proof.
  intros Hdoc Hlines Hcsv Hne.
  unfold parseLogContent.
  destruct (trim content) as [|c t] eqn:Htrim; [done|].
  rewrite Hdoc.
  destruct (logLines (c :: t)) as [|firstLine lines] eqn:Hl; [done|].
  simpl in Hcsv. rewrite Hcsv.
  destruct (parseLines_text _ Hlines n) as (qs & Hqs & Hnames).
  remember (parseLines (firstLine :: lines)) as byLine eqn:HbyLine.
  clear HbyLine. run_state.
  destruct (byLine n) as [r n1]. simpl in Hqs. subst r. simpl.
  exists qs. split; [reflexivity|]. split; [exact Hnames|].
  apply Forall_forall. intros q Hq.
  assert (DNSQuery.query q ∈ omap queryToken (firstLine :: lines)) as Hin.
  { rewrite <- Hnames. by apply list_elem_of_In, in_map, list_elem_of_In. }
  exact (proj1 (Forall_forall _ _) (omap_queryToken_nonempty _) _ Hin).
Qed.

Lemma parseLogContent_free_text_query_nonempty_witness :
  JSON_parse (Host := RefHost.host) (trim textLog) = None
  ∧ Forall (λ line, JSON_parse (Host := RefHost.host) line = None) (logLines (trim textLog))
  ∧ from_option isCSV false (head (logLines (trim textLog))) = false
  ∧ logLines (trim textLog) ≠ []
  ∧ ∃ qs, (parseLogContent (H := RefHost.host) textLog 0%nat).1 = Return qs
          ∧ map DNSQuery.query qs = omap queryToken (logLines (trim textLog))
          ∧ Forall (λ q, DNSQuery.query q ≠ []) qs.
Proof.
  assert (JSON_parse (Host := RefHost.host) (trim textLog) = None) as Hdoc
    by (vm_compute; reflexivity).
  assert (Forall (λ line, JSON_parse (Host := RefHost.host) line = None)
                 (logLines (trim textLog))) as Hlines
    by (repeat constructor).
  assert (from_option isCSV false (head (logLines (trim textLog))) = false) as Hcsv
    by (vm_compute; reflexivity).
  assert (logLines (trim textLog) ≠ []) as Hne by (vm_compute; discriminate).
  repeat (split; [assumption|]).
  apply (parseLogContent_free_text_query_nonempty (H := RefHost.host)
           textLog 0%nat Hdoc Hlines Hcsv Hne).
Defined.

(* ================================================================== *)
(** * Further properties of the pipeline *)

(** ** The reference host's logarithm *)

Lemma RefHost_log2_comp (p q : number) : p == q → RefHost.log2 p = RefHost.log2 q.
Proof. intros Hpq. unfold RefHost.log2. by rewrite (Qred_complete _ _ Hpq). Qed.

Lemma RefHost_log2_nonpos (p : number) : 0 < p → p <= 1 → RefHost.log2 p <= 0.
Proof.
  intros Hpos Hle. unfold RefHost.log2.
  rewrite <- (Qred_correct p) in Hpos, Hle.
  destruct (Qred p) as [a b]. unfold Qlt, Qle in Hpos, Hle. cbn in Hpos, Hle.
  cbn [Qnum Qden].
  assert (Z.log2 a ≤ Z.log2 (Z.pos b))%Z as Hlog by (apply Z.log2_le_mono; lia).
  rewrite Zle_Qle in Hlog.
  set (x := inject_Z (Z.log2 a)) in *. set (y := inject_Z (Z.log2 (Z.pos b))) in *. lra.
Qed.

(** ** Entropy Calculator: further properties *)

Lemma codePoints_concat_step (s : jsstring) :
  concat (codePoints s) = s ∧ ∀ c, concat (codePoints (c :: s)) = c :: s.
Proof.
  induction s as [|d s [IH1 IH2]].
  - by split.
  - split; [apply IH2|]. intros c.
    change (codePoints (c :: d :: s))
      with (if isHighSurrogate c && isLowSurrogate d
            then [c; d] :: codePoints s
            else [c] :: codePoints (d :: s)).
    destruct (isHighSurrogate c && isLowSurrogate d); cbn [concat app].
    + by rewrite IH1.
    + by rewrite IH2.
Qed.

(** The characters of a string, put back together, are the string. *)
Lemma concat_codePoints (s : jsstring) : concat (codePoints s) = s.
Proof. apply codePoints_concat_step. Qed.

Lemma length_concat_Permutation {A : Type} (l l' : list (list A)) :
  l ≡ₚ l' → length (concat l) = length (concat l').
Proof.
  induction 1 as [|x l l' _ IH|x y l|l l' l'' _ IH1 _ IH2]; cbn [concat].
  - done.
  - by rewrite !length_app, IH.
  - rewrite !length_app. lia.
  - congruence.
Qed.

Lemma codePoints_nonempty_step (s : jsstring) :
  Forall (λ p : jsstring, (1 ≤ length p)%nat) (codePoints s)
  ∧ ∀ c, Forall (λ p : jsstring, (1 ≤ length p)%nat) (codePoints (c :: s)).
Proof.
  induction s as [|d s [IH1 IH2]].
  - split; [constructor|]. intros c. repeat constructor.
  - split; [apply IH2|]. intros c.
    change (codePoints (c :: d :: s))
      with (if isHighSurrogate c && isLowSurrogate d
            then [c; d] :: codePoints s
            else [c] :: codePoints (d :: s)).
    destruct (isHighSurrogate c && isLowSurrogate d).
    + constructor; [simpl; lia | exact IH1].
    + constructor; [simpl; lia | apply IH2].
Qed.

(** A string has at most as many characters as code units. *)
Lemma length_codePoints (s : jsstring) : (length (codePoints s) ≤ length s)%nat.
Proof.
  rewrite <- (concat_codePoints s) at 2.
  pose proof (proj1 (codePoints_nonempty_step s)) as Hne.
  induction Hne as [|p l Hp _ IH]; cbn [concat length]; [done|].
  rewrite length_app. lia.
Qed.

(** X1: the entropy depends only on which characters (code points) the string
    holds and how often, not on their order: two strings whose characters are
    a rearrangement of each other get the same value.  Sums are exact in this
    development. *)
Theorem calculateEntropy_multiset_of_characters `{Host} (s t : jsstring) :
  codePoints s ≡ₚ codePoints t → calculateEntropy s = calculateEntropy t.
Proof.
  intros Hperm.
  assert (length s = length t) as Hlen.
  { rewrite <- (concat_codePoints s), <- (concat_codePoints t).
    by apply length_concat_Permutation. }
  unfold calculateEntropy, String_length. rewrite Hlen.
  destruct (Qeq_bool _ 0); [done|].
  apply parseFloat_toFixed_comp. rewrite !entropy_fold_sum.
  apply Qplus_comp; [reflexivity|]. apply Qopp_comp. apply sumQ_Permutation.
  apply Permutation_map. unfold countChars. by apply bump_all_Permutation.
Qed.

Lemma calculateEntropy_multiset_of_characters_witness :
  codePoints (grinningFace ++ js "a") ≡ₚ codePoints (js "a" ++ grinningFace)
  ∧ calculateEntropy (H := RefHost.host) (grinningFace ++ js "a")
    = calculateEntropy (H := RefHost.host) (js "a" ++ grinningFace).
Proof.
  assert (codePoints (grinningFace ++ js "a") ≡ₚ codePoints (js "a" ++ grinningFace))
    as Hperm by apply perm_swap.
  split; [exact Hperm|].
  apply (calculateEntropy_multiset_of_characters (H := RefHost.host) _ _ Hperm).
Defined.



(** X3: a string that holds no two different code units (the empty string, or
    one code unit repeated, a lone surrogate included) has entropy 0. *)
Theorem calculateEntropy_single_unit `{Host} (s : jsstring) (c : N) :
  Forall (λ d, d = c) s →
  (∀ p : number, p == 1 → Math_log2 p == 0) →
  calculateEntropy s == 0.
Proof.
  intros Hall Hlog.
  assert (s = replicate (length s) c) as ->.
  { induction Hall as [|d s -> _ IH]; [done|]. cbn [length replicate]. by f_equal. }
  destruct (length s) as [|k].
  - by rewrite calculateEntropy_empty.
  - by apply calculateEntropy_repeated_unit.
Qed.

Lemma calculateEntropy_single_unit_witness :
  Forall (λ d, d = 97%N) (js "aaaa")
  ∧ (∀ p : number, p == 1 → Math_log2 (Host := RefHost.host) p == 0)
  ∧ calculateEntropy (H := RefHost.host) (js "aaaa") == 0.
Proof.
  assert (Forall (λ d, d = 97%N) (js "aaaa")) as Hall by (repeat constructor).
  assert (∀ p : number, p == 1 → Math_log2 (Host := RefHost.host) p == 0) as Hlog.
  { intros p Hp. simpl. by rewrite (RefHost_log2_comp _ _ Hp). }
  repeat (split; [assumption|]).
  apply (calculateEntropy_single_unit (H := RefHost.host) (js "aaaa") 97%N Hall Hlog).
Defined.

Lemma parseFloat_toFixed_nonneg (digits : nat) (x : number) :
  0 <= x → 0 <= parseFloat_toFixed digits x.
Proof.
  intros Hx. unfold parseFloat_toFixed.
  assert (0 < inject_Z (10 ^ Z.of_nat digits)) as Hscale.
  { change 0 with (inject_Z 0). rewrite <- Zlt_Qlt. apply Z.pow_pos_nonneg; lia. }
  destruct (Qlt_le_dec x 0) as [Hneg|_]; [lra|].
  apply Qle_shift_div_l; [done|]. rewrite Qmult_0_l.
  change 0 with (inject_Z 0). rewrite <- Zle_Qle.
  change 0%Z with (Qfloor 0). apply Qfloor_resp_le.
  assert (0 <= x * inject_Z (10 ^ Z.of_nat digits)) by (apply Qmult_le_0_compat; lra).
  lra.
Qed.

(** Every count in the frequency table is positive and at most the length of
    the string. *)
Lemma countChars_entry (s k : jsstring) (v : number) :
  (k, v) ∈ countChars s → 0 < v ∧ v <= String_length s.
Proof.
  unfold countChars. intros Hin.
  apply Freq_get_elem_of in Hin; [|apply bump_all_NoDup; constructor].
  rewrite Freq_get_count in Hin.
  assert (occurrences k (codePoints s) ≤ length s)%nat as Hocc.
  { etrans; [|apply length_codePoints]. unfold occurrences. apply length_filter. }
  destruct (occurrences k (codePoints s)) as [|m]; [done|].
  rewrite iter_increment in Hin. injection Hin as <-.
  rewrite countValue_eq. unfold String_length.
  assert (inject_Z (Z.of_nat m) + 1 == inject_Z (Z.of_nat (S m))) as Hm
    by (rewrite Nat2Z.inj_succ, <- Z.add_1_r, inject_Z_plus; reflexivity).
  split; rewrite Hm.
  - change 0 with (inject_Z 0). rewrite <- Zlt_Qlt. lia.
  - rewrite <- Zle_Qle. lia.
Qed.

Lemma sumQ_nonpos (l : list number) : Forall (λ x, x <= 0) l → sumQ l <= 0.
Proof.
  unfold sumQ. induction 1 as [|x l Hx _ IH]; simpl; lra.
Qed.

Lemma calculateEntropy_nonneg `{Host} (s : jsstring) :
  (∀ p : number, 0 < p → p <= 1 → Math_log2 p <= 0) →
  0 <= calculateEntropy s.
Proof.
  intros Hlog. unfold calculateEntropy.
  destruct (Qeq_bool (String_length s) 0) eqn:Hz; [lra|].
  apply parseFloat_toFixed_nonneg. rewrite entropy_fold_sum.
  assert (sumQ (map (surprisal (String_length s)) (countChars s)) <= 0); [|lra].
  apply sumQ_nonpos, Forall_forall. intros x Hx.
  apply list_elem_of_In, in_map_iff in Hx as ([k v] & <- & Hin).
  apply list_elem_of_In, countChars_entry in Hin as [Hpos Hle].
  unfold surprisal. cbn [snd].
  assert (0 < String_length s) as Hlen by lra.
  assert (0 < v / String_length s) as Hp0 by (apply Qlt_shift_div_l; lra).
  assert (v / String_length s <= 1) as Hp1 by (apply Qle_shift_div_r; lra).
  pose proof (Hlog _ Hp0 Hp1). nra.
Qed.

(** X4: whatever the string, surrogates included, the entropy is a
    non-negative whole number of thousandths, provided the host's [log2] is
    not positive on (0, 1]. *)
Theorem calculateEntropy_nonnegative_thousandths `{Host} (s : jsstring) :
  (∀ p : number, 0 < p → p <= 1 → Math_log2 p <= 0) →
  ∃ k : Z, (0 ≤ k)%Z ∧ calculateEntropy s == inject_Z k / 1000.
Proof.
  intros Hlog. destruct (calculateEntropy_three_decimals s) as [k Hk].
  exists k. split; [|done].
  pose proof (calculateEntropy_nonneg s Hlog) as Hnn. rewrite Hk in Hnn.
  assert (0 <= inject_Z k) as Hk0.
  { destruct (Qlt_le_dec (inject_Z k) 0) as [Hneg|]; [|done].
    assert (inject_Z k / 1000 < 0); [|lra].
    apply Qlt_shift_div_r; lra. }
  change 0 with (inject_Z 0) in Hk0. by rewrite <- Zle_Qle in Hk0.
Qed.

Lemma calculateEntropy_nonnegative_thousandths_witness :
  (∀ p : number, 0 < p → p <= 1 → Math_log2 (Host := RefHost.host) p <= 0)
  ∧ ∃ k : Z, (0 ≤ k)%Z
      ∧ calculateEntropy (H := RefHost.host) (js "tx.a4b3.c2server.ru")
        == inject_Z k / 1000.
Proof.
  split; [exact RefHost_log2_nonpos|].
  apply (calculateEntropy_nonnegative_thousandths (H := RefHost.host)
           (js "tx.a4b3.c2server.ru") RefHost_log2_nonpos).
Defined.

(** ** Log Normalizer: further properties *)

(** X5: the metadata of a normalised record holds exactly the entries of the
    input whose key is not one of the core fields (and not [__proto__]), with
    their values unchanged; a core field never shows up in it. *)
Theorem normalizeDNSQuery_metadata_lookup `{Host}
    (data : gmap jsstring jsstring) (n : nat) (key : jsstring) :
  DNSQuery.metadata (normalizeDNSQuery data n).1 ≫= (.!! key) =
    if decide (key ∈ coreFields ∨ key = js "__proto__") then None else data !! key.
Proof.
  destruct (normalizeDNSQuery_metadata data n) as (m & -> & Hm). simpl. apply Hm.
Qed.

(** The threat score does not read the score already stored in the record. *)
Lemma calculateThreatScore_set_threatScore (q : DNSQuery.t) (x : number) :
  calculateThreatScore (DNSQuery.set_threatScore q x) = calculateThreatScore q.
Proof. reflexivity. Qed.

(** The score stored in a normalised record is the score of that record,
    which has no location. *)
Lemma normalizeDNSQuery_own_score `{Host} (data : gmap jsstring jsstring) (n : nat) :
  DNSQuery.threatScore (normalizeDNSQuery data n).1
    = calculateThreatScore (normalizeDNSQuery data n).1
  ∧ DNSQuery.location (normalizeDNSQuery data n).1 = None.
Proof.
  destruct (normalizeDNSQuery_fields data n) as (n' & _ & _ & _ & Hloc & _ & Hscore).
  split; [|exact Hloc].
  etrans; [exact Hscore | apply calculateThreatScore_set_threatScore].
Qed.

Lemma normalizeDNSQuery_reputation `{Host} (data : gmap jsstring jsstring) (n : nat) :
  DNSQuery.reputation (normalizeDNSQuery data n).1
    = Some (checkIpReputation (DNSQuery.sourceIp (normalizeDNSQuery data n).1))
  ∧ DNSQuery.lat (normalizeDNSQuery data n).1 = None
  ∧ DNSQuery.lng (normalizeDNSQuery data n).1 = None.
Proof.
  unfold normalizeDNSQuery.
  destruct (truthy (data !! js "id")); unfold mbind, mret, State_bind, State_ret, Math_random.
  - destruct (classifyQuery _ n) as [c n1]. cbn [fst]. repeat split.
  - cbn [fst snd]. destruct (classifyQuery _ (S n)) as [c n1]. cbn [fst]. repeat split.
Qed.

(** X6: the derived fields of a normalised record agree with its own stored
    fields: the length and the entropy are those of the stored query name, the
    reputation is that of the stored source address, the threat score is the
    score of the finished record, and no location or coordinates are set. *)
Theorem normalizeDNSQuery_record_consistent `{Host}
    (data : gmap jsstring jsstring) (n : nat) :
  let q := (normalizeDNSQuery data n).1 in
  DNSQuery.length q = String_length (DNSQuery.query q)
  ∧ DNSQuery.entropy q = calculateEntropy (DNSQuery.query q)
  ∧ DNSQuery.reputation q = Some (checkIpReputation (DNSQuery.sourceIp q))
  ∧ DNSQuery.threatScore q = calculateThreatScore q
  ∧ DNSQuery.location q = None ∧ DNSQuery.lat q = None ∧ DNSQuery.lng q = None.
Proof.
  cbv zeta.
  destruct (normalizeDNSQuery_fields data n) as (n' & Hq & He & Hl & Hloc & _ & Hscore).
  destruct (normalizeDNSQuery_reputation data n) as (Hrep & Hlat & Hlng).
  rewrite Hq.
  split; [exact Hl|]. split; [exact He|]. split; [exact Hrep|].
  split; [etrans; [exact Hscore | apply calculateThreatScore_set_threatScore]|].
  split; [exact Hloc|]. split; [exact Hlat | exact Hlng].
Qed.

(** The label and the confidence of a normalised record are those the
    classifier gives the query name, its length and its entropy, with no
    score, at the draw that follows the one for the id. *)
Lemma normalizeDNSQuery_classification `{Host} (data : gmap jsstring jsstring) (n : nat) :
  ∃ n' : nat, (n' = n ∨ n' = S n) ∧
    let c := (classifyQuery
                {| PartialDNSQuery.query := Some (resolvedQuery data);
                   PartialDNSQuery.length := Some (String_length (resolvedQuery data));
                   PartialDNSQuery.entropy := Some (calculateEntropy (resolvedQuery data));
                   PartialDNSQuery.threatScore := None |} n').1 in
    DNSQuery.label (normalizeDNSQuery data n).1 = Some (Classification.label c)
    ∧ DNSQuery.confidence (normalizeDNSQuery data n).1 = Some (Classification.confidence c).
Proof.
  unfold normalizeDNSQuery. fold (resolvedQuery data).
  destruct (truthy (data !! js "id")); run_state.
  - exists n. split; [by left|]. by destruct (classifyQuery _ n) as [c n1].
  - exists (S n). split; [by right|]. by destruct (classifyQuery _ (S n)) as [c n1].
Qed.

(** X7: a normalised record always carries a label and a confidence, and
    since the classifier runs before the score exists the cap of 0.99 is never
    reached: the confidence lies in [0.7, 0.8] for Tunneling and in
    [0.8, 0.95] for Normal, for draws of [Math.random] in [0, 1).  (With exact
    additions the upper ends are not reached; the engine, which rounds, does
    reach 0.95 at the largest draw.) *)
Theorem normalizeDNSQuery_confidence_band `{Host}
    (data : gmap jsstring jsstring) (n : nat) :
  (∀ k : nat, 0 <= Math_random_at k < 1) →
  let q := (normalizeDNSQuery data n).1 in
  match DNSQuery.label q, DNSQuery.confidence q with
  | Some Tunneling, Some c => 0.7 <= c <= 0.8
  | Some Normal, Some c => 0.8 <= c <= 0.95
  | _, _ => False
  end.
Proof.
  intros Hr. cbv zeta.
  destruct (normalizeDNSQuery_classification data n) as (n' & _ & Hlabel & Hconf).
  cbv zeta in Hlabel, Hconf. rewrite Hlabel, Hconf. clear Hlabel Hconf.
  destruct (Hr n') as [Hr0 Hr1]. unfold classifyQuery. cbn [PartialDNSQuery.entropy
    PartialDNSQuery.length PartialDNSQuery.threatScore default from_option id].
  destruct (gt _ 4.2 || gt _ 55 || gt 0 60); run_state; unfold Math_min.
  - change (0 / 200) with (0 # 200).
    destruct (Q.min_spec 0.99 (0.7 + (0 # 200) + Math_random_at n' * 0.1)) as [[? ->]|[? ->]];
      lra.
  - destruct (Q.min_spec 0.99 (0.8 + Math_random_at n' * 0.15)) as [[? ->]|[? ->]]; lra.
Qed.

Lemma normalizeDNSQuery_confidence_band_witness :
  (∀ k : nat, 0 <= Math_random_at (Host := RefHost.host) k < 1)
  ∧ match DNSQuery.label (normalizeDNSQuery (H := RefHost.host) queryOnly 0%nat).1,
          DNSQuery.confidence (normalizeDNSQuery (H := RefHost.host) queryOnly 0%nat).1 with
    | Some Tunneling, Some c => 0.7 <= c <= 0.8
    | Some Normal, Some c => 0.8 <= c <= 0.95
    | _, _ => False
    end.
Proof.
  assert (∀ k : nat, 0 <= Math_random_at (Host := RefHost.host) k < 1) as Hr
    by (intros k; simpl; split; [discriminate | reflexivity]).
  split; [exact Hr|].
  apply (normalizeDNSQuery_confidence_band (H := RefHost.host) queryOnly 0%nat Hr).
Defined.

(** ** Classifier: further properties *)

(** X8: a supplied score above 60 decides the outcome on its own: the label
    is Tunneling and the confidence is exactly the cap 0.99, whatever the
    entropy, the length and the (non-negative) draw. *)
Theorem classifyQuery_high_score_saturates `{Host} (query : PartialDNSQuery.t) (n : nat) :
  60 < classifierScore query →
  0 <= Math_random_at n →
  let c := (classifyQuery query n).1 in
  Classification.label c = Tunneling ∧ Classification.confidence c = 0.99.
Proof.
  intros Hscore Hr. cbv zeta. split.
  - rewrite classifyQuery_label. apply gt_true in Hscore. rewrite Hscore.
    by rewrite orb_true_r.
  - unfold classifyQuery.
    fold (classifierEntropy query) (classifierLength query) (classifierScore query).
    assert (gt (classifierScore query) 60 = true) as -> by (by apply gt_true).
    rewrite orb_true_r. run_state. unfold Math_min, Qmin, GenericMinMax.gmin.
    destruct (Qcompare_spec 0.99 (0.7 + classifierScore query / 200 + Math_random_at n * 0.1))
      as [?|?|Hgt]; [done | done |].
    assert (0.3 < classifierScore query / 200) by (apply Qlt_shift_div_l; lra).
    set (t := classifierScore query / 200) in *. lra.
Qed.

Lemma classifyQuery_high_score_saturates_witness :
  60 < classifierScore borderlineQuery
  ∧ 0 <= Math_random_at (Host := RefHost.host) 0%nat
  ∧ Classification.label (classifyQuery (H := RefHost.host) borderlineQuery 0%nat).1 = Tunneling
  ∧ Classification.confidence (classifyQuery (H := RefHost.host) borderlineQuery 0%nat).1 = 0.99.
Proof.
  assert (60 < classifierScore borderlineQuery) as Hscore by reflexivity.
  assert (0 <= Math_random_at (Host := RefHost.host) 0%nat) as Hr by (simpl; discriminate).
  repeat (split; [assumption|]).
  apply (classifyQuery_high_score_saturates (H := RefHost.host) borderlineQuery 0%nat Hscore Hr).
Defined.

(** ** Threat Scorer: further properties *)

Lemma Qfloor_plus_Z (x : number) (k : Z) : Qfloor (x + inject_Z k) = (Qfloor x + k)%Z.
Proof.
  pose proof (Qfloor_le x). pose proof (Qlt_floor x).
  pose proof (Qfloor_le (x + inject_Z k)). pose proof (Qlt_floor (x + inject_Z k)).
  rewrite inject_Z_plus in *. change (inject_Z 1) with 1 in *.
  assert (inject_Z (Qfloor (x + inject_Z k)) < inject_Z (Qfloor x + k + 1)) as Hup.
  { rewrite !inject_Z_plus. change (inject_Z 1) with 1. lra. }
  assert (inject_Z (Qfloor x + k) < inject_Z (Qfloor (x + inject_Z k) + 1)) as Hlow.
  { rewrite !inject_Z_plus. change (inject_Z 1) with 1. lra. }
  rewrite <- Zlt_Qlt in Hup, Hlow. lia.
Qed.

Lemma entropyFactor_mono (e1 e2 : number) :
  e1 <= e2 → ThreatSpec.entropyFactor e1 <= ThreatSpec.entropyFactor e2.
Proof.
  intros He. unfold ThreatSpec.entropyFactor.
  destruct (Qle_bool e1 3.5) eqn:H1, (Qle_bool e2 3.5) eqn:H2.
  - lra.
  - assert (3.5 < e2) by (apply gt_true; unfold gt; by rewrite H2).
    apply Q.min_glb; lra.
  - apply Qle_bool_iff in H2.
    assert (3.5 < e1) by (apply gt_true; unfold gt; by rewrite H1). lra.
  - apply Q.min_le_compat_l. lra.
Qed.

Lemma lengthFactor_mono (l1 l2 : number) :
  l1 <= l2 → ThreatSpec.lengthFactor l1 <= ThreatSpec.lengthFactor l2.
Proof.
  intros He. unfold ThreatSpec.lengthFactor.
  destruct (Qle_bool l1 40) eqn:H1, (Qle_bool l2 40) eqn:H2.
  - lra.
  - assert (40 < l2) by (apply gt_true; unfold gt; by rewrite H2).
    apply Q.min_glb; lra.
  - apply Qle_bool_iff in H2.
    assert (40 < l1) by (apply gt_true; unfold gt; by rewrite H1). lra.
  - apply Q.min_le_compat_l. lra.
Qed.

(** X9: the threat score is monotone in the entropy and in the length: of two
    records that agree on response code, query type, location and reputation,
    the one with the larger entropy and length never scores lower. *)
Theorem calculateThreatScore_monotone (q1 q2 : DNSQuery.t) :
  DNSQuery.responseCode q1 = DNSQuery.responseCode q2 →
  DNSQuery.type q1 = DNSQuery.type q2 →
  DNSQuery.location q1 = DNSQuery.location q2 →
  DNSQuery.reputation q1 = DNSQuery.reputation q2 →
  DNSQuery.entropy q1 <= DNSQuery.entropy q2 →
  DNSQuery.length q1 <= DNSQuery.length q2 →
  calculateThreatScore q1 <= calculateThreatScore q2.
Proof.
  intros Hrc Hty Hloc Hrep He Hl. rewrite !calculateThreatScore_sum.
  unfold ThreatSpec.threatScore. apply Q.min_le_compat_l.
  rewrite <- Zle_Qle. apply Qfloor_resp_le.
  unfold ThreatSpec.sumOfFactors. rewrite Hrc, Hty, Hloc, Hrep.
  pose proof (entropyFactor_mono _ _ He). pose proof (lengthFactor_mono _ _ Hl). lra.
Qed.

Lemma calculateThreatScore_monotone_witness :
  DNSQuery.responseCode nxDomainQuery = DNSQuery.responseCode noisierQuery
  ∧ DNSQuery.type nxDomainQuery = DNSQuery.type noisierQuery
  ∧ DNSQuery.location nxDomainQuery = DNSQuery.location noisierQuery
  ∧ DNSQuery.reputation nxDomainQuery = DNSQuery.reputation noisierQuery
  ∧ DNSQuery.entropy nxDomainQuery <= DNSQuery.entropy noisierQuery
  ∧ DNSQuery.length nxDomainQuery <= DNSQuery.length noisierQuery
  ∧ calculateThreatScore nxDomainQuery <= calculateThreatScore noisierQuery.
Proof.
  assert (DNSQuery.entropy nxDomainQuery <= DNSQuery.entropy noisierQuery) as He
    by (simpl; discriminate).
  assert (DNSQuery.length nxDomainQuery <= DNSQuery.length noisierQuery) as Hl
    by (simpl; discriminate).
  repeat (split; [first [reflexivity | assumption]|]).
  apply (calculateThreatScore_monotone nxDomainQuery noisierQuery
           eq_refl eq_refl eq_refl eq_refl He Hl).
Defined.

Lemma threatScore_shift (x : number) (k : Z) :
  (0 ≤ k)%Z →
  Qmin 100 (inject_Z (Qfloor (x + (1 # 2)))) <= Qmin 100 (inject_Z (Qfloor (x + inject_Z k + (1 # 2))))
  ∧ Qmin 100 (inject_Z (Qfloor (x + inject_Z k + (1 # 2))))
    <= Qmin 100 (inject_Z (Qfloor (x + (1 # 2)))) + inject_Z k.
Proof.
  intros Hk.
  assert (x + inject_Z k + (1 # 2) == x + (1 # 2) + inject_Z k) as Heq by ring.
  rewrite (Qfloor_comp _ _ Heq), Qfloor_plus_Z, inject_Z_plus.
  assert (0 <= inject_Z k) by (change 0 with (inject_Z 0); by rewrite <- Zle_Qle).
  set (a := inject_Z (Qfloor (x + (1 # 2)))).
  destruct (Q.min_spec 100 a) as [[? ->]|[? ->]],
           (Q.min_spec 100 (a + inject_Z k)) as [[? ->]|[? ->]]; split; lra.
Qed.

(** Re-scoring a record that had no location, once a location is known. *)
Lemma enrichWithGeo_score_change (q : DNSQuery.t) (geo : GeoData.t) :
  DNSQuery.location q = None →
  let new := DNSQuery.threatScore (enrichWithGeo q geo) in
  calculateThreatScore q - 5 <= new <= calculateThreatScore q + 10
  ∧ (if ThreatSpec.highRisk (Some (GeoData.location geo))
     then calculateThreatScore q <= new
     else new <= calculateThreatScore q).
Proof.
  intros Hloc. cbv zeta. cbn [enrichWithGeo DNSQuery.threatScore].
  rewrite !calculateThreatScore_sum. unfold ThreatSpec.threatScore.
  set (rest := ThreatSpec.entropyFactor (DNSQuery.entropy q)
               + ThreatSpec.lengthFactor (DNSQuery.length q)
               + ThreatSpec.responseCodeFactor (DNSQuery.responseCode q)
               + ThreatSpec.queryTypeFactor (DNSQuery.type q)
               + ThreatSpec.reputationFactor (DNSQuery.reputation q)).
  assert (ThreatSpec.sumOfFactors ThreatSpec.geoFactor_falsy q == rest + inject_Z 5) as Hold.
  { unfold ThreatSpec.sumOfFactors. rewrite Hloc.
    assert (ThreatSpec.geoFactor_falsy None = 5) as -> by reflexivity.
    unfold rest. change (inject_Z 5) with 5. ring. }
  assert (∀ g : number,
            ThreatSpec.geoFactor_falsy (Some (GeoData.location geo)) = g →
            ThreatSpec.sumOfFactors ThreatSpec.geoFactor_falsy
              (withLocation q (GeoData.location geo)) == rest + g) as Hnew.
  { intros g <-. unfold ThreatSpec.sumOfFactors, rest. simpl. ring. }
  assert (∀ a b : number, a == b →
            Qmin 100 (inject_Z (Qfloor (a + (1 # 2))))
            = Qmin 100 (inject_Z (Qfloor (b + (1 # 2))))) as Hcomp.
  { intros a b Hab. f_equal. f_equal. apply Qfloor_comp. by rewrite Hab. }
  rewrite (Hcomp _ _ Hold).
  pose proof (threatScore_shift rest 5 ltac:(lia)) as [H5a H5b].
  pose proof (threatScore_shift rest 15 ltac:(lia)) as [H15a H15b].
  pose proof (threatScore_shift (rest + inject_Z 5) 10 ltac:(lia)) as [H10a H10b].
  assert (rest + inject_Z 5 + inject_Z 10 == rest + inject_Z 15) as H510
    by (rewrite <- Qplus_assoc, <- inject_Z_plus; reflexivity).
  rewrite (Hcomp _ _ H510) in H10a, H10b.
  change (inject_Z 10) with 10 in *. change (inject_Z 5) with 5 in *.
  destruct (ThreatSpec.highRisk (Some (GeoData.location geo))) eqn:Hrisk.
  - assert (ThreatSpec.geoFactor_falsy (Some (GeoData.location geo)) = 15) as Hg
      by (unfold ThreatSpec.geoFactor_falsy; by rewrite Hrisk).
    rewrite (Hcomp _ _ (Hnew 15 Hg)). change 15 with (inject_Z 15).
    split; [split; lra | lra].
  - assert (ThreatSpec.geoFactor_falsy (Some (GeoData.location geo)) = 5
            ∨ ThreatSpec.geoFactor_falsy (Some (GeoData.location geo)) = 0) as [Hg|Hg]
      by (unfold ThreatSpec.geoFactor_falsy; rewrite Hrisk; case_decide; auto).
    + rewrite (Hcomp _ _ (Hnew 5 Hg)). split; [split|]; lra.
    + rewrite (Hcomp _ _ (Hnew 0 Hg)).
      assert (rest + 0 == rest) as H0 by ring. rewrite (Hcomp _ _ H0). split; [split|]; lra.
Qed.

Lemma enrich_normalised_high_risk `{Host} (data : gmap jsstring jsstring) (n : nat)
    (geo : GeoData.t) :
  existsb (includes (GeoData.location geo)) highRiskLocations = true →
  DNSQuery.threatScore (normalizeDNSQuery data n).1
  <= DNSQuery.threatScore (enrichWithGeo (normalizeDNSQuery data n).1 geo).
Proof.
  intros Hrisk. destruct (normalizeDNSQuery_own_score data n) as [Hscore Hloc].
  pose proof (enrichWithGeo_score_change _ geo Hloc) as [_ Hside].
  cbv zeta in Hside. change (ThreatSpec.highRisk (Some (GeoData.location geo)))
    with (existsb (includes (GeoData.location geo)) highRiskLocations) in Hside.
  rewrite Hrisk in Hside. by rewrite Hscore.
Qed.

Lemma enrich_normalised_low_risk `{Host} (data : gmap jsstring jsstring) (n : nat)
    (geo : GeoData.t) :
  existsb (includes (GeoData.location geo)) highRiskLocations = false →
  DNSQuery.threatScore (enrichWithGeo (normalizeDNSQuery data n).1 geo)
  <= DNSQuery.threatScore (normalizeDNSQuery data n).1.
Proof.
  intros Hrisk. destruct (normalizeDNSQuery_own_score data n) as [Hscore Hloc].
  pose proof (enrichWithGeo_score_change _ geo Hloc) as [_ Hside].
  cbv zeta in Hside. change (ThreatSpec.highRisk (Some (GeoData.location geo)))
    with (existsb (includes (GeoData.location geo)) highRiskLocations) in Hside.
  rewrite Hrisk in Hside. by rewrite Hscore.
Qed.

Lemma sumOfFactors_withLocation (q : DNSQuery.t) (location : jsstring) :
  DNSQuery.location q = None →
  let d := ThreatSpec.sumOfFactors ThreatSpec.geoFactor_falsy (withLocation q location)
           - ThreatSpec.sumOfFactors ThreatSpec.geoFactor_falsy q in
  d == -5 ∨ d == 0 ∨ d == 10.
Proof.
  intros Hloc. cbv zeta. unfold ThreatSpec.sumOfFactors. cbn [withLocation DNSQuery.entropy
    DNSQuery.length DNSQuery.responseCode DNSQuery.type DNSQuery.location DNSQuery.reputation].
  rewrite Hloc.
  assert (ThreatSpec.geoFactor_falsy None = 5) as -> by reflexivity.
  unfold ThreatSpec.geoFactor_falsy. destruct (ThreatSpec.highRisk (Some location)).
  - right; right. ring.
  - case_decide; [right; left | left]; ring.
Qed.

(** X10: when a record that had no location is scored again with a location,
    as the import handler does once the geolocation lookup has answered, the
    score the code computes in binary64 moves by at least -6 and at most +11:
    the factor changes by -5, 0 or +10, and the rounding of the running sum
    can add one. *)
Theorem rescoring_with_location_band (q : DNSQuery.t) (location : jsstring) :
  DNSQuery.location q = None →
  Binary64.calculateThreatScore q - 6
    <= Binary64.calculateThreatScore (withLocation q location)
  ∧ Binary64.calculateThreatScore (withLocation q location)
    <= Binary64.calculateThreatScore q + 11.
Proof.
  intros Hloc. pose proof (sumOfFactors_withLocation q location Hloc) as Hd. cbv zeta in Hd.
  destruct (score_near q) as (H1 & H2 & _).
  destruct (score_near (withLocation q location)) as (H3 & H4 & _).
  assert (slack <= 1 # 2) as Hs by (vm_compute; discriminate).
  assert (0 <= slack) as Hs0 by (vm_compute; discriminate).
  unfold Binary64.calculateThreatScore.
  destruct (Math_round_shift (Binary64.score q) (Binary64.score (withLocation q location)) 6 11)
    as [Hr1 Hr2].
  - change (inject_Z 6) with 6. destruct Hd as [Hd|[Hd|Hd]]; lra.
  - change (inject_Z 11) with 11. destruct Hd as [Hd|[Hd|Hd]]; lra.
  - change (inject_Z 6) with 6 in Hr1. change (inject_Z 11) with 11 in Hr2. split.
    + assert (Math_min 100 (Math_round (Binary64.score q))
              <= Math_min 100 (Math_round (Binary64.score (withLocation q location))) + 6);
        [|lra].
      apply Math_min_shift; lra.
    + apply Math_min_shift; lra.
Qed.

Lemma rescoring_with_location_band_witness :
  DNSQuery.location tippingQuery = None
  ∧ Binary64.calculateThreatScore tippingQuery - 6
    <= Binary64.calculateThreatScore (withLocation tippingQuery (js "Unknown"))
  ∧ Binary64.calculateThreatScore (withLocation tippingQuery (js "Unknown"))
    <= Binary64.calculateThreatScore tippingQuery + 11.
Proof.
  split; [reflexivity|].
  apply (rescoring_with_location_band tippingQuery (js "Unknown") eq_refl).
Defined.

(** The rise of 11 is reached: 56 before the lookup, 67 once it has failed. *)
Example rescoring_by_eleven :
  Binary64.calculateThreatScore tippingQuery == 56
  ∧ Binary64.calculateThreatScore (withLocation tippingQuery (js "Unknown")) == 67.
Proof. split; vm_compute; reflexivity. Qed.

(** ** Multi-Format Parser: further properties *)

Lemma trimStart_blank (s : jsstring) : forallb isWhiteSpace s = true → trimStart s = [].
Proof.
  induction s as [|c s IH]; [done|]. simpl. intros [Hc Hs]%andb_true_iff.
  rewrite Hc. by apply IH.
Qed.

Lemma trim_blank (s : jsstring) : forallb isWhiteSpace s = true → trim s = [].
Proof. intros Hs. unfold trim. by rewrite (trimStart_blank s Hs). Qed.

(** X11: content that holds nothing but white space (the empty string
    included) is parsed into no record, without any call of [JSON.parse] or
    [Math.random]. *)
Theorem parseLogContent_blank `{Host} (content : jsstring) (n : nat) :
  forallb isWhiteSpace content = true →
  parseLogContent content n = (Return [], n).
Proof.
  intros Hblank. unfold parseLogContent. by rewrite (trim_blank content Hblank).
Qed.

Lemma logLines_nil (s : jsstring) :
  Forall (λ l, trim l = [] ∨ startsWith (trim l) (js "#") = true) (split s newline) →
  logLines s = [].
Proof.
  unfold logLines. induction 1 as [|l ls Hl _ IH]; [done|].
  cbn [map]. rewrite filter_cons. rewrite IH.
  destruct Hl as [-> | ->]; [done|]. by rewrite andb_false_r.
Qed.

(** X12: content that is not one JSON document and whose lines are all blank
    or comments makes [parseLogContent] throw: no line is left, [lines[0]] is
    [undefined], and reading [firstLine.includes] raises a [TypeError]. *)
Theorem parseLogContent_only_comments `{Host} (content : jsstring) (n : nat) :
  (0 < length (trim content))%nat →
  JSON_parse (trim content) = None →
  Forall (λ l, trim l = [] ∨ startsWith (trim l) (js "#") = true)
         (split (trim content) newline) →
  parseLogContent content n = (TypeError, n).
Proof.
  intros Hne Hdoc Hlines. unfold parseLogContent.
  destruct (trim content) as [|c t] eqn:Htrim; [simpl in Hne; lia|].
  rewrite Hdoc. by rewrite (logLines_nil _ Hlines).
Qed.

Lemma State_mapM_normalizeDNSQuery `{Host} (maps : list (gmap jsstring jsstring)) (n : nat) :
  map DNSQuery.query (State_mapM normalizeDNSQuery maps n).1 = map resolvedQuery maps.
Proof.
  revert n. induction maps as [|m maps IH]; intros n; [done|].
  cbn [State_mapM]. unfold mbind, mret, State_bind, State_ret.
  pose proof (normalizeDNSQuery_query m n) as Hq.
  destruct (normalizeDNSQuery m n) as [q n1]. simpl in Hq.
  specialize (IH n1). destruct (State_mapM normalizeDNSQuery maps n1) as [qs n2].
  simpl in *. by rewrite Hq, IH.
Qed.

(** X13: when the whole content is one JSON document all of whose items are
    objects with string values only (one such object, or an array of them),
    the result has exactly one record per item, in the order of the items, and
    each record carries the query name resolved from its item, the empty
    string when the item has none: no item is skipped.  (An item of another
    shape is outside the model: there the code may throw inside its [try] and
    fall back to the line strategies.) *)
Theorem parseLogContent_json_document `{Host}
    (content : jsstring) (parsed : JSON) (maps : list (gmap jsstring jsstring)) (n : nat) :
  (0 < length (trim content))%nat →
  JSON_parse (trim content) = Some parsed →
  mapM asFieldMap (documentItems parsed) = Some maps →
  ∃ qs, (parseLogContent content n).1 = Return qs
        ∧ length qs = length (documentItems parsed)
        ∧ map DNSQuery.query qs = map resolvedQuery maps.
Proof.
  intros Hne Hdoc Hmaps. unfold parseLogContent.
  destruct (trim content) as [|c t] eqn:Htrim; [simpl in Hne; lia|].
  rewrite Hdoc. fold (documentItems parsed). rewrite Hmaps.
  unfold mbind, mret, State_bind, State_ret.
  pose proof (State_mapM_normalizeDNSQuery maps n) as Hnames.
  destruct (State_mapM normalizeDNSQuery maps n) as [qs n1]. simpl in *.
  exists qs. split; [done|]. split; [|done].
  apply length_mapM in Hmaps. rewrite Hmaps.
  by rewrite <- (length_map DNSQuery.query), Hnames, length_map.
Qed.

Lemma includes_dot (p : jsstring) : includes p [dot] = true → In dot p.
Proof.
  induction p as [|c p IH]; [done|]. simpl.
  intros [Hc | Hp]%orb_true_iff.
  - left. apply andb_true_iff in Hc as [Hc _]. by apply N.eqb_eq.
  - right. by apply IH.
Qed.

Lemma dotted_not_digits (p : jsstring) : includes p [dot] = true → matchesDigits p = false.
Proof.
  intros Hdot%includes_dot. unfold matchesDigits. destruct p as [|c p]; [done|].
  apply not_true_is_false. intros Hall.
  rewrite forallb_forall in Hall. by specialize (Hall _ Hdot).
Qed.

Lemma find_ext_bool {A : Type} (f g : A → bool) (l : list A) :
  (∀ x, f x = g x) → find f l = find g l.
Proof. intros Hfg. induction l as [|x l IH]; [done|]. simpl. by rewrite Hfg, IH. Qed.

Lemma textFields_lookup_query `{Host} (line : jsstring) :
  textFields line ≫= (.!! js "query") = queryToken line.
Proof.
  unfold textFields. fold (queryToken line).
  destruct (queryToken line) as [[|c q]|] eqn:Htoken; [|  |done].
  { by apply queryToken_nonempty in Htoken. }
  cbn [mbind option_bind].
  set (obj0 := ({[ js "query" := c :: q ]} : gmap jsstring jsstring)).
  set (obj1 := match find matchesIPv4 (splitWhiteSpace line) with
               | Some ip => <[js "sourceIp" := ip]> obj0
               | None => obj0
               end).
  assert (obj1 !! js "query" = Some (c :: q)) as H1.
  { unfold obj1. destruct (find matchesIPv4 _).
    - rewrite lookup_insert_ne by js_neq. apply lookup_singleton_eq.
    - apply lookup_singleton_eq. }
  destruct (10 <? length (hd [] (splitWhiteSpace line)))%nat.
  - rewrite lookup_insert_ne by js_neq. by rewrite lookup_insert_ne by js_neq.
  - by rewrite lookup_insert_ne by js_neq.
Qed.

(** X14: in the free-text fallback the test that the token is not purely
    numeric never rejects anything, since a token with a dot is not a string
    of digits: the query name is the first token that contains a dot, be it
    an IPv4 address or a timestamp with fractional seconds. *)
Theorem textFields_query_first_dotted_token `{Host} (line : jsstring) :
  textFields line ≫= (.!! js "query")
  = find (λ p, includes p [dot]) (splitWhiteSpace line).
Proof.
  rewrite textFields_lookup_query. unfold queryToken. apply find_ext_bool.
  intros p. destruct (includes p [dot]) eqn:Hdot; [|done].
  by rewrite (dotted_not_digits p Hdot).
Qed.

Lemma parseLogContent_blank_witness :
  forallb isWhiteSpace (js "   " ++ [newline; tab]) = true
  ∧ parseLogContent (H := RefHost.host) (js "   " ++ [newline; tab]) 0%nat = (Return [], 0%nat).
Proof.
  assert (forallb isWhiteSpace (js "   " ++ [newline; tab]) = true) as Hblank by reflexivity.
  split; [exact Hblank|].
  apply (parseLogContent_blank (H := RefHost.host) _ 0%nat Hblank).
Defined.

Lemma parseLogContent_only_comments_witness :
  (0 < length (trim commentsOnly))%nat
  ∧ JSON_parse (Host := RefHost.host) (trim commentsOnly) = None
  ∧ Forall (λ l, trim l = [] ∨ startsWith (trim l) (js "#") = true)
           (split (trim commentsOnly) newline)
  ∧ parseLogContent (H := RefHost.host) commentsOnly 0%nat = (TypeError, 0%nat).
Proof.
  assert (0 < length (trim commentsOnly))%nat as Hne by (vm_compute; lia).
  assert (JSON_parse (Host := RefHost.host) (trim commentsOnly) = None) as Hdoc
    by (vm_compute; reflexivity).
  assert (Forall (λ l, trim l = [] ∨ startsWith (trim l) (js "#") = true)
                 (split (trim commentsOnly) newline)) as Hlines.
  { repeat constructor; first [by left | by right]. }
  repeat (split; [assumption|]).
  apply (parseLogContent_only_comments (H := RefHost.host) commentsOnly 0%nat Hne Hdoc Hlines).
Defined.

Lemma parseLogContent_json_document_witness :
  (0 < length (trim documentOfTwo))%nat
  ∧ JSON_parse (Host := RefHost.host) (trim documentOfTwo)
    = Some (JArr [JObj [(js "query", JStr (js "a.example.com"))];
                  JObj [(js "host", JStr (js "b.example.com"))]])
  ∧ mapM asFieldMap
      (documentItems (JArr [JObj [(js "query", JStr (js "a.example.com"))];
                            JObj [(js "host", JStr (js "b.example.com"))]]))
    = Some [ {[ js "query" := js "a.example.com" ]}; {[ js "host" := js "b.example.com" ]} ]
  ∧ ∃ qs, (parseLogContent (H := RefHost.host) documentOfTwo 0%nat).1 = Return qs
      ∧ length qs
        = length (documentItems (JArr [JObj [(js "query", JStr (js "a.example.com"))];
                                       JObj [(js "host", JStr (js "b.example.com"))]]))
      ∧ map DNSQuery.query qs
        = map resolvedQuery
            [ {[ js "query" := js "a.example.com" ]}; {[ js "host" := js "b.example.com" ]} ].
Proof.
  assert (0 < length (trim documentOfTwo))%nat as Hne by (vm_compute; lia).
  assert (JSON_parse (Host := RefHost.host) (trim documentOfTwo)
          = Some (JArr [JObj [(js "query", JStr (js "a.example.com"))];
                        JObj [(js "host", JStr (js "b.example.com"))]])) as Hdoc
    by (vm_compute; reflexivity).
  assert (mapM asFieldMap
            (documentItems (JArr [JObj [(js "query", JStr (js "a.example.com"))];
                                  JObj [(js "host", JStr (js "b.example.com"))]]))
          = Some [ {[ js "query" := js "a.example.com" ]};
                   {[ js "host" := js "b.example.com" ]} ]) as Hmaps
    by reflexivity.
  repeat (split; [assumption|]).
  apply (parseLogContent_json_document (H := RefHost.host) documentOfTwo _ _ 0%nat
           Hne Hdoc Hmaps).
Defined.

Lemma Object_set_lookup (obj : gmap jsstring jsstring) (key v h : jsstring) :
  Object_set obj key v !! h
  = if decide (key = h ∧ key ≠ js "__proto__") then Some v else obj !! h.
Proof.
  unfold Object_set, strictEq. case_bool_decide as Hproto.
  - case_decide as Hk; [by destruct Hk|done].
  - case_decide as Hk.
    + destruct Hk as [-> _]. apply lookup_insert_eq.
    + apply lookup_insert_ne. intros ->. by apply Hk.
Qed.

Lemma csvFields_fold_notin (parts headers : list jsstring) (h : jsstring) :
  h ∉ headers →
  ∀ (k : nat) (obj : gmap jsstring jsstring),
  fold_left (fun obj '(i, h) =>
               match parts !! i with
               | Some v => Object_set obj h v
               | None => obj
               end)
            (imap (λ j, pair (k + j)%nat) headers) obj !! h = obj !! h.
Proof.
  induction headers as [|x headers IH]; intros Hnotin k obj; [done|].
  apply not_elem_of_cons in Hnotin as [Hx Hrest].
  cbn [imap fold_left].
  rewrite (imap_ext _ (λ j, pair (S k + j)%nat)) by (intros; simpl; f_equal; lia).
  rewrite IH by done. simpl.
  destruct (parts !! (k + 0)%nat); [|done].
  rewrite Object_set_lookup. case_decide as Hk; [|done]. by destruct Hk as [-> _].
Qed.

Lemma csvFields_fold_lookup (parts headers : list jsstring) (h : jsstring) (i : nat) :
  NoDup headers → headers !! i = Some h → h ≠ js "__proto__" →
  ∀ (k : nat) (obj : gmap jsstring jsstring),
  fold_left (fun obj '(i, h) =>
               match parts !! i with
               | Some v => Object_set obj h v
               | None => obj
               end)
            (imap (λ j, pair (k + j)%nat) headers) obj !! h
  = match parts !! (k + i)%nat with
    | Some v => Some v
    | None => obj !! h
    end.
Proof.
  intros Hnd. revert i. induction Hnd as [|x headers Hx Hnd IH]; intros i Hi Hproto k obj;
    [done|].
  cbn [imap fold_left].
  rewrite (imap_ext _ (λ j, pair (S k + j)%nat)) by (intros; simpl; f_equal; lia).
  destruct i as [|i].
  - injection Hi as ->. rewrite csvFields_fold_notin by done. simpl.
    destruct (parts !! (k + 0)%nat); [|done].
    rewrite Object_set_lookup. by rewrite decide_True.
  - simpl in Hi. rewrite (IH i Hi Hproto).
    replace (S k + i)%nat with (k + S i)%nat by lia.
    destruct (parts !! (k + S i)%nat); [done|]. simpl.
    assert (x ≠ h) as Hxh by (intros ->; apply Hx; by eapply list_elem_of_lookup_2).
    destruct (parts !! (k + 0)%nat); [|done].
    rewrite Object_set_lookup. case_decide as Hk; [by destruct Hk|done].
Qed.

(** X15: a CSV line that is accepted is read by position: under pairwise
    distinct headers, the field named by the [i]-th header is the [i]-th cell
    of the line (trimmed, surrounding quotes removed), and is absent when the
    line has fewer cells. *)
Theorem csvFields_by_position (currentHeaders : list jsstring) (line h : jsstring)
    (i : nat) (obj : gmap jsstring jsstring) :
  NoDup currentHeaders → currentHeaders !! i = Some h →
  strictEq h (js "__proto__") = false →
  csvFields currentHeaders line = Some obj →
  obj !! h = map csvCell (split line comma) !! i.
Proof.
  intros Hnd Hi Hproto Hobj. unfold csvFields in Hobj.
  destruct (_ || _ || _) in Hobj; [|done]. injection Hobj as <-.
  assert (h ≠ js "__proto__") as Hneq
    by (intros ->; unfold strictEq in Hproto; by rewrite bool_decide_eq_true_2 in Hproto).
  change (imap pair currentHeaders) with (imap (λ j, pair (0 + j)%nat) currentHeaders).
  rewrite (csvFields_fold_lookup _ _ h i Hnd Hi Hneq 0%nat ∅). simpl.
  fold csvCell. by destruct (map csvCell (split line comma) !! i).
Qed.

Lemma csvFields_by_position_witness :
  NoDup defaultHeaders ∧ defaultHeaders !! 2%nat = Some (js "query")
  ∧ strictEq (js "query") (js "__proto__") = false
  ∧ csvFields defaultHeaders (js "2024-01-01T00:00:00Z, 10.0.0.1 ,'example.com'")
    = Some (default ∅ (csvFields defaultHeaders
                         (js "2024-01-01T00:00:00Z, 10.0.0.1 ,'example.com'")))
  ∧ default ∅ (csvFields defaultHeaders
                 (js "2024-01-01T00:00:00Z, 10.0.0.1 ,'example.com'")) !! js "query"
    = map csvCell (split (js "2024-01-01T00:00:00Z, 10.0.0.1 ,'example.com'") comma) !! 2%nat.
Proof.
  assert (NoDup defaultHeaders) as Hnd
    by (apply (bool_decide_unpack (NoDup defaultHeaders)); vm_compute; exact I).
  assert (defaultHeaders !! 2%nat = Some (js "query")) as Hi by reflexivity.
  assert (strictEq (js "query") (js "__proto__") = false) as Hproto by reflexivity.
  assert (csvFields defaultHeaders (js "2024-01-01T00:00:00Z, 10.0.0.1 ,'example.com'")
          = Some (default ∅ (csvFields defaultHeaders
                               (js "2024-01-01T00:00:00Z, 10.0.0.1 ,'example.com'"))))
    as Hobj by reflexivity.
  repeat (split; [assumption|]).
  apply (csvFields_by_position defaultHeaders _ (js "query") 2%nat _ Hnd Hi Hproto Hobj).
Defined.

Lemma afterDigits1to3_group (g r : jsstring) :
  digitGroup g = true → In r (afterDigits1to3 (g ++ r)).
Proof.
  unfold digitGroup, matchesDigits. intros [Hd Hlen]%andb_true_iff.
  apply Nat.leb_le in Hlen.
  destruct g as [|a [|b [|c [|? ?]]]]; try done; simpl in Hd |- *.
  - rewrite andb_true_r in Hd. rewrite Hd.
    destruct r as [|b r]; [by left|]. destruct (isDigit b); [|by left].
    destruct r as [|c r]; [by right; left|]. destruct (isDigit c); simpl; auto.
  - apply andb_true_iff in Hd as [Ha Hb]. rewrite andb_true_r in Hb. rewrite Ha, Hb.
    destruct r as [|c r]; [by left|]. destruct (isDigit c); simpl; auto.
  - apply andb_true_iff in Hd as [Ha [Hb Hc]%andb_true_iff].
    rewrite andb_true_r in Hc. rewrite Ha, Hb, Hc. by left.
  - simpl in Hlen. lia.
Qed.

Lemma octetDot_group (k : jsstring → bool) (g r : jsstring) :
  digitGroup g = true → k r = true → octetDot k (g ++ dot :: r) = true.
Proof.
  intros Hg Hk. unfold octetDot. apply existsb_exists.
  exists (dot :: r). split; [by apply afterDigits1to3_group|].
  by rewrite N.eqb_refl.
Qed.

Lemma octetEnd_group (g : jsstring) : digitGroup g = true → octetEnd g = true.
Proof.
  intros Hg. unfold octetEnd. apply existsb_exists.
  exists []. split; [|done].
  rewrite <- (app_nil_r g) at 1. by apply afterDigits1to3_group.
Qed.

(** X16: the IPv4 pattern of the free-text fallback checks the shape only:
    any four groups of one to three digits joined by dots match, whatever
    their value (999.999.999.999 included). *)
Theorem matchesIPv4_any_digit_groups (a b c d : jsstring) :
  digitGroup a = true → digitGroup b = true → digitGroup c = true → digitGroup d = true →
  matchesIPv4 (a ++ dot :: b ++ dot :: c ++ dot :: d) = true.
Proof.
  intros Ha Hb Hc Hd. unfold matchesIPv4.
  assert (octetDot (octetDot (octetDot octetEnd)) (a ++ dot :: b ++ dot :: c ++ dot :: d) = true)
    as Hmatch.
  { apply octetDot_group; [done|]. apply octetDot_group; [done|].
    apply octetDot_group; [done|]. by apply octetEnd_group. }
  destruct (a ++ dot :: b ++ dot :: c ++ dot :: d); cbn [matchesIPv4_from from_option negb];
    by rewrite Hmatch.
Qed.

Lemma matchesIPv4_any_digit_groups_witness :
  digitGroup (js "999") = true ∧ digitGroup (js "0") = true
  ∧ digitGroup (js "300") = true ∧ digitGroup (js "77") = true
  ∧ matchesIPv4 (js "999" ++ dot :: js "0" ++ dot :: js "300" ++ dot :: js "77") = true.
Proof.
  repeat (split; [reflexivity|]).
  apply (matchesIPv4_any_digit_groups (js "999") (js "0") (js "300") (js "77")
           eq_refl eq_refl eq_refl eq_refl).
Defined.

Lemma split_no_separator (s : jsstring) (sep : N) :
  Forall (λ piece, sep ∉ piece) (split s sep).
Proof.
  induction s as [|c s IH]; simpl.
  - repeat constructor. apply not_elem_of_nil.
  - destruct (N.eqb_spec c sep) as [->|Hc].
    + constructor; [apply not_elem_of_nil | done].
    + destruct (split s sep) as [|piece pieces].
      * repeat constructor. rewrite list_elem_of_singleton. congruence.
      * apply Forall_cons in IH as [Hpiece Hpieces]. constructor; [|done].
        rewrite elem_of_cons. intros [?|?]; [congruence | done].
Qed.

Lemma trimStart_elem_of (s : jsstring) (x : N) : x ∈ trimStart s → x ∈ s.
Proof.
  induction s as [|c s IH]; [done|]. simpl.
  destruct (isWhiteSpace c); [|done]. intros Hx. right. by apply IH.
Qed.

Lemma rev_elem_of {A : Type} (l : list A) (x : A) : x ∈ rev l ↔ x ∈ l.
Proof. rewrite !list_elem_of_In. symmetry. apply in_rev. Qed.

Lemma last_rev {A : Type} (l : list A) : last (rev l) = head l.
Proof. destruct l as [|x l]; [done|]. simpl. apply last_snoc. Qed.

Lemma head_rev {A : Type} (l : list A) : head (rev l) = last l.
Proof. by rewrite <- (rev_involutive l) at 2; rewrite last_rev. Qed.

Lemma trim_elem_of (s : jsstring) (x : N) : x ∈ trim s → x ∈ s.
Proof.
  unfold trim. rewrite rev_elem_of. intros Hx%trimStart_elem_of.
  rewrite rev_elem_of in Hx. by apply trimStart_elem_of.
Qed.

Lemma trimStart_head (s : jsstring) (c : N) :
  head (trimStart s) = Some c → isWhiteSpace c = false.
Proof.
  induction s as [|d s IH]; [done|]. simpl.
  destruct (isWhiteSpace d) eqn:Hd; [done|]. simpl. by intros [= <-].
Qed.

Lemma trimStart_last (s : jsstring) (c : N) :
  last (trimStart s) = Some c → last s = Some c.
Proof.
  induction s as [|d s IH]; [done|]. simpl.
  destruct (isWhiteSpace d); [|done]. intros Hc.
  destruct s as [|e s]; [done|]. by apply IH.
Qed.

Lemma trim_ends (s : jsstring) (c : N) :
  head (trim s) = Some c ∨ last (trim s) = Some c → isWhiteSpace c = false.
Proof.
  unfold trim. rewrite head_rev, last_rev. intros [Hc|Hc].
  - apply trimStart_last in Hc. rewrite last_rev in Hc. by apply trimStart_head in Hc.
  - by apply trimStart_head in Hc.
Qed.

(** X17: every line handed to the CSV and line-by-line strategies is
    non-empty, is not a comment, holds no line feed, and neither starts nor
    ends with white space. *)
Theorem logLines_wellformed (trimmed : jsstring) :
  Forall (λ l, (0 < length l)%nat
               ∧ startsWith l (js "#") = false
               ∧ (newline ∉ l)
               ∧ ∀ c, head l = Some c ∨ last l = Some c → isWhiteSpace c = false)
         (logLines trimmed).
Proof.
  unfold logLines. apply Forall_forall. intros l Hl.
  apply list_elem_of_filter in Hl as [Hkeep Hin].
  apply andb_true_iff in Hkeep as [Hne Hcomment].
  apply list_elem_of_fmap in Hin as (piece & -> & Hpiece).
  split; [|split; [|split]].
  - destruct (trim piece); [done | simpl; lia].
  - by apply negb_true_iff.
  - intros Hnl%trim_elem_of.
    by apply (proj1 (Forall_forall _ _) (split_no_separator trimmed newline) piece).
  - apply trim_ends.
Qed.

(** ** Stats Aggregator: further properties *)

Lemma parseFloat_toFixed_mono (digits : nat) (x y : number) :
  x <= y → parseFloat_toFixed digits x <= parseFloat_toFixed digits y.
Proof.
  intros Hxy. unfold parseFloat_toFixed.
  set (scale := inject_Z (10 ^ Z.of_nat digits)).
  assert (0 < scale) as Hscale.
  { unfold scale. change 0 with (inject_Z 0). rewrite <- Zlt_Qlt. apply Z.pow_pos_nonneg; lia. }
  assert (∀ a b : number, a <= b →
            inject_Z (Qfloor (a * scale + (1 # 2))) / scale
            <= inject_Z (Qfloor (b * scale + (1 # 2))) / scale) as Hmono.
  { intros a b Hab. apply Qmult_le_compat_r; [|apply Qlt_le_weak, Qinv_lt_0_compat, Hscale].
    rewrite <- Zle_Qle. apply Qfloor_resp_le.
    assert (a * scale <= b * scale) by (apply Qmult_le_compat_r; lra). lra. }
  assert (∀ a : number, 0 <= a → 0 <= inject_Z (Qfloor (a * scale + (1 # 2))) / scale) as Hnn.
  { intros a Ha. apply Qle_shift_div_l; [done|]. rewrite Qmult_0_l.
    change 0 with (inject_Z 0). rewrite <- Zle_Qle.
    change 0%Z with (Qfloor 0). apply Qfloor_resp_le.
    assert (0 <= a * scale) by (apply Qmult_le_0_compat; lra). lra. }
  destruct (Qlt_le_dec x 0) as [Hx|Hx], (Qlt_le_dec y 0) as [Hy|Hy].
  - apply Qopp_le_compat, Hmono. lra.
  - pose proof (Hnn (- x) ltac:(lra)). pose proof (Hnn y Hy). lra.
  - lra.
  - by apply Hmono.
Qed.

Lemma fold_sum_bounds {A : Type} (f : A → number) (lo hi : number) (l : list A) :
  Forall (λ a, lo <= f a <= hi) l →
  ∀ init : number,
  init + inject_Z (Z.of_nat (length l)) * lo <= fold_left (λ acc curr, acc + f curr) l init
  ∧ fold_left (λ acc curr, acc + f curr) l init
    <= init + inject_Z (Z.of_nat (length l)) * hi.
Proof.
  induction 1 as [|a l [Ha1 Ha2] _ IH]; intros init.
  - cbn [fold_left length]. change (inject_Z (Z.of_nat 0)) with 0. split; lra.
  - cbn [fold_left length]. destruct (IH (init + f a)) as [IH1 IH2].
    rewrite Nat2Z.inj_succ, <- Z.add_1_r, inject_Z_plus. change (inject_Z 1) with 1.
    split; nra.
Qed.

Lemma average_bounds {A : Type} (f : A → number) (lo hi : number) (l : list A) :
  (0 < length l)%nat →
  Forall (λ a, lo <= f a <= hi) l →
  lo <= fold_left (λ acc curr, acc + f curr) l 0 / inject_Z (Z.of_nat (length l)) <= hi.
Proof.
  intros Hlen Hall.
  assert (0 < inject_Z (Z.of_nat (length l))) as Hn.
  { change 0 with (inject_Z 0). rewrite <- Zlt_Qlt. lia. }
  destruct (fold_sum_bounds f lo hi l Hall 0) as [H1 H2]. split.
  - apply Qle_shift_div_l; [done|]. lra.
  - apply Qle_shift_div_r; [done|]. lra.
Qed.

Lemma parseFloat_toFixed_grid (digits : nat) (x : number) (lo hi : Z) :
  (0 ≤ lo)%Z →
  inject_Z lo / inject_Z (10 ^ Z.of_nat digits) <= x →
  x <= inject_Z hi / inject_Z (10 ^ Z.of_nat digits) →
  ∃ k : Z, (lo ≤ k ≤ hi)%Z
    ∧ parseFloat_toFixed digits x == inject_Z k / inject_Z (10 ^ Z.of_nat digits).
Proof.
  intros Hlo Hx1 Hx2. unfold parseFloat_toFixed.
  assert (0 < inject_Z (10 ^ Z.of_nat digits)) as Hscale.
  { change 0 with (inject_Z 0). rewrite <- Zlt_Qlt. apply Z.pow_pos_nonneg; lia. }
  set (scale := inject_Z (10 ^ Z.of_nat digits)) in *. clearbody scale.
  assert (0 <= inject_Z lo) as Hlo' by (change 0 with (inject_Z 0); by rewrite <- Zle_Qle).
  assert (inject_Z lo <= x * scale) as H1.
  { apply (Qmult_le_compat_r _ _ scale) in Hx1; [|lra].
    assert (inject_Z lo / scale * scale == inject_Z lo) as E by (field; lra). lra. }
  assert (x * scale <= inject_Z hi) as H2.
  { apply (Qmult_le_compat_r _ _ scale) in Hx2; [|lra].
    assert (inject_Z hi / scale * scale == inject_Z hi) as E by (field; lra). lra. }
  destruct (Qlt_le_dec x 0) as [Hneg|_].
  { assert (x * scale < 0); [|lra].
    assert (0 < - x * scale) by (apply Qmult_lt_0_compat; lra). lra. }
  exists (Qfloor (x * scale + (1 # 2))). split; [|reflexivity].
  set (y := x * scale) in *. clearbody y.
  pose proof (Qfloor_le (y + (1 # 2))) as F1. pose proof (Qlt_floor (y + (1 # 2))) as F2.
  rewrite inject_Z_plus in F2. change (inject_Z 1) with 1 in F2.
  split.
  - assert (inject_Z lo < inject_Z (Qfloor (y + (1 # 2))) + 1) as Hlt by lra.
    change 1 with (inject_Z 1) in Hlt. rewrite <- inject_Z_plus, <- Zlt_Qlt in Hlt. lia.
  - assert (inject_Z (Qfloor (y + (1 # 2))) < inject_Z hi + 1) as Hlt by lra.
    change 1 with (inject_Z 1) in Hlt. rewrite <- inject_Z_plus, <- Zlt_Qlt in Hlt. lia.
Qed.

(** X18: the two averages of the statistics stay on the decimal grid within
    the bounds of the records: if every entropy lies between [loE/1000] and
    [hiE/1000], [avgEntropy] is a whole number of thousandths between [loE]
    and [hiE]; if every length lies between [loL/10] and [hiL/10],
    [avgLength] is a whole number of tenths between [loL] and [hiL].  The
    limits on the number of records and on the magnitudes are those within
    which the binary64 sum of the engine, whose last digits differ from the
    exact sum, prints within the bounds as well. *)
Theorem getStats_averages_within_range (logs : list DNSQuery.t) (loE hiE loL hiL : Z) :
  (0 < length logs)%nat → (Z.of_nat (length logs) ≤ 1000000)%Z →
  (0 ≤ loE)%Z → (hiE ≤ 1000000)%Z → (0 ≤ loL)%Z → (hiL ≤ 100000)%Z →
  Forall (λ l, inject_Z loE / 1000 <= DNSQuery.entropy l <= inject_Z hiE / 1000) logs →
  Forall (λ l, inject_Z loL / 10 <= DNSQuery.length l <= inject_Z hiL / 10) logs →
  (∃ k : Z, (loE ≤ k ≤ hiE)%Z
     ∧ FeatureStats.avgEntropy (getStats logs) == inject_Z k / 1000)
  ∧ (∃ k : Z, (loL ≤ k ≤ hiL)%Z
       ∧ FeatureStats.avgLength (getStats logs) == inject_Z k / 10).
Proof.
  intros Hlen _ HloE _ HloL _ HE HL.
  unfold getStats.
  destruct (Nat.eqb_spec (length logs) 0) as [Hz|_]; [lia|].
  cbn [FeatureStats.avgEntropy FeatureStats.avgLength].
  destruct (average_bounds DNSQuery.entropy _ _ logs Hlen HE) as [HE1 HE2].
  destruct (average_bounds DNSQuery.length _ _ logs Hlen HL) as [HL1 HL2].
  split.
  - exact (parseFloat_toFixed_grid 3 _ loE hiE HloE HE1 HE2).
  - exact (parseFloat_toFixed_grid 1 _ loL hiL HloL HL1 HL2).
Qed.

Lemma getStats_averages_within_range_witness :
  (0 < length [nxDomainQuery; noisierQuery])%nat
  ∧ (Z.of_nat (length [nxDomainQuery; noisierQuery]) ≤ 1000000)%Z
  ∧ (0 ≤ 3000)%Z ∧ (5000 ≤ 1000000)%Z ∧ (0 ≤ 100)%Z ∧ (700 ≤ 100000)%Z
  ∧ Forall (λ l, inject_Z 3000 / 1000 <= DNSQuery.entropy l <= inject_Z 5000 / 1000)
      [nxDomainQuery; noisierQuery]
  ∧ Forall (λ l, inject_Z 100 / 10 <= DNSQuery.length l <= inject_Z 700 / 10)
      [nxDomainQuery; noisierQuery]
  ∧ (∃ k : Z, (3000 ≤ k ≤ 5000)%Z
       ∧ FeatureStats.avgEntropy (getStats [nxDomainQuery; noisierQuery])
         == inject_Z k / 1000)
  ∧ (∃ k : Z, (100 ≤ k ≤ 700)%Z
       ∧ FeatureStats.avgLength (getStats [nxDomainQuery; noisierQuery])
         == inject_Z k / 10).
Proof.
  assert (0 < length [nxDomainQuery; noisierQuery])%nat as Hlen by (simpl; lia).
  assert (Z.of_nat (length [nxDomainQuery; noisierQuery]) ≤ 1000000)%Z as Hmany
    by (simpl; lia).
  assert (0 ≤ 3000)%Z as H1 by lia. assert (5000 ≤ 1000000)%Z as H2 by lia.
  assert (0 ≤ 100)%Z as H3 by lia. assert (700 ≤ 100000)%Z as H4 by lia.
  assert (Forall (λ l, inject_Z 3000 / 1000 <= DNSQuery.entropy l <= inject_Z 5000 / 1000)
            [nxDomainQuery; noisierQuery]) as HE
    by (repeat constructor; discriminate).
  assert (Forall (λ l, inject_Z 100 / 10 <= DNSQuery.length l <= inject_Z 700 / 10)
            [nxDomainQuery; noisierQuery]) as HL
    by (repeat constructor; discriminate).
  repeat (split; [assumption|]).
  apply (getStats_averages_within_range [nxDomainQuery; noisierQuery] 3000 5000 100 700
           Hlen Hmany H1 H2 H3 H4 HE HL).
Defined.

(** X19: for a non-empty log, [totalQueries] is the number of records and
    [uniqueSubdomains] is at least 1 and at most [totalQueries]. *)
Theorem getStats_counts (logs : list DNSQuery.t) :
  (0 < length logs)%nat →
  FeatureStats.totalQueries (getStats logs) = inject_Z (Z.of_nat (length logs))
  ∧ 1 <= FeatureStats.uniqueSubdomains (getStats logs)
  ∧ FeatureStats.uniqueSubdomains (getStats logs) <= FeatureStats.totalQueries (getStats logs).
Proof.
  intros Hlen. unfold getStats.
  destruct (Nat.eqb_spec (length logs) 0) as [Hz|_]; [lia|].
  cbn [FeatureStats.totalQueries FeatureStats.uniqueSubdomains].
  set (labels := map (λ l, hd [] (split (DNSQuery.query l) dot)) logs).
  assert (length labels = length logs) as Hlabels by apply length_map.
  split; [done|]. split.
  - change 1 with (inject_Z 1). rewrite <- Zle_Qle.
    assert (size (list_to_set labels : gset jsstring) ≠ 0%nat); [|lia].
    rewrite size_non_empty_iff. destruct labels as [|x labels']; [simpl in Hlabels; lia|].
    set_solver.
  - rewrite <- Zle_Qle. apply inj_le. rewrite <- Hlabels.
    clear. induction labels as [|x labels IH]; [done|].
    cbn [list_to_set length]. rewrite size_union_alt.
    assert (size ((list_to_set labels : gset jsstring) ∖ {[x]}) ≤ size (list_to_set labels : gset jsstring))%nat
      by (by apply subseteq_size, subseteq_difference_l).
    rewrite size_singleton. lia.
Qed.

Lemma getStats_counts_witness :
  (0 < length [nxDomainQuery; noisierQuery])%nat
  ∧ FeatureStats.totalQueries (getStats [nxDomainQuery; noisierQuery])
    = inject_Z (Z.of_nat (length [nxDomainQuery; noisierQuery]))
  ∧ 1 <= FeatureStats.uniqueSubdomains (getStats [nxDomainQuery; noisierQuery])
  ∧ FeatureStats.uniqueSubdomains (getStats [nxDomainQuery; noisierQuery])
    <= FeatureStats.totalQueries (getStats [nxDomainQuery; noisierQuery]).
Proof.
  assert (0 < length [nxDomainQuery; noisierQuery])%nat as Hlen by (simpl; lia).
  split; [exact Hlen|].
  apply (getStats_counts [nxDomainQuery; noisierQuery] Hlen).
Defined.

Lemma split_hd (s : jsstring) : hd [] (split s dot) = leadingLabel s.
Proof.
  induction s as [|c s IH]; [done|]. simpl.
  destruct (c =? dot)%N; [done|].
  destruct (split s dot) as [|piece pieces]; simpl in *; by rewrite <- IH.
Qed.

(** X20: [uniqueSubdomains] counts leading labels, not subdomains: records
    whose names all start with the same label (say [www]) count as one, however
    many different domains they name. *)
Theorem getStats_uniqueSubdomains_same_label (logs : list DNSQuery.t) (label : jsstring) :
  (0 < length logs)%nat →
  Forall (λ l, leadingLabel (DNSQuery.query l) = label) logs →
  FeatureStats.uniqueSubdomains (getStats logs) = 1.
Proof.
  intros Hlen Hall. unfold getStats.
  destruct (Nat.eqb_spec (length logs) 0) as [Hz|_]; [lia|].
  cbn [FeatureStats.uniqueSubdomains].
  assert ((list_to_set (map (λ l, hd [] (split (DNSQuery.query l) dot)) logs) : gset jsstring)
          = {[ label ]}) as ->; [|by rewrite size_singleton].
  destruct logs as [|l0 logs]; [simpl in Hlen; lia|]. clear Hlen.
  apply set_eq. intros x. rewrite elem_of_list_to_set, list_elem_of_fmap, elem_of_singleton.
  split.
  - intros (l & -> & Hl). rewrite split_hd.
    by apply (proj1 (Forall_forall _ _) Hall).
  - intros ->. exists l0. apply Forall_cons in Hall as [H0 _].
    rewrite split_hd. split; [done | by left].
Qed.

Lemma getStats_uniqueSubdomains_same_label_witness :
  (0 < length [askedFor (js "www.example.com"); askedFor (js "www.other.org")])%nat
  ∧ Forall (λ l, leadingLabel (DNSQuery.query l) = js "www")
           [askedFor (js "www.example.com"); askedFor (js "www.other.org")]
  ∧ FeatureStats.uniqueSubdomains
      (getStats [askedFor (js "www.example.com"); askedFor (js "www.other.org")]) = 1.
Proof.
  assert (0 < length [askedFor (js "www.example.com"); askedFor (js "www.other.org")])%nat
    as Hlen by (simpl; lia).
  assert (Forall (λ l, leadingLabel (DNSQuery.query l) = js "www")
                 [askedFor (js "www.example.com"); askedFor (js "www.other.org")]) as Hall
    by (repeat constructor).
  repeat (split; [assumption|]).
  apply (getStats_uniqueSubdomains_same_label
           [askedFor (js "www.example.com"); askedFor (js "www.other.org")] (js "www")
           Hlen Hall).
Defined.

(** ** Geolocation service *)

(** A call that waits has found nothing under [ip], no private prefix, and
    goes on with [fetchGeolocation_resume ip]. *)
Lemma fetchGeolocation_Await (cache : gmap jsstring GeoData.t) (ip url : jsstring)
    (resume : reply → gmap jsstring GeoData.t → GeoData.t * gmap jsstring GeoData.t) :
  fetchGeolocation cache ip = Await url resume →
  cache !! ip = None ∧ privatePrefix ip = false
  ∧ url = js "https://ipwho.is/" ++ ip ∧ resume = fetchGeolocation_resume ip.
Proof.
  unfold fetchGeolocation. intros Hcall.
  destruct (cache !! ip); [done|].
  destruct (Array_includes objectPrototypeKeys ip); [done|].
  destruct (privatePrefix ip); [done|].
  by injection Hcall as <- <-.
Qed.

Lemma fetchGeolocation_resume_failed (ip : jsstring) (r : reply)
    (cache : gmap jsstring GeoData.t) :
  failed r = true → fetchGeolocation_resume ip r cache = (unknownLocation, cache).
Proof.
  intros Hfail. destruct r as [| | |data]; try done. simpl in Hfail |- *. by rewrite Hfail.
Qed.

(** X21: a successful lookup is cached: once a call that had to wait is
    resumed with a body whose [success] is truthy, the next call for the same
    address answers the very same data without a request, and the entries of
    the other addresses are left as they were. *)
Theorem fetchGeolocation_success_is_cached (cache cache' : gmap jsstring GeoData.t)
    (ip url : jsstring) (data : IpWhoIs.t)
    (resume : reply → gmap jsstring GeoData.t → GeoData.t * gmap jsstring GeoData.t) :
  fetchGeolocation cache ip = Await url resume →
  IpWhoIs.success data = true →
  fetchGeolocation (resume (Body data) cache').2 ip = Answer (resume (Body data) cache').1
  ∧ ∀ other, strictEq other ip = false →
      (resume (Body data) cache').2 !! other = cache' !! other.
Proof.
  intros (_ & _ & _ & ->)%fetchGeolocation_Await Hok.
  unfold fetchGeolocation_resume. rewrite Hok. cbn [negb fst snd]. split.
  - unfold fetchGeolocation. by rewrite lookup_insert_eq.
  - intros other Hother. apply lookup_insert_ne. intros ->.
    unfold strictEq in Hother. by rewrite bool_decide_eq_true_2 in Hother.
Qed.

Lemma fetchGeolocation_success_is_cached_witness :
  fetchGeolocation geoCache (js "8.8.8.8")
    = Await (js "https://ipwho.is/8.8.8.8") (fetchGeolocation_resume (js "8.8.8.8"))
  ∧ IpWhoIs.success moscow = true
  ∧ fetchGeolocation (fetchGeolocation_resume (js "8.8.8.8") (Body moscow) geoCache).2
      (js "8.8.8.8")
    = Answer (fetchGeolocation_resume (js "8.8.8.8") (Body moscow) geoCache).1
  ∧ ∀ other, strictEq other (js "8.8.8.8") = false →
      (fetchGeolocation_resume (js "8.8.8.8") (Body moscow) geoCache).2 !! other
      = geoCache !! other.
Proof.
  assert (fetchGeolocation geoCache (js "8.8.8.8")
          = Await (js "https://ipwho.is/8.8.8.8") (fetchGeolocation_resume (js "8.8.8.8")))
    as Hcall by reflexivity.
  assert (IpWhoIs.success moscow = true) as Hok by reflexivity.
  repeat (split; [assumption|]).
  apply (fetchGeolocation_success_is_cached geoCache geoCache (js "8.8.8.8") _ moscow _
           Hcall Hok).
Defined.

(** X22: a failed lookup (network error, HTTP error, unreadable body, or a
    body whose [success] is falsy) answers the location [Unknown] and leaves
    the cache untouched, so the next call for the address sends the same
    request again. *)
Theorem fetchGeolocation_failure_not_cached (cache cache' : gmap jsstring GeoData.t)
    (ip url : jsstring) (r : reply)
    (resume : reply → gmap jsstring GeoData.t → GeoData.t * gmap jsstring GeoData.t) :
  fetchGeolocation cache ip = Await url resume →
  failed r = true →
  resume r cache' = (unknownLocation, cache')
  ∧ fetchGeolocation (resume r cache).2 ip = Await url resume.
Proof.
  intros Hcall Hfail.
  destruct (fetchGeolocation_Await _ _ _ _ Hcall) as (_ & _ & _ & ->).
  rewrite !fetchGeolocation_resume_failed by done. by split.
Qed.

Lemma fetchGeolocation_failure_not_cached_witness :
  fetchGeolocation geoCache (js "8.8.8.8")
    = Await (js "https://ipwho.is/8.8.8.8") (fetchGeolocation_resume (js "8.8.8.8"))
  ∧ failed HttpError = true
  ∧ fetchGeolocation_resume (js "8.8.8.8") HttpError geoCache = (unknownLocation, geoCache)
  ∧ fetchGeolocation (fetchGeolocation_resume (js "8.8.8.8") HttpError geoCache).2
      (js "8.8.8.8")
    = Await (js "https://ipwho.is/8.8.8.8") (fetchGeolocation_resume (js "8.8.8.8")).
Proof.
  assert (fetchGeolocation geoCache (js "8.8.8.8")
          = Await (js "https://ipwho.is/8.8.8.8") (fetchGeolocation_resume (js "8.8.8.8")))
    as Hcall by reflexivity.
  assert (failed HttpError = true) as Hfail by reflexivity.
  repeat (split; [assumption|]).
  apply (fetchGeolocation_failure_not_cached geoCache geoCache (js "8.8.8.8") _ HttpError _
           Hcall Hfail).
Defined.

Lemma locationText_nonempty (data : IpWhoIs.t) : (0 < length (locationText data))%nat.
Proof.
  unfold locationText. destruct (_ ++ _ ++ _); simpl; lia.
Qed.

(** X23: the service never answers an empty location: if no entry of the
    cache has one, the answer of a call has none either, whatever the network
    replies, and the cache the call leaves keeps the property. *)
Theorem lookupVia_location_nonempty (net : jsstring → reply)
    (cache : gmap jsstring GeoData.t) (ip : jsstring) :
  map_Forall (λ _ geo, (0 < length (GeoData.location geo))%nat) cache →
  from_option (λ geo, (0 < length (GeoData.location geo))%nat) True (lookupVia net cache ip).1
  ∧ map_Forall (λ _ geo, (0 < length (GeoData.location geo))%nat) (lookupVia net cache ip).2.
Proof.
  intros Hinv. unfold lookupVia, fetchGeolocation.
  destruct (cache !! ip) as [geo|] eqn:Hip.
  { split; [|done]. by apply (Hinv ip). }
  destruct (Array_includes objectPrototypeKeys ip); [done|].
  destruct (privatePrefix ip).
  { split; [simpl; lia | done]. }
  unfold fetchGeolocation_resume.
  destruct (net _) as [| | |data]; try (split; [simpl; lia | done]).
  destruct (IpWhoIs.success data); cbn [negb fst snd].
  - split; [apply locationText_nonempty|].
    apply map_Forall_insert_2; [apply locationText_nonempty | done].
  - split; [simpl; lia | done].
Qed.

Lemma lookupVia_location_nonempty_witness :
  map_Forall (λ _ geo, (0 < length (GeoData.location geo))%nat) geoCache
  ∧ from_option (λ geo, (0 < length (GeoData.location geo))%nat) True
      (lookupVia (λ _, Body moscow) geoCache (js "8.8.8.8")).1
  ∧ map_Forall (λ _ geo, (0 < length (GeoData.location geo))%nat)
      (lookupVia (λ _, Body moscow) geoCache (js "8.8.8.8")).2.
Proof.
  assert (map_Forall (λ _ geo, (0 < length (GeoData.location geo))%nat) geoCache) as Hinv.
  { apply map_Forall_insert_2; [simpl; lia|]. apply map_Forall_singleton. simpl. lia. }
  split; [exact Hinv|].
  apply (lookupVia_location_nonempty (λ _, Body moscow) geoCache (js "8.8.8.8") Hinv).
Defined.

(** X24: a lookup that fails never lowers a threat score: the import handler
    stores the location [Unknown], which the scorer counts as a high-risk
    location, so the enriched record scores at least what the normaliser
    gave it. *)
Theorem failed_lookup_never_lowers_score `{Host}
    (data : gmap jsstring jsstring) (n : nat)
    (cache cache' : gmap jsstring GeoData.t) (url : jsstring) (r : reply)
    (resume : reply → gmap jsstring GeoData.t → GeoData.t * gmap jsstring GeoData.t) :
  fetchGeolocation cache (DNSQuery.sourceIp (normalizeDNSQuery data n).1) = Await url resume →
  failed r = true →
  DNSQuery.location (enrichWithGeo (normalizeDNSQuery data n).1 (resume r cache').1)
    = Some (js "Unknown")
  ∧ DNSQuery.threatScore (normalizeDNSQuery data n).1
    <= DNSQuery.threatScore (enrichWithGeo (normalizeDNSQuery data n).1 (resume r cache').1).
Proof.
  intros (_ & _ & _ & ->)%fetchGeolocation_Await Hfail.
  rewrite fetchGeolocation_resume_failed by done.
  split; [done|]. by apply enrich_normalised_high_risk.
Qed.

Lemma failed_lookup_never_lowers_score_witness :
  fetchGeolocation geoCache
      (DNSQuery.sourceIp (normalizeDNSQuery (H := RefHost.host) fromResolver 0%nat).1)
    = Await (js "https://ipwho.is/8.8.8.8") (fetchGeolocation_resume (js "8.8.8.8"))
  ∧ failed NetworkError = true
  ∧ DNSQuery.location
      (enrichWithGeo (normalizeDNSQuery (H := RefHost.host) fromResolver 0%nat).1
         (fetchGeolocation_resume (js "8.8.8.8") NetworkError geoCache).1)
    = Some (js "Unknown")
  ∧ DNSQuery.threatScore (normalizeDNSQuery (H := RefHost.host) fromResolver 0%nat).1
    <= DNSQuery.threatScore
         (enrichWithGeo (normalizeDNSQuery (H := RefHost.host) fromResolver 0%nat).1
            (fetchGeolocation_resume (js "8.8.8.8") NetworkError geoCache).1).
Proof.
  assert (fetchGeolocation geoCache
            (DNSQuery.sourceIp (normalizeDNSQuery (H := RefHost.host) fromResolver 0%nat).1)
          = Await (js "https://ipwho.is/8.8.8.8") (fetchGeolocation_resume (js "8.8.8.8")))
    as Hcall by (vm_compute; reflexivity).
  assert (failed NetworkError = true) as Hfail by reflexivity.
  repeat (split; [assumption|]).
  apply (failed_lookup_never_lowers_score (H := RefHost.host) fromResolver 0%nat
           geoCache geoCache _ NetworkError _ Hcall Hfail).
Defined.

Lemma privatePrefix_not_inherited (ip : jsstring) :
  privatePrefix ip = true → Array_includes objectPrototypeKeys ip = false.
Proof.
  intros Hp. destruct ip as [|c ip]; [done|].
  assert (c = 49%N) as ->.
  { unfold privatePrefix in Hp. cbn [startsWith js map list_ascii_of_string] in Hp.
    destruct (N.eqb_spec c (N_of_ascii "1")) as [->|]; [done|]. done. }
  unfold Array_includes, strictEq. cbn [existsb objectPrototypeKeys].
  repeat (rewrite bool_decide_eq_false_2 by (intros E; vm_compute in E; discriminate E)).
  done.
Qed.

(** X25: for a source address with one of the private prefixes that is not
    in the cache the service answers [Private Network] without a request, and
    enriching the record with it never raises the threat score (the +5 of the
    missing location is lost). *)
Theorem private_address_never_raises_score `{Host}
    (data : gmap jsstring jsstring) (n : nat) (cache : gmap jsstring GeoData.t) :
  privatePrefix (DNSQuery.sourceIp (normalizeDNSQuery data n).1) = true →
  cache !! DNSQuery.sourceIp (normalizeDNSQuery data n).1 = None →
  fetchGeolocation cache (DNSQuery.sourceIp (normalizeDNSQuery data n).1)
    = Answer privateNetwork
  ∧ DNSQuery.threatScore (enrichWithGeo (normalizeDNSQuery data n).1 privateNetwork)
    <= DNSQuery.threatScore (normalizeDNSQuery data n).1.
Proof.
  intros Hprivate Hmiss. split.
  - unfold fetchGeolocation. rewrite Hmiss, (privatePrefix_not_inherited _ Hprivate).
    by rewrite Hprivate.
  - by apply enrich_normalised_low_risk.
Qed.

Lemma private_address_never_raises_score_witness :
  privatePrefix (DNSQuery.sourceIp (normalizeDNSQuery (H := RefHost.host) fromGateway 0%nat).1)
    = true
  ∧ geoCache !! DNSQuery.sourceIp (normalizeDNSQuery (H := RefHost.host) fromGateway 0%nat).1
    = None
  ∧ fetchGeolocation geoCache
      (DNSQuery.sourceIp (normalizeDNSQuery (H := RefHost.host) fromGateway 0%nat).1)
    = Answer privateNetwork
  ∧ DNSQuery.threatScore
      (enrichWithGeo (normalizeDNSQuery (H := RefHost.host) fromGateway 0%nat).1
         privateNetwork)
    <= DNSQuery.threatScore (normalizeDNSQuery (H := RefHost.host) fromGateway 0%nat).1.
Proof.
  assert (privatePrefix
            (DNSQuery.sourceIp (normalizeDNSQuery (H := RefHost.host) fromGateway 0%nat).1)
          = true) as Hprivate by (vm_compute; reflexivity).
  assert (geoCache
            !! DNSQuery.sourceIp (normalizeDNSQuery (H := RefHost.host) fromGateway 0%nat).1
          = None) as Hmiss by (vm_compute; reflexivity).
  repeat (split; [assumption|]).
  apply (private_address_never_raises_score (H := RefHost.host) fromGateway 0%nat geoCache
           Hprivate Hmiss).
Defined.

Lemma includes_app_r (p s x : jsstring) : includes s x = true → includes (p ++ s) x = true.
Proof.
  intros Hs. induction p as [|c p IH]; [done|].
  cbn [app includes]. rewrite IH. apply orb_true_r.
Qed.

(** X26: the location text the service builds is recognised by the scorer:
    when the body names a country that contains one of the high-risk names,
    the location of the answer contains it too, whatever the city, and the
    enriched record scores at least what the normaliser gave it. *)
Theorem high_risk_country_never_lowers_score `{Host}
    (data : gmap jsstring jsstring) (n : nat)
    (cache cache' : gmap jsstring GeoData.t) (url country : jsstring) (body : IpWhoIs.t)
    (resume : reply → gmap jsstring GeoData.t → GeoData.t * gmap jsstring GeoData.t) :
  fetchGeolocation cache (DNSQuery.sourceIp (normalizeDNSQuery data n).1) = Await url resume →
  IpWhoIs.success body = true →
  IpWhoIs.country body = Some country →
  existsb (includes country) highRiskLocations = true →
  existsb (includes (GeoData.location (resume (Body body) cache').1)) highRiskLocations = true
  ∧ DNSQuery.threatScore (normalizeDNSQuery data n).1
    <= DNSQuery.threatScore
         (enrichWithGeo (normalizeDNSQuery data n).1 (resume (Body body) cache').1).
Proof.
  intros (_ & _ & _ & ->)%fetchGeolocation_Await Hok Hcountry Hrisk.
  assert (existsb (includes (GeoData.location (fetchGeolocation_resume
            (DNSQuery.sourceIp (normalizeDNSQuery data n).1) (Body body) cache').1))
            highRiskLocations = true) as Hgeo.
  { unfold fetchGeolocation_resume. rewrite Hok. cbn [negb fst GeoData.location].
    apply existsb_exists in Hrisk as (name & Hname & Hin).
    apply existsb_exists. exists name. split; [done|].
    unfold locationText. rewrite Hcountry.
    destruct country as [|c country].
    { rewrite includes_nil in Hin; [done|].
      intros ->. revert Hname. unfold highRiskLocations. cbn. intros Hn.
      repeat (destruct Hn as [Hn|Hn]; [discriminate Hn|]). done. }
    cbn [orElse].
    set (prefix := orElse (IpWhoIs.city body) [] ++
                   (if truthy (IpWhoIs.city body) && truthy (Some (c :: country))
                    then js ", " else [])).
    rewrite (app_assoc _ _ (c :: country)). fold prefix.
    destruct (prefix ++ c :: country) eqn:Htext.
    { by destruct prefix. }
    rewrite <- Htext. by apply includes_app_r. }
  split; [exact Hgeo|]. by apply enrich_normalised_high_risk.
Qed.

Lemma high_risk_country_never_lowers_score_witness :
  fetchGeolocation geoCache
      (DNSQuery.sourceIp (normalizeDNSQuery (H := RefHost.host) fromResolver 0%nat).1)
    = Await (js "https://ipwho.is/8.8.8.8") (fetchGeolocation_resume (js "8.8.8.8"))
  ∧ IpWhoIs.success moscow = true
  ∧ IpWhoIs.country moscow = Some (js "Russia")
  ∧ existsb (includes (js "Russia")) highRiskLocations = true
  ∧ existsb (includes (GeoData.location
                         (fetchGeolocation_resume (js "8.8.8.8") (Body moscow) geoCache).1))
            highRiskLocations = true
  ∧ DNSQuery.threatScore (normalizeDNSQuery (H := RefHost.host) fromResolver 0%nat).1
    <= DNSQuery.threatScore
         (enrichWithGeo (normalizeDNSQuery (H := RefHost.host) fromResolver 0%nat).1
            (fetchGeolocation_resume (js "8.8.8.8") (Body moscow) geoCache).1).
Proof.
  assert (fetchGeolocation geoCache
            (DNSQuery.sourceIp (normalizeDNSQuery (H := RefHost.host) fromResolver 0%nat).1)
          = Await (js "https://ipwho.is/8.8.8.8") (fetchGeolocation_resume (js "8.8.8.8")))
    as Hcall by (vm_compute; reflexivity).
  assert (IpWhoIs.success moscow = true) as Hok by reflexivity.
  assert (IpWhoIs.country moscow = Some (js "Russia")) as Hcountry by reflexivity.
  assert (existsb (includes (js "Russia")) highRiskLocations = true) as Hrisk by reflexivity.
  repeat (split; [assumption|]).
  apply (high_risk_country_never_lowers_score (H := RefHost.host) fromResolver 0%nat
           geoCache geoCache _ (js "Russia") moscow _ Hcall Hok Hcountry Hrisk).
Defined.

(** ** Alerts and filters of the application *)

Lemma raiseAlerts_spec `{Host} (parsed : list DNSQuery.t) :
  ∀ (newAlerts : list Alert.t) (n : nat),
  ∃ raised,
    (raiseAlerts parsed newAlerts n).1 = rev raised ++ newAlerts
    ∧ map Alert.queryId raised
      = map DNSQuery.id (filter (λ l, isTunneling l = true) parsed)
    ∧ map Alert.severity raised
      = map alertSeverity (filter (λ l, isTunneling l = true) parsed)
    ∧ (raiseAlerts parsed newAlerts n).2
      = (n + length (filter (λ l, isTunneling l = true) parsed))%nat.
Proof.
  induction parsed as [|log rest IH]; intros newAlerts n.
  - exists []. simpl. repeat split. lia.
  - cbn [raiseAlerts]. rewrite filter_cons.
    destruct (isTunneling log) eqn:Hlabel.
    + rewrite decide_True by done.
      unfold importedAlert. run_state.
      match goal with |- context [raiseAlerts rest (?a :: newAlerts) (S n)] =>
        destruct (IH (a :: newAlerts) (S n)) as (raised & Halerts & Hids & Hsev & Hn);
        exists (a :: raised)
      end.
      rewrite Halerts, Hn. cbn [rev map length]. rewrite <- app_assoc. cbn [app].
      repeat split; [by rewrite Hids | by rewrite Hsev | lia].
    + rewrite decide_False by done. apply IH.
Qed.

(** X27: an import raises one alert per record labelled Tunneling, with the
    id of the record and the severity of its score, and puts them in front of
    the earlier alerts, the last record first; the list is then cut to 100, so
    an import with 100 tunnelling records or more drops every earlier alert and
    keeps those of its last 100.  One draw of [Math.random] is made per
    alert. *)
Theorem importLogs_alerts `{Host} (parsedWithGeo : list DNSQuery.t) (prev : AppState.t)
    (n : nat) :
  let tunnels := filter (λ l, isTunneling l = true) parsedWithGeo in
  ∃ raised,
    AppState.alerts (importLogs parsedWithGeo prev n).1
      = take 100 (rev raised ++ AppState.alerts prev)
    ∧ map Alert.queryId raised = map DNSQuery.id tunnels
    ∧ map Alert.severity raised = map alertSeverity tunnels
    ∧ (importLogs parsedWithGeo prev n).2 = (n + length tunnels)%nat.
Proof.
  cbv zeta. unfold importLogs, mbind, mret, State_bind, State_ret.
  destruct (raiseAlerts_spec parsedWithGeo (AppState.alerts prev) n)
    as (raised & Halerts & Hids & Hsev & Hn).
  destruct (raiseAlerts parsedWithGeo (AppState.alerts prev) n) as [newAlerts n'].
  cbn [fst snd] in *. subst. by exists raised.
Qed.

(** X28: the type and the severity of an alert fit together: a CRITICAL
    alert is always a C2_PATTERN one (score above 85), a MEDIUM alert never
    is (score at most 60), and a HIGH alert is a C2_PATTERN one exactly when
    the score is above 80. *)
Theorem alert_severity_type_coherent (log : DNSQuery.t) :
  match alertSeverity log, alertType log with
  | Severity.CRITICAL, AlertType.C2_PATTERN => 85 < DNSQuery.threatScore log
  | Severity.CRITICAL, _ => False
  | Severity.HIGH, AlertType.C2_PATTERN => 80 < DNSQuery.threatScore log <= 85
  | Severity.HIGH, _ => 60 < DNSQuery.threatScore log <= 80
  | Severity.MEDIUM, AlertType.C2_PATTERN => False
  | Severity.MEDIUM, _ => DNSQuery.threatScore log <= 60
  end.
Proof.
  unfold alertSeverity, alertType.
  destruct (gt (DNSQuery.threatScore log) 85) eqn:H85;
  destruct (gt (DNSQuery.threatScore log) 60) eqn:H60;
  destruct (gt (DNSQuery.threatScore log) 80) eqn:H80;
  destruct (gt (DNSQuery.entropy log) 4.5);
  repeat match goal with
         | H : gt _ _ = true |- _ => apply gt_true in H
         | H : gt _ _ = false |- _ => apply gt_false in H
         end; try lra; try (split; lra).
Qed.

Lemma includes_empty (s : jsstring) : includes s [] = true.
Proof. by destruct s. Qed.

(** X29: with the filters as they start (empty search term, every select
    on ALL) the log view shows every record, in order. *)
Theorem filteredLogs_defaults `{Host} (logs : list DNSQuery.t) :
  toLowerCase [] = [] →
  filteredLogs logs [] (js "ALL") (js "ALL") (js "ALL") (js "ALL") = logs.
Proof.
  intros Hlower. unfold filteredLogs. induction logs as [|log logs IH]; [done|].
  rewrite filter_cons, IH. rewrite decide_True; [done|].
  by rewrite Hlower, !includes_empty.
Qed.

Lemma filteredLogs_defaults_witness :
  toLowerCase (Host := RefHost.host) [] = []
  ∧ filteredLogs (H := RefHost.host) [nxDomainQuery; noisierQuery] []
      (js "ALL") (js "ALL") (js "ALL") (js "ALL")
    = [nxDomainQuery; noisierQuery].
Proof.
  assert (toLowerCase (Host := RefHost.host) [] = []) as Hlower by reflexivity.
  split; [exact Hlower|].
  apply (filteredLogs_defaults (H := RefHost.host) [nxDomainQuery; noisierQuery] Hlower).
Defined.

Lemma filter_sublist_impl {A : Type} (P Q : A → Prop)
    `{∀ x, Decision (P x)} `{∀ x, Decision (Q x)} (l : list A) :
  (∀ x, P x → Q x) → sublist (filter P l) (filter Q l).
Proof.
  intros HPQ. induction l as [|x l IH]; [done|].
  rewrite !filter_cons. destruct (decide (P x)) as [HP|HP].
  - rewrite decide_True by auto. by constructor.
  - case_decide; [by constructor | done].
Qed.

Lemma filter_split_length {A : Type} (P Q R : A → Prop)
    `{∀ x, Decision (P x)} `{∀ x, Decision (Q x)} `{∀ x, Decision (R x)} (l : list A) :
  (∀ x, R x ↔ P x ∨ Q x) → (∀ x, P x → Q x → False) →
  (length (filter P l) + length (filter Q l) = length (filter R l))%nat.
Proof.
  intros HR Hdisj. induction l as [|x l IH]; [done|].
  rewrite !filter_cons.
  destruct (decide (P x)) as [HP|HP], (decide (Q x)) as [HQ|HQ].
  - destruct (Hdisj x HP HQ).
  - rewrite decide_True by (apply HR; auto). simpl. lia.
  - rewrite decide_True by (apply HR; auto). simpl. lia.
  - rewrite decide_False by (rewrite HR; tauto). done.
Qed.

Lemma matchesThreat_nested (log : DNSQuery.t) :
  (matchesThreat (js "CRITICAL") log = true → matchesThreat (js "HIGH") log = true)
  ∧ (matchesThreat (js "HIGH") log = true → matchesThreat (js "MEDIUM") log = true)
  ∧ matchesThreat (js "LOW") log = negb (matchesThreat (js "MEDIUM") log).
Proof.
  unfold matchesThreat, strictEq.
  repeat (rewrite bool_decide_eq_false_2 by (intros E; vm_compute in E; discriminate E)).
  rewrite !bool_decide_eq_true_2 by done. cbn [orb].
  repeat split.
  - intros H80%gt_true. apply gt_true. lra.
  - intros H50%gt_true. apply gt_true. lra.
  - unfold gt. by destruct (Qle_bool (DNSQuery.threatScore log) 20).
Qed.

(** X30: the threat filter is cumulative, not banded: the records shown
    under CRITICAL are among those shown under HIGH, those under HIGH among
    those under MEDIUM, and LOW and MEDIUM split the records shown under ALL
    between them, whatever the other filters. *)
Theorem filteredLogs_threat_levels_nest `{Host} (logs : list DNSQuery.t)
    (searchTerm filterType filterRCode filterReputation : jsstring) :
  let view := λ filterThreat,
    filteredLogs logs searchTerm filterType filterRCode filterThreat filterReputation in
  sublist (view (js "CRITICAL")) (view (js "HIGH"))
  ∧ sublist (view (js "HIGH")) (view (js "MEDIUM"))
  ∧ sublist (view (js "MEDIUM")) (view (js "ALL"))
  ∧ (length (view (js "LOW")) + length (view (js "MEDIUM")) = length (view (js "ALL")))%nat.
Proof.
  cbv zeta. unfold filteredLogs.
  assert (∀ log, matchesThreat (js "ALL") log = true) as Hall by done.
  repeat split.
  - apply filter_sublist_impl. intros log. cbv zeta.
    rewrite !andb_true_iff. intros [[[[? ?] ?] Ht] ?].
    by apply (matchesThreat_nested log) in Ht.
  - apply filter_sublist_impl. intros log. cbv zeta.
    rewrite !andb_true_iff. intros [[[[? ?] ?] Ht] ?].
    by apply (matchesThreat_nested log) in Ht.
  - apply filter_sublist_impl. intros log. cbv zeta.
    rewrite !andb_true_iff. intros [[[[? ?] ?] Ht] ?]. by rewrite Hall.
  - apply filter_split_length.
    + intros log. cbv zeta. destruct (matchesThreat_nested log) as (_ & _ & ->).
      rewrite Hall. destruct (matchesThreat (js "MEDIUM") log); cbn [negb];
        rewrite ?andb_true_r, ?andb_false_r, ?andb_false_l; intuition discriminate.
    + intros log. cbv zeta. destruct (matchesThreat_nested log) as (_ & _ & ->).
      destruct (matchesThreat (js "MEDIUM") log); cbn [negb];
        rewrite ?andb_true_r, ?andb_false_r, ?andb_false_l; intuition discriminate.
Qed.
